(** * BitStream: a bit-addressable buffer codec

    A shallow embedding of [src/structures/BitStream.ts] (node-raknet) and
    the verification of its natural-language specification.

    JavaScript numbers are modelled as [Z] (every number the class handles
    is an integer far below 2^53), with the 32-bit coercions of the bit
    operators written out.  A [Buffer] is a [list Z] of octets; the methods
    are computations in a state-and-exception monad over the private fields
    of the class.  An exception leaves the fields as they were when it was
    thrown, exactly as in JavaScript. *)

From Stdlib Require Import ZArith Lia Bool List String Ascii QArith Qabs Qround Qfield.
From stdpp Require Import base list.
Import ListNotations.

Local Open Scope Z_scope.

(** ** JavaScript values and operators *)

Module Js.

(** The values a caller can hand to [writeBit]. *)
Inductive value :=
  | Undefined
  | Null
  | Boolean (b : bool)
  | Number (n : Z)
  | Str (s : string).

(** [typeof v === "boolean"]. *)
Definition is_boolean (v : value) : bool :=
  match v with Boolean _ => true | _ => false end.

Definition ToInt32 (n : Z) : Z := (n + 2 ^ 31) mod 2 ^ 32 - 2 ^ 31.
Definition ToUint32 (n : Z) : Z := n mod 2 ^ 32.
Definition shiftCount (n : Z) : Z := Z.land (ToUint32 n) 31.

(** [a & b], [a | b], [a << n], [a >> n], [a >>> n]. *)
Definition and (a b : Z) : Z := Z.land (ToInt32 a) (ToInt32 b).
Definition or (a b : Z) : Z := Z.lor (ToInt32 a) (ToInt32 b).
Definition shl (a n : Z) : Z := ToInt32 (Z.shiftl (ToInt32 a) (shiftCount n)).
Definition shr (a n : Z) : Z := Z.shiftr (ToInt32 a) (shiftCount n).
Definition ushr (a n : Z) : Z := Z.shiftr (ToUint32 a) (shiftCount n).

(** [a && b] on numbers: [a] when it is falsy (zero), [b] otherwise. *)
Definition andand (a b : Z) : Z := if a =? 0 then a else b.

(** [arr[i]] used as an operand of a bit operator: an index outside the
    array yields [undefined], which the operator coerces to 0. *)
Definition index (arr : list Z) (i : Z) : Z :=
  if i <? 0 then 0 else nth (Z.to_nat i) arr 0.

End Js.

(** ** Exceptions and the method monad *)

Inductive exception :=
  | Error (message : string)     (* [throw new Error(message)] *)
  | RangeError                   (* thrown by Buffer on a bad offset, value or size *)
  | NotImplemented.              (* [throw "Not Implemented"] *)

Inductive completion (A : Type) :=
  | Normal (a : A)
  | Throw (e : exception).
Arguments Normal {A} a.
Arguments Throw {A} e.

(** ** Node's Buffer *)

Module Buffer.

(** [Buffer.alloc(size)]: zero-filled. *)
Definition alloc (size : Z) : completion (list Z) :=
  if size <? 0 then Throw RangeError else Normal (replicate (Z.to_nat size) 0).

(** [source.copy(target)]: copies as much of [source] as fits at the start
    of [target]; returns the new contents of [target]. *)
Definition copy (source target : list Z) : list Z :=
  take (length target) source ++ drop (length source) target.

(** [buf.readUInt8(offset)]. *)
Definition readUInt8 (buf : list Z) (offset : Z) : completion Z :=
  if (0 <=? offset) && (offset <? Z.of_nat (length buf))
  then Normal (nth (Z.to_nat offset) buf 0)
  else Throw RangeError.

(** [buf.writeUInt8(value, offset)]: the value is checked first, then the
    offset. *)
Definition writeUInt8 (buf : list Z) (value offset : Z) : completion (list Z) :=
  if (value <? 0) || (255 <? value) then Throw RangeError
  else if (0 <=? offset) && (offset <? Z.of_nat (length buf))
  then Normal (<[Z.to_nat offset := value]> buf)
  else Throw RangeError.

End Buffer.

(** ** The class *)

Record BitStream := mkBitStream {
  data : list Z;
  byteCount : Z;
  readBytePosition : Z;
  readBitPosition : Z;
  writeBytePosition : Z;
  writeBitPosition : Z;
  byte : option Z            (* [undefined] is [None] *)
}.

(** The read-only field [#mask]. *)
Definition mask : list Z := [0x01; 0x02; 0x04; 0x08; 0x10; 0x20; 0x40; 0x80].

(** A method body: from the fields of [this] to how the call completes,
    with the fields as the call leaves them (also when it throws). *)
Definition M (A : Type) : Type := BitStream -> completion A * BitStream.

Definition ret {A} (a : A) : M A := fun s => (Normal a, s).
Definition throw {A} (e : exception) : M A := fun s => (Throw e, s).
Definition bind {A B} (m : M A) (f : A -> M B) : M B :=
  fun s => match m s with
           | (Normal a, s') => f a s'
           | (Throw e, s') => (Throw e, s')
           end.

Notation "x <- m ;; f" := (bind m (fun x => f))
  (at level 100, m at next level, right associativity).
Notation "m ;; f" := (bind m (fun _ => f))
  (at level 100, right associativity).

(** Reading a field, a call into [Buffer], and the assignments to the
    fields. *)
Definition get {A} (field : BitStream -> A) : M A := fun s => (Normal (field s), s).
Definition lift {A} (c : completion A) : M A := fun s => (c, s).

Definition set_data (d : list Z) : M unit := fun s =>
  (Normal tt, mkBitStream d (byteCount s) (readBytePosition s) (readBitPosition s)
                          (writeBytePosition s) (writeBitPosition s) (byte s)).
Definition set_byteCount (n : Z) : M unit := fun s =>
  (Normal tt, mkBitStream (data s) n (readBytePosition s) (readBitPosition s)
                          (writeBytePosition s) (writeBitPosition s) (byte s)).
Definition set_readBytePosition (n : Z) : M unit := fun s =>
  (Normal tt, mkBitStream (data s) (byteCount s) n (readBitPosition s)
                          (writeBytePosition s) (writeBitPosition s) (byte s)).
Definition set_readBitPosition (n : Z) : M unit := fun s =>
  (Normal tt, mkBitStream (data s) (byteCount s) (readBytePosition s) n
                          (writeBytePosition s) (writeBitPosition s) (byte s)).
Definition set_writeBytePosition (n : Z) : M unit := fun s =>
  (Normal tt, mkBitStream (data s) (byteCount s) (readBytePosition s) (readBitPosition s)
                          n (writeBitPosition s) (byte s)).
Definition set_writeBitPosition (n : Z) : M unit := fun s =>
  (Normal tt, mkBitStream (data s) (byteCount s) (readBytePosition s) (readBitPosition s)
                          (writeBytePosition s) n (byte s)).
Definition set_byte (b : option Z) : M unit := fun s =>
  (Normal tt, mkBitStream (data s) (byteCount s) (readBytePosition s) (readBitPosition s)
                          (writeBytePosition s) (writeBitPosition s) b).

(** A method call on another stream object [o] (never an alias of [this]
    in the methods below: [o] is always freshly constructed). *)
Definition on {A} (o : BitStream) (m : M A) : M (A * BitStream) := fun s =>
  match m o with
  | (Normal a, o') => (Normal (a, o'), s)
  | (Throw e, _) => (Throw e, s)
  end.

(** [for (let i = 0; i < n; i++) body(i)] *)
Fixpoint for_upto (i : Z) (n : nat) (body : Z -> M unit) : M unit :=
  match n with
  | O => ret tt
  | S n' => body i ;; for_upto (i + 1) n' body
  end.

(** [constructor(data = undefined)].  The constructor keeps the caller's
    [Buffer] itself rather than a copy; no claim looks at the caller's
    [Buffer] afterwards, so that sharing is not modelled. *)
Definition new_BitStream (d : option (list Z)) : BitStream :=
  let buf := match d with Some b => b | None => [] end in
  let count := Z.of_nat (length buf) in
  mkBitStream buf count 0 7 0 7
    (if count =? 0 then None else Some (nth 0 buf 0)).

(** [length()] *)
Definition length_ (s : BitStream) : Z := byteCount s.

(** [bits()] *)
Definition bits (s : BitStream) : Z :=
  writeBytePosition s * 8 + (8 - writeBitPosition s) - 1.

(** [allRead()] *)
Definition allRead (s : BitStream) : bool :=
  byteCount s * 8 - 1 <=? readBytePosition s * 8 + readBitPosition s.

(** [writeBit(b)] *)
Definition writeBit (b : Js.value) : M unit :=
  match b with
  | Js.Boolean b =>
      wbit <- get writeBitPosition ;;
      (if wbit =? 7 then
         old <- get data ;;
         wbyte <- get writeBytePosition ;;
         fresh <- lift (Buffer.alloc (wbyte + 1)) ;;
         set_data fresh ;;
         set_byteCount (wbyte + 1) ;;
         set_data (Buffer.copy old fresh) ;;
         buf <- get data ;;
         buf' <- lift (Buffer.writeUInt8 buf 0 wbyte) ;;
         set_data buf'
       else ret tt) ;;
      buf <- get data ;;
      wbyte <- get writeBytePosition ;;
      byte <- lift (Buffer.readUInt8 buf wbyte) ;;
      let byte := Js.or byte (Js.shl (Z.b2z b) wbit) in
      buf' <- lift (Buffer.writeUInt8 buf byte wbyte) ;;
      set_data buf' ;;
      set_writeBitPosition (wbit - 1) ;;
      (if wbit - 1 <? 0 then
         set_writeBitPosition 7 ;;
         set_writeBytePosition (wbyte + 1)
       else ret tt)
  | _ => throw (Error "BitStream writeBit was not passed a boolean")
  end.

(** The loop shared by [writeByte] (8 rounds) and [writeSignedByte]
    (7 rounds): emit bit 7 of [n], then shift [n] left within a byte. *)
Fixpoint writeByte_loop (rounds : nat) (n : Z) : M unit :=
  match rounds with
  | O => ret tt
  | S rounds' =>
      let t := Js.ushr (Js.and n 0x80) 7 in
      writeBit (Js.Boolean (t =? 1)) ;;
      let n := Js.shl n 1 in
      let n := Js.and n 0xFF in
      writeByte_loop rounds' n
  end.

(** [writeByte(n)] *)
Definition writeByte (n : Z) : M unit := writeByte_loop 8 n.

(** [readBit()] *)
Definition readBit : M Z :=
  rbyte <- get readBytePosition ;;
  count <- get byteCount ;;
  (if count <=? rbyte then
     set_writeBytePosition rbyte ;;
     writeByte 0
   else ret tt) ;;
  buf <- get data ;;
  byte <- lift (Buffer.readUInt8 buf rbyte) ;;
  rbit <- get readBitPosition ;;
  let bit := Js.shr (Js.and byte (Js.index mask rbit)) rbit in
  set_readBitPosition (rbit - 1) ;;
  (if rbit - 1 =? -1 then
     set_readBitPosition 7 ;;
     set_readBytePosition (rbyte + 1)
   else ret tt) ;;
  ret bit.

(** [readBits(n)], for a count [n] that is a non-negative integer (all
    the class ever passes). *)
Fixpoint readBits_loop (n : nat) (val : Z) : M Z :=
  match n with
  | O => ret val
  | S n' =>
      bit <- readBit ;;
      readBits_loop n' (Js.or (Js.shl val 1) bit)
  end.

Definition readBits (n : nat) : M Z :=
  rbyte <- get readBytePosition ;;
  count <- get byteCount ;;
  (if rbyte <? count then
     buf <- get data ;;
     b <- lift (Buffer.readUInt8 buf rbyte) ;;
     set_byte (Some b)
   else ret tt) ;;
  readBits_loop n 0.

(** [writeBits(n, b)]: [for (let i = b; i > 0; i--)]. *)
Fixpoint writeBits (n : Z) (b : nat) : M unit :=
  match b with
  | O => ret tt
  | S b' =>
      let temp := Js.and (Js.shr n (Z.of_nat b - 1)) 0x01 in
      writeBit (Js.Boolean (temp =? 1)) ;;
      writeBits n b'
  end.

(** [readBitsReversed(n)], for a count [n] that is a non-negative
    integer: [for (let i = 0; i < n; i++)]. *)
Fixpoint readBitsReversed_loop (n : nat) (i : Z) (val : Z) : M Z :=
  match n with
  | O => ret val
  | S n' =>
      bit <- readBit ;;
      readBitsReversed_loop n' (i + 1) (Js.or val (Js.shl bit i))
  end.

Definition readBitsReversed (n : nat) : M Z := readBitsReversed_loop n 0 0.

(** [readByte()] *)
Definition readByte : M Z := readBits 8.

(** [readBytes(n)], for a count [n] that is a non-negative integer: the
    loop [while (n-- && readBytePosition < length())]. *)
Fixpoint readBytes_loop (n : nat) (val : BitStream) : M BitStream :=
  match n with
  | O => ret val
  | S n' =>
      rbyte <- get readBytePosition ;;
      len <- get length_ ;;
      if rbyte <? len then
        b <- readByte ;;
        r <- on val (writeByte b) ;;
        readBytes_loop n' (snd r)
      else ret val
  end.

Definition readBytes (n : nat) : M BitStream :=
  readBytes_loop n (new_BitStream None).

(** [writeSignedByte(n)] *)
Definition writeSignedByte (n : Z) : M unit :=
  writeBit (Js.Boolean (n <? 0)) ;;
  let n := Z.abs n in
  writeByte_loop 7 n.

(** [readSignedChar()] *)
Definition readSignedChar : M Z :=
  b <- readBit ;;
  if b =? 0 then readBits 7
  else (v <- readBits 7 ;; ret (- v)).

(** [readShort()] and [writeShort(n)] *)
Definition readShort : M Z :=
  lo <- readByte ;;
  hi <- readByte ;;
  ret (lo + Js.shl hi 8).

Definition writeShort (n : Z) : M unit :=
  writeByte (Js.and n 0xff) ;;
  writeByte (Js.ushr (Js.and n 0xff00) 8).

(** [readLong()] and [writeLong(n)] *)
Definition readLong : M Z :=
  b0 <- readByte ;;
  b1 <- readByte ;;
  b2 <- readByte ;;
  b3 <- readByte ;;
  ret (b0 + Js.shl b1 8 + Js.shl b2 16 + b3 * 16777216).

Definition writeLong (n : Z) : M unit :=
  writeShort (Js.and n 0xffff) ;;
  writeShort (Js.ushr (Js.and n 0xffff0000) 16).

(** [alignRead()] *)
Definition alignRead : M unit :=
  rbit <- get readBitPosition ;;
  if negb (rbit =? 7) then
    set_readBitPosition 7 ;;
    rbyte <- get readBytePosition ;;
    set_readBytePosition (rbyte + 1)
  else ret tt.

(** [alignWrite()] *)
Definition alignWrite : M unit :=
  wbit <- get writeBitPosition ;;
  if negb (wbit =? 7) then
    set_writeBitPosition 7 ;;
    wbyte <- get writeBytePosition ;;
    set_writeBytePosition (wbyte + 1)
  else ret tt.

(** [concat(bs)] *)
Definition concat (bs : BitStream) : M unit :=
  d <- get data ;;
  set_data (d ++ data bs) ;;
  d' <- get data ;;
  set_byteCount (Z.of_nat (length d')).

(** [readSignedLong()] *)
Definition readSignedLong : M Z := throw NotImplemented.

(** *** The custom float encoding

    [writeFloat] first derives three integers from its argument with
    floating-point arithmetic and then emits them with the bit primitives.
    The argument, a finite double, is modelled as the rational it denotes.

    [Math.log2] is implementation-approximated, and the floor of what it
    returns is not always the floor of the true logarithm: at the double
    just below 8 the logarithm rounds to 3, and an engine that computes it
    from the natural logarithm can fall just below the integer at a power
    of two.  The function [x => Math.floor(Math.log2(x))] on the positive
    doubles is therefore a parameter of the model, [log2_floor]; the
    properties proved of [writeFloat] hold for every such function that is
    [log2_accurate] at the argument.

    The rest of the arithmetic is exact on doubles, so that the rationals
    compute what the code does: [Math.pow(2, e)] is the power of two for
    [-1074 <= e <= 1023]; dividing [|n|] by it only changes the exponent of
    the double; the quotient lies between 1/2 and 4, where subtracting 1 is
    exact; and dividing by 2^-23 changes the exponent again. *)

Definition pow2 (e : Z) : Q :=
  if 0 <=? e then inject_Z (2 ^ e) else Qinv (inject_Z (2 ^ (- e))).

(** The emission part of [writeFloat], on the locals [sign], [exponent]
    (already biased) and [mantissa]. *)
Definition writeFloat_emit (sign : bool) (exponent mantissa : Z) : M unit :=
  writeByte (Js.and mantissa 0xff) ;;
  writeByte (Js.shr (Js.and mantissa 0xff00) 8) ;;
  writeBit (Js.Boolean (Js.and exponent 0x01 =? 1)) ;;
  writeBits (Js.shr (Js.and mantissa 0x7f0000) 16) 7 ;;
  writeBit (Js.Boolean sign) ;;
  writeBits (Js.shr (Js.and exponent 0xfe) 1) 7.

Section Float.

(** [x => Math.floor(Math.log2(x))] on the positive doubles, as the
    platform computes it. *)
Variable log2_floor : Q -> Z.

(** The three locals of [writeFloat(n)] for [n <> 0]: [sign], [exponent]
    after [exponent += 127], and [mantissa].  For an exponent above 1023
    [Math.pow] returns [Infinity], the quotient is 0 and the mantissa
    [-1 / 2^-23]; for one below -1074 [Math.pow] returns 0 and the mantissa
    is [Infinity], which the bit operators of the emission take for 0. *)
Definition float_sign (n : Q) : bool := Qnum n <? 0.
Definition float_exponent (n : Q) : Z := log2_floor (Qabs n) + 127.
Definition float_mantissa (n : Q) : Z :=
  let e := log2_floor (Qabs n) in
  if 1023 <? e then -8388608
  else if e <? -1074 then 0
  else Qceiling ((Qabs n / pow2 e - 1) / (1 # 8388608)).

(** [writeFloat(n)].  For [n = 0] the exponent is [-Infinity] and the
    mantissa [NaN]; the bit operators coerce both to 0. *)
Definition writeFloat (n : Q) : M unit :=
  if Qeq_bool n 0 then writeFloat_emit false 0 0
  else writeFloat_emit (float_sign n) (float_exponent n) (float_mantissa n).

End Float.

(** *** Compressed integers *)

(** A loop of [n] rounds over the local stream [ret] of [readCompressed]. *)
Fixpoint repeat_on (n : nat) (o : BitStream) (step : BitStream -> M BitStream)
  : M BitStream :=
  match n with
  | O => ret o
  | S n' => o' <- step o ;; repeat_on n' o' step
  end.

Definition ret_writeByte (n : Z) (o : BitStream) : M BitStream :=
  r <- on o (writeByte n) ;; ret (snd r).

(** [while (currentByte > 0)] of [readCompressed], with what follows it. *)
Fixpoint readCompressed_loop (size : Z) (currentByte : nat) (o : BitStream)
  : M BitStream :=
  match currentByte with
  | S c =>
      b <- readBit ;;
      if negb (b =? 0) then readCompressed_loop size c o
      else
        o <- repeat_on (Z.to_nat (size - Z.of_nat currentByte - 1)) o
               (ret_writeByte 0) ;;
        repeat_on (Z.to_nat (Z.of_nat currentByte + 1)) o
          (fun o => v <- readByte ;; ret_writeByte v o)
  | O =>
      b <- readBit ;;
      o <- (if negb (b =? 0)
            then (v <- readBits 4 ;; ret_writeByte (Js.andand (Js.shl v 4) 0xF0) o)
            else (v <- readByte ;; ret_writeByte v o)) ;;
      repeat_on (Z.to_nat (size - 1)) o (ret_writeByte 0)
  end.

(** [readCompressed(size)] *)
Definition readCompressed (size : Z) : M BitStream :=
  readCompressed_loop size (Z.to_nat (size - 1)) (new_BitStream None).

(** The local table [mask] of [writeCompressed]. *)
Definition byte_mask : list Z :=
  [0xFF; 0xFF00; 0xFF0000; 0xFF000000; 0xFF00000000; 0xFF0000000000;
   0xFF000000000000; 0xFF00000000000000].

(** [while (currentByte > 0)] of [writeCompressed], with what follows it. *)
Fixpoint writeCompressed_loop (d : Z) (currentByte : nat) : M unit :=
  match currentByte with
  | S c =>
      let zero := Js.and d (Js.index byte_mask (Z.of_nat currentByte)) =? 0 in
      writeBit (Js.Boolean zero) ;;
      if negb zero then
        for_upto 0 (Z.to_nat (Z.of_nat currentByte + 1))
          (fun i => writeByte (Js.shr (Js.and d (Js.index byte_mask i)) (i * 8)))
      else writeCompressed_loop d c
  | O =>
      let zero := Js.and d 0xF0 =? 0 in
      writeBit (Js.Boolean zero) ;;
      if zero then writeBits (Js.and d (Js.shr 0xF0 4)) 4
      else writeByte (Js.and d 0xFF)
  end.

(** [writeCompressed(data, size)] *)
Definition writeCompressed (d size : Z) : M unit :=
  writeCompressed_loop d (Z.to_nat (size - 1)).

(** *** Strings *)

(** The code units of a string, i.e. [string.charCodeAt(i)] for every
    [i]; characters are 8-bit. *)
Fixpoint charCodes (s : string) : list Z :=
  match s with
  | EmptyString => []
  | String c rest => Z.of_N (N_of_ascii c) :: charCodes rest
  end.

(** [string.charCodeAt(i)] *)
Definition charCodeAt (s : string) (i : Z) : Z := nth (Z.to_nat i) (charCodes s) 0.

(** [while (string.length < size) string += '\0'] *)
Fixpoint pad_loop (rounds : nat) (s : string) : string :=
  match rounds with
  | O => s
  | S r => pad_loop r (s ++ String zero EmptyString)
  end.

Definition pad (s : string) (size : Z) : string :=
  pad_loop (Z.to_nat (size - Z.of_nat (String.length s))) s.

(** [writeString(string, size)]; [size] is [None] when omitted. *)
Definition writeString (str : string) (size : option Z) : M unit :=
  let size := match size with None => 33 | Some n => n end in
  let str := pad str size in
  for_upto 0 (String.length str) (fun i => writeByte (charCodeAt str i)).

(** *** The remaining methods *)

(** [readByteOffset(o)] *)
Definition readByteOffset (o : Z) : M Z :=
  buf <- get data ;;
  lift (Buffer.readUInt8 buf o).

(** [writeByteOffset(n, o)] *)
Definition writeByteOffset (n o : Z) : M unit :=
  old <- get data ;;
  len <- get length_ ;;
  (if len <? o + 1 then
     grown <- lift (Buffer.alloc (o + 1)) ;;
     set_data grown ;;
     wbyte <- get writeBytePosition ;;
     set_byteCount (wbyte + 1) ;;
     for_upto 0 (Z.to_nat wbyte)
       (fun i =>
          v <- lift (Buffer.readUInt8 old i) ;;
          buf <- get data ;;
          buf' <- lift (Buffer.writeUInt8 buf v i) ;;
          set_data buf') ;;
     set_byteCount (o + 1)
   else ret tt) ;;
  buf <- get data ;;
  buf' <- lift (Buffer.writeUInt8 buf n o) ;;
  set_data buf'.

(** [readBitsStream(ret, n, b)], for an integer [n] and a stream [ret]
    (here [target]) that is not [this].  Every round of [while (n > 0)]
    lowers [n] by 8 or sets it to 0, so [n] rounds of fuel are never used
    up.  The loop yields [target] as the calls leave it. *)
Fixpoint readBitsStream_loop (fuel : nat) (n c : Z) (b : bool) (target : BitStream)
  : M BitStream :=
  match fuel with
  | O => ret target
  | S fuel' =>
      if 0 <? n then
        if 8 <=? n then
          v <- readByte ;;
          r <- on target (writeByteOffset v c) ;;
          readBitsStream_loop fuel' (n - 8) (c + 1) b (snd r)
        else
          let neg := n - 8 in
          target <- (if neg <? 0 then
                       if b then
                         x <- on target (readByteOffset c) ;;
                         r <- on (snd x) (writeByteOffset (Js.shr (fst x) (- neg)) c) ;;
                         rbyte <- get readBytePosition ;;
                         set_readBytePosition (rbyte + (8 + neg)) ;;
                         ret (snd r)
                       else
                         rbyte <- get readBytePosition ;;
                         set_readBytePosition (rbyte + 8) ;;
                         ret target
                     else ret target) ;;
          readBitsStream_loop fuel' 0 c b target
      else ret target
  end.

(** [None] is [undefined]. *)
Definition readBitsStream (target : BitStream) (n : Z) (b : bool)
  : M (option BitStream) :=
  if n <=? 0 then ret None
  else
    rbyte <- get readBytePosition ;;
    count <- get byteCount ;;
    if count <? rbyte + n / 8 then ret None
    else
      r <- readBitsStream_loop (Z.to_nat n) n 0 b target ;;
      ret (Some r).

(** [readChar()] and [writeChar(n)] *)
Definition readChar : M Z := readBits 8.
Definition writeChar (n : Z) : M unit := writeByte n.

(** [writeBoolean(n)]: [n === true] holds of the boolean [true] only. *)
Definition writeBoolean (n : Js.value) : M unit :=
  match n with
  | Js.Boolean true => writeByte 1
  | _ => writeByte 0
  end.

(** [readBoolean()]: [Boolean(x)] of a number is [x !== 0]. *)
Definition readBoolean : M bool :=
  b <- readByte ;;
  ret (negb (b =? 0)).

(** [writeSignedShort(n)] *)
Definition writeSignedShort (n : Z) : M unit :=
  writeByte (Js.and n 0xff) ;;
  writeSignedByte (Js.ushr (Js.and n 0xff00) 8).

(** [readSignedShort()] (a result [-0] is 0 here). *)
Definition readSignedShort : M Z :=
  firstByte <- readByte ;;
  b <- readBit ;;
  if negb (b =? 0) then
    (v <- readBits 7 ;; ret (- (Js.and firstByte (Js.shl v 7))))
  else
    (v <- readBits 7 ;; ret (Js.and firstByte (Js.shl v 7))).

(** [writeCompressedShort(n)] and [writeCompressedLong(n)] *)
Definition writeCompressedShort (n : Z) : M unit := writeCompressed n 2.
Definition writeCompressedLong (n : Z) : M unit := writeCompressed n 4.

(** [writeSignedLong(n)] *)
Definition writeSignedLong (n : Z) : M unit :=
  writeShort (Js.and n 0xffff) ;;
  writeSignedShort (Js.ushr (Js.and n 0xffff0000) 16).

(** [writeLongLong(top, bottom)] *)
Definition writeLongLong (top bottom : Z) : M unit :=
  writeLong bottom ;;
  writeLong top.

(** [readLongLong()].  Its sum can exceed 2^53, so here the rounding of
    [+] on doubles is written out: [round53 x] is the double nearest to the
    non-negative integer [x], ties to even.  Every summand (an octet times
    a power of two) is a double, so each [+] yields [round53] of the exact
    sum. *)
Definition round53 (x : Z) : Z :=
  if x <? 2 ^ 53 then x
  else
    let unit := 2 ^ (Z.log2 x - 52) in
    let q := x / unit in
    let r := x mod unit in
    if 2 * r <? unit then q * unit
    else if unit <? 2 * r then (q + 1) * unit
    else if Z.even q then q * unit
    else (q + 1) * unit.

Definition add53 (a b : Z) : Z := round53 (a + b).

Definition readLongLong : M Z :=
  b0 <- readByte ;;
  b1 <- readByte ;;
  b2 <- readByte ;;
  b3 <- readByte ;;
  b4 <- readByte ;;
  b5 <- readByte ;;
  b6 <- readByte ;;
  b7 <- readByte ;;
  ret (add53 (add53 (add53 (add53 (add53 (add53 (add53
         b0 (Js.shl b1 8)) (Js.shl b2 16)) (b3 * 16777216)) (b4 * 4294967296))
         (b5 * 1099511627776)) (b6 * 281474976710656)) (b7 * 72057594037927936)).

(** [readFloat()].  With the octets of a Buffer the mantissa is below 2^23
    and the exponent between -127 and 128, so every operation of the
    return expression is exact on doubles: the result is the rational
    computed here. *)
Definition readFloat : M Q :=
  mantissa <- readShort ;;
  exponent <- readBit ;;
  v <- readBits 7 ;;
  let mantissa := mantissa + Js.shl v 16 in
  sign <- readBit ;;
  let sign := if negb (sign =? 0) then -1 else 1 in
  v <- readBits 7 ;;
  let exponent := exponent + Js.shl v 1 in
  let exponent := exponent - 127 in
  ret (pow2 exponent * (inject_Z mantissa * (1 # 8388608) + 1) * inject_Z sign)%Q.

(** [writeBitStream(bs)], for a [bs] that is not [this].  The bound
    [bs.bits()] is evaluated anew in every round and reading [bs] can move
    it, so the loop carries fuel: [None] when it runs out.  Otherwise the
    result is [bs] as the call leaves it. *)
Fixpoint writeBitStream_loop (fuel : nat) (i : Z) (bs : BitStream)
  : M (option BitStream) :=
  match fuel with
  | O => ret None
  | S fuel' =>
      if i <? bits bs then
        r <- on bs readBit ;;
        writeBit (Js.Boolean (fst r =? 1)) ;;
        writeBitStream_loop fuel' (i + 1) (snd r)
      else ret (Some bs)
  end.

Definition writeBitStream (fuel : nat) (bs : BitStream) : M (option BitStream) :=
  writeBitStream_loop fuel 0 bs.

(** A string a reader returns, as its sequence of UTF-16 code units, and
    [String.fromCharCode(n)] as the code unit it yields. *)
Definition fromCharCode (n : Z) : Z := n mod 65536.

(** [readString(size)] *)
Fixpoint readString_loop (rounds : nat) (text : list Z) : M (list Z) :=
  match rounds with
  | O => ret text
  | S r =>
      b <- readByte ;;
      readString_loop r (text ++ [fromCharCode b])
  end.

Definition readString (size : option Z) : M (list Z) :=
  let size := match size with None => 33 | Some n => n end in
  readString_loop (Z.to_nat size) [].

(** [readWString(size)] *)
Fixpoint readWString_loop (rounds : nat) (write : bool) (text : list Z) (temp : Z)
  : M (list Z) :=
  match rounds with
  | O => ret text
  | S r =>
      if write then
        let text := text ++ [fromCharCode temp] in
        temp <- readShort ;;
        readWString_loop r (negb (temp =? 0)) text temp
      else
        temp <- readShort ;;
        readWString_loop r write text temp
  end.

Definition readWString (size : option Z) : M (list Z) :=
  let size := match size with None => 33 | Some n => n end in
  temp <- readShort ;;
  readWString_loop (Z.to_nat (size - 1)) (negb (temp =? 0)) [] temp.

(** [writeWString(string, size)] *)
Definition writeWString (str : string) (size : option Z) : M unit :=
  let size := match size with None => 33 | Some n => n end in
  let str := pad str size in
  for_upto 0 (Z.to_nat size)
    (fun i => writeByte (charCodeAt str i) ;; writeByte 0).

(** The module function [ord(string)], on the code units of the string;
    [None] is [NaN], the result for the empty string. *)
Definition ord (str : list Z) : option Z :=
  match str with
  | [] => None
  | code :: rest =>
      if (0xD800 <=? code) && (code <=? 0xDBFF) then
        match rest with
        | [] => Some code
        | low :: _ => Some ((code - 0xD800) * 0x400 + (low - 0xDC00) + 0x10000)
        end
      else if (0xDC00 <=? code) && (code <=? 0xDFFF) then Some code
      else Some code
  end.

(** * Specification vocabulary

    Everything above is the program.  What follows are the notions the
    claims are stated with. *)

(** ** Streams *)

(** [new BitStream()] *)
Definition fresh : BitStream := new_BitStream None.

(** An element of a [Buffer]. *)
Definition octet (x : Z) : Prop := 0 <= x < 256.

(** The class invariant: what the constructor establishes and the calls
    that return normally keep.  [byteCount] is the buffer length, the
    buffer holds octets, both cursors are valid positions and, when the
    write cursor is inside an octet, that octet exists. *)
Record well_formed (s : BitStream) : Prop := {
  wf_count : byteCount s = Z.of_nat (length (data s));
  wf_octets : Forall octet (data s);
  wf_rbyte : 0 <= readBytePosition s;
  wf_rbit : 0 <= readBitPosition s <= 7;
  wf_wbyte : 0 <= writeBytePosition s;
  wf_wbit : 0 <= writeBitPosition s <= 7;
  wf_inside : writeBitPosition s = 7 \/ writeBytePosition s < byteCount s
}.

(** The number of bits the read cursor has consumed. *)
Definition consumed (s : BitStream) : Z :=
  readBytePosition s * 8 + (7 - readBitPosition s).

(** The buffer rebuilt by [writeBit] when the write cursor starts an octet:
    the first [wbyte] octets of the old buffer, zero-filled up to [wbyte],
    then the new octet. *)
Definition regrown (old : list Z) (wbyte : Z) (last : Z) : list Z :=
  take (Z.to_nat wbyte) old ++
  replicate (Z.to_nat wbyte - length old) 0 ++ [last].

(** ** The bit sequence held by a stream *)

(** Bit [i] of a buffer, counting from the most significant bit of the
    first octet. *)
Definition bitAt (d : list Z) (i : Z) : bool :=
  Z.testbit (nth (Z.to_nat (i / 8)) d 0) (7 - i mod 8).

(** [written bs s]: the stream [s] holds exactly the bits [bs], packed
    most significant bit first and zero-padded to a whole octet, and its
    write cursor stands right after them. *)
Record written (bs : list bool) (s : BitStream) : Prop := {
  w_length : Z.of_nat (length (data s)) = (Z.of_nat (length bs) + 7) / 8;
  w_count : byteCount s = Z.of_nat (length (data s));
  w_byte : writeBytePosition s = Z.of_nat (length bs) / 8;
  w_bit : writeBitPosition s = 7 - Z.of_nat (length bs) mod 8;
  w_range : forall j, 0 <= nth j (data s) 0 < 256;
  w_bits : forall i, 0 <= i -> bitAt (data s) i = nth (Z.to_nat i) bs false
}.

(** The read cursor stands before bit [i]. *)
Definition read_at (i : Z) (s : BitStream) : Prop :=
  readBytePosition s = i / 8 /\ readBitPosition s = 7 - i mod 8.

(** The fields only the reader touches are the same in [s] and [s']. *)
Definition same_reader (s s' : BitStream) : Prop :=
  readBytePosition s' = readBytePosition s /\
  readBitPosition s' = readBitPosition s /\
  byte s' = byte s.

(** [count] bits of [x], from bit [hi] downwards. *)
Fixpoint bits_down (x hi : Z) (count : nat) : list bool :=
  match count with
  | O => []
  | S c => Z.testbit x hi :: bits_down x (hi - 1) c
  end.

(** The buffer [d] zero-extended to at least [m] octets. *)
Definition extended (d : list Z) (m : Z) : list Z :=
  d ++ replicate (Z.to_nat m - length d) 0.

(** A stream that satisfies the reader's part of the class invariant, with
    its read cursor before bit [i], not beyond the end of the buffer. *)
Record readable (i : Z) (s : BitStream) : Prop := {
  rd_count : byteCount s = Z.of_nat (length (data s));
  rd_octets : Forall octet (data s);
  rd_at : read_at i s;
  rd_pos : 0 <= i;
  rd_end : i <= 8 * byteCount s
}.

(** ** Sequences of calls *)

(** [writeBit(b1); ...; writeBit(bn)] *)
Fixpoint writeBit_all (bs : list bool) : M unit :=
  match bs with
  | [] => ret tt
  | b :: rest => writeBit (Js.Boolean b) ;; writeBit_all rest
  end.

(** [n] calls of [readBit()], collecting what they return. *)
Fixpoint readBit_times (n : nat) : M (list Z) :=
  match n with
  | O => ret []
  | S n' => b <- readBit ;; rest <- readBit_times n' ;; ret (b :: rest)
  end.

(** The value held by a little-endian octet sequence. *)
Definition little_endian (l : list Z) : Z :=
  fold_right (fun b acc => b + 256 * acc) 0 l.

(** [writeCompressed(value, size)] on a fresh stream, then
    [readCompressed(size)] on it: the buffer of the returned stream. *)
Definition compressed_roundtrip (value size : Z) : completion (list Z) :=
  match (writeCompressed value size ;; readCompressed size) (new_BitStream None) with
  | (Normal r, _) => Normal (data r)
  | (Throw e, _) => Throw e
  end.

(** [writeSignedByte(n)] on a fresh stream, then [readSignedChar()] on it:
    what the read returns, the buffer and [bits()] afterwards. *)
Definition signed_roundtrip (n : Z) : completion Z * list Z * Z :=
  let r := (writeSignedByte n ;; readSignedChar) (new_BitStream None) in
  (fst r, data (snd r), bits (snd r)).

(** ** The traces of the loops *)

(** The bits [writeByte]'s loop hands to [writeBit] in [r] rounds. *)
Fixpoint loop_bits (r : nat) (n : Z) : list bool :=
  match r with
  | O => []
  | S r' => (Js.ushr (Js.and n 0x80) 7 =? 1) :: loop_bits r' (Js.and (Js.shl n 1) 0xFF)
  end.

(** The bits [writeBits(n, b)] hands to [writeBit]. *)
Fixpoint writeBits_bits (n : Z) (b : nat) : list bool :=
  match b with
  | O => []
  | S b' => (Js.and (Js.shr n (Z.of_nat b - 1)) 0x01 =? 1) :: writeBits_bits n b'
  end.

(** The octet assembled by the last [r] rounds of [writeByte]'s loop,
    starting from the partial octet [acc]. *)
Fixpoint pack_acc (r : nat) (n acc : Z) : Z :=
  match r with
  | O => acc
  | S r' =>
      pack_acc r' (Js.and (Js.shl n 1) 0xFF)
        (Z.lor acc (Z.shiftl (Z.b2z (Js.ushr (Js.and n 0x80) 7 =? 1)) (Z.of_nat r')))
  end.

(** The value accumulated by the last [r] rounds of [readBits]'s loop over
    the octet [x]. *)
Fixpoint read_acc (r : nat) (x val : Z) : Z :=
  match r with
  | O => val
  | S r' => read_acc r' x (Js.or (Js.shl val 1) (Z.b2z (Z.testbit x (Z.of_nat r'))))
  end.

(** ** The float layout *)

(** The 32 bits of the custom float, in emission order. *)
Definition float_layout (sign : bool) (exponent mantissa : Z) : list bool :=
  bits_down mantissa 7 8 ++          (* mantissa bits 7..0: low octet *)
  bits_down mantissa 15 8 ++         (* mantissa bits 15..8: next octet *)
  [Z.testbit exponent 0] ++          (* exponent bit 0 *)
  bits_down mantissa 22 7 ++         (* mantissa bits 22..16 *)
  [sign] ++                          (* sign bit *)
  bits_down exponent 7 7.            (* exponent bits 7..1 *)

(** The double nearest to the literal [3.14]. *)
Definition js_3_14 : Q := 7070651414971679 # 2251799813685248.

(** The double just below 8, [8 - 2^-50]. *)
Definition js_below_8 : Q := 9007199254740991 # 1125899906842624.

(** ** The platform's logarithm *)

(** What the properties of [writeFloat] ask of the platform at the
    argument [x]: a [Math.log2(x)] within 2^-40 of the true logarithm,
    about four units in the last place of the largest logarithms of
    doubles.  Its floor [lg x] is then the floor of the true logarithm, or
    the integer next to it where [x] is within the relative distance 2^-40
    of a power of two. *)
Definition log2_accurate (lg : Q -> Z) (x : Q) : Prop :=
  (pow2 (lg x) * (1 - (1 # 1099511627776)) <= x)%Q /\
  (x < pow2 (lg x + 1) * (1 + (1 # 1099511627776)))%Q.

(** The floor of the true binary logarithm of [q > 0], one function that
    is [log2_accurate] everywhere. *)
Definition exact_log2_floor (q : Q) : Z :=
  let e := Z.log2 (Qnum q) - Z.log2 (Zpos (Qden q)) in
  if Qle_bool (pow2 e) q then e else e - 1.

(** ** The spec's readings that the code does not meet *)

(** What the spec says of [readBit] past the written region: it returns 0,
    appends one zero octet and leaves the write cursor where it was. *)
Definition readBit_restores_write_cursor (s : BitStream) : Prop :=
  byteCount s <= readBytePosition s ->
  exists s', readBit s = (Normal 0, s') /\
             data s' = data s ++ [0] /\
             writeBytePosition s' = writeBytePosition s /\
             writeBitPosition s' = writeBitPosition s.

(** What the spec says of [readBytes(n)]: the returned stream always holds
    [n] octets. *)
Definition readBytes_returns_n_octets (n : nat) (s : BitStream) : Prop :=
  exists val s', readBytes n s = (Normal val, s') /\ length (data val) = n.

(** ** Finite checks *)

(** One round of [writeBit]'s update of an octet agrees with [Z.lor] and
    stays an octet. *)
Definition or_bit_check (x k : Z) (b : bool) : bool :=
  (Js.or x (Js.shl (Z.b2z b) k) =? Z.lor x (Z.shiftl (Z.b2z b) k)) &&
  (0 <=? Js.or x (Js.shl (Z.b2z b) k)) && (Js.or x (Js.shl (Z.b2z b) k) <? 256).

(** For a value below 256, the compressed round-trip in [size] octets
    reproduces it exactly when it is 0 or at least 16. *)
Definition compressed_low_check (size v : Z) : bool :=
  Bool.eqb
    (match compressed_roundtrip v size with
     | Normal r => little_endian r =? v
     | Throw _ => false
     end)
    ((v =? 0) || (16 <=? v)).

(** [writeSignedByte(n)] then [readSignedChar()] yields [n] halved towards
    zero, from the one octet sign, 0, bits 6..1 of [|n|]. *)
Definition signed_check (n : Z) : bool :=
  match signed_roundtrip n with
  | (Normal v, [b], count) =>
      (v =? Z.quot n 2) && (b =? (if n <? 0 then 128 else 0) + Z.abs n / 2) &&
      (count =? 8)
  | _ => false
  end.

(** ** Vocabulary of the further properties *)

(** The number [readBits] accumulates from the bits [bs], starting from
    [val]: [val = (val << 1) | bit] for each of them. *)
Definition bits_value (bs : list bool) (val : Z) : Z :=
  fold_left (fun v b => Js.or (Js.shl v 1) (Z.b2z b)) bs val.

(** A mask of [w] ones starting at bit [k], as seen by the bit operators. *)
Definition is_mask (c k w : Z) : bool :=
  forallb (fun j => Bool.eqb (Z.testbit c j) ((k <=? j) && (j <? k + w))) (seqZ 0 32).

(** Everything written has been read: the stream holds [bs] and both
    cursors stand right after them. *)
Definition caught_up (bs : list bool) (s : BitStream) : Prop :=
  written bs s /\ read_at (Z.of_nat (length bs)) s.

(** [firstByte & (v << 7)] for an octet [fb] and a 7-bit [v], checked value
    by value. *)
Definition signed_and_check (fb v : Z) : bool :=
  Js.and fb (Js.shl v 7) =? (if Z.testbit fb 7 && Z.testbit v 0 then 128 else 0).

(** What [readSignedShort] makes of two octets. *)
Definition signedShort_value (a b : Z) : Z :=
  let m := if Z.testbit a 7 && Z.testbit b 0 then 128 else 0 in
  if Z.testbit b 7 then - m else m.

(** The number of bits from position [n] to the next octet boundary. *)
Definition to_boundary (n : Z) : Z := (8 - n mod 8) mod 8.

(** The eight bits [writeByte(c)] appends. *)
Definition octet_bits (c : Z) : list bool := bits_down c 7 8.

(** The bits one character of a wide string takes: its low octet, then a
    zero octet. *)
Definition wide_bits (c : Z) : list bool := octet_bits c ++ octet_bits 0.

(** The code units of [str] padded to [width]. *)
Definition padded_codes (str : string) (width : Z) : list Z :=
  charCodes str ++ replicate (Z.to_nat (width - Z.of_nat (String.length str))) 0.

(** The code units before the first 0. *)
Fixpoint until_zero (l : list Z) : list Z :=
  match l with
  | [] => []
  | c :: rest => if c =? 0 then [] else c :: until_zero rest
  end.

(** The body of the copy loop of [writeByteOffset]. *)
Definition copy_body (old : list Z) (i : Z) : M unit :=
  v <- lift (Buffer.readUInt8 old i) ;;
  buf <- get data ;;
  buf' <- lift (Buffer.writeUInt8 buf v i) ;;
  set_data buf'.

(** Octet [i] of [v], counting from the least significant. *)
Definition octet_at (v i : Z) : Z := (v / 2 ^ (8 * i)) mod 256.

(** A stream holding whole octets, with both cursors where the
    constructor and [writeByte] leave them. *)
Definition octets_stream (l : list Z) : BitStream :=
  mkBitStream l (Z.of_nat (length l)) 0 7 (Z.of_nat (length l)) 7 None.

(** The values below 256, checked one by one: 0 and the values from 16 on
    come back, a non-zero nibble comes back as 240. *)
Definition compressed_low_value (size v : Z) : bool :=
  match (writeCompressed v size ;; readCompressed size) (new_BitStream None) with
  | (Normal r, _) =>
      (Z.of_nat (length (data r)) =? size) &&
      (little_endian (data r) =? (if v =? 0 then 0 else if v <? 16 then 240 else v))
  | (Throw _, _) => false
  end.

(** What the round trip yields for [v] in [size] octets. *)
Definition compressed_decoded (size v : Z) : Z :=
  if v =? 0 then 0
  else if v <? 16 then 240
  else if v <? 256 then v
  else v * 256 ^ (size - 1 - Z.log2 v / 8).

(** The number whose bit [j] is the [j]-th element of the list. *)
Definition rev_value (ws : list bool) : Z :=
  fold_right (fun b acc => Z.b2z b + 2 * acc) 0 ws.

(** ** Tactics *)

(** Unfold the monad operations applied to a state. *)
Ltac run_monad :=
  unfold bind, get, lift, ret, throw, set_data, set_byteCount,
    set_readBytePosition, set_readBitPosition, set_writeBytePosition,
    set_writeBitPosition, set_byte; cbn [data byteCount readBytePosition
    readBitPosition writeBytePosition writeBitPosition byte fst snd].

(** Linear arithmetic with division and remainder by constants. *)
Ltac dlia := Z.div_mod_to_equations; lia.

(** * Proofs *)

(** ** The repository's tests, on the model

    [src/test/BitStreamTest.js], evaluated. *)

Example test_length :
  length_ (new_BitStream None) = 0 /\
  length_ (new_BitStream (Some (replicate 10 0))) = 10.
Proof. split; reflexivity. Qed.

Example test_writeBit_only_accepts_booleans :
  fst (writeBit (Js.Number 1) (new_BitStream None)) =
    Throw (Error "BitStream writeBit was not passed a boolean") /\
  fst (writeBit (Js.Boolean true) (new_BitStream None)) = Normal tt.
Proof. split; vm_compute; reflexivity. Qed.

Example test_writeBit_ones :
  map (fun n => data (snd (writeBit_all (replicate n true) (new_BitStream (Some [0])))))
      [1; 2; 3; 4; 5; 6; 7; 8; 9]%nat =
  [[0x80]; [0xC0]; [0xE0]; [0xF0]; [0xF8]; [0xFC]; [0xFE]; [0xFF]; [0xFF; 0x80]].
Proof. vm_compute. reflexivity. Qed.

Example test_writeBits :
  data (snd (writeBits 0x0E 4 (new_BitStream (Some [0])))) = [0xE0] /\
  data (snd ((writeBits 0x0E 4 ;; writeBits 0x09 4) (new_BitStream (Some [0])))) = [0xE9].
Proof. split; vm_compute; reflexivity. Qed.

Example test_writeByte :
  data (snd (writeByte 0xAA (new_BitStream (Some [0])))) = [0xAA].
Proof. vm_compute. reflexivity. Qed.

Example test_writeShort :
  data (snd (writeShort 0xAAAA (new_BitStream (Some [0; 0])))) = [0xAA; 0xAA].
Proof. vm_compute. reflexivity. Qed.

Example test_writeLong :
  data (snd (writeLong 0xAAAAAAAA (new_BitStream (Some [0; 0; 0; 0])))) =
  [0xAA; 0xAA; 0xAA; 0xAA].
Proof. vm_compute. reflexivity. Qed.

(** [Math.log2(3.14)] is about 1.65, with the floor 1. *)
Example test_writeFloat (log2_floor : Q -> Z) :
  log2_floor (Qabs js_3_14) = 1 ->
  data (snd (writeFloat log2_floor js_3_14 (new_BitStream (Some [0; 0; 0; 0])))) =
  [0xC3; 0xF5; 0x48; 0x40].
Proof.
  intros H. unfold writeFloat, float_exponent, float_mantissa. rewrite H.
  vm_compute. reflexivity.
Qed.

Example test_bits :
  bits (snd (writeLong 8 (new_BitStream None))) = 32 /\
  bits (snd ((writeLong 8 ;; writeBit (Js.Boolean false)) (new_BitStream None))) = 33.
Proof. split; vm_compute; reflexivity. Qed.

Example test_allRead :
  allRead (snd ((writeLong 0 ;; readLong) (new_BitStream None))) = true /\
  allRead (snd (writeLong 0 (new_BitStream None))) = false.
Proof. split; vm_compute; reflexivity. Qed.

Example test_readBit :
  fst ((writeBit (Js.Boolean false) ;; readBit) (new_BitStream None)) = Normal 0 /\
  fst ((writeBit (Js.Boolean false) ;; readBit ;;
        writeBit (Js.Boolean true) ;; readBit) (new_BitStream None)) = Normal 1.
Proof. split; vm_compute; reflexivity. Qed.

Example test_readBits :
  fst ((writeShort 0xAAAA ;; readBits 16) (new_BitStream None)) = Normal 0xAAAA.
Proof. vm_compute. reflexivity. Qed.

Example test_readBitsReversed :
  fst ((writeShort 0xAAAA ;; readBitsReversed 16) (new_BitStream None)) = Normal 0x5555.
Proof. vm_compute. reflexivity. Qed.

Example test_concat :
  fst ((writeByte 0x55 ;;
        concat (snd (writeByte 0xFF (new_BitStream None))) ;;
        readShort) (new_BitStream None)) = Normal 0xFF55.
Proof. vm_compute. reflexivity. Qed.

(** ** Finite checks on the octet operations *)

Lemma forallb_seqZ (P : Z -> bool) (lo n : Z) :
  forallb P (seqZ lo n) = true -> forall x, lo <= x < lo + n -> P x = true.
Proof.
  intros H x Hx. rewrite forallb_forall in H. apply H.
  apply list_elem_of_In, elem_of_seqZ. lia.
Qed.

Lemma or_bit_check_all :
  forallb (fun x => forallb (fun k => or_bit_check x k true && or_bit_check x k false)
                      (seqZ 0 8)) (seqZ 0 256) = true.
Proof. vm_compute. reflexivity. Qed.

Lemma or_bit_spec x k (b : bool) :
  0 <= x < 256 -> 0 <= k < 8 ->
  Js.or x (Js.shl (Z.b2z b) k) = Z.lor x (Z.shiftl (Z.b2z b) k) /\
  0 <= Js.or x (Js.shl (Z.b2z b) k) < 256.
Proof.
  intros Hx Hk.
  assert (H : or_bit_check x k b = true).
  { pose proof (forallb_seqZ _ 0 256 or_bit_check_all x ltac:(lia)) as H1.
    cbv beta in H1.
    pose proof (forallb_seqZ _ 0 8 H1 k ltac:(lia)) as H2. cbv beta in H2.
    apply andb_true_iff in H2. destruct b; tauto. }
  unfold or_bit_check in H. lia.
Qed.

Lemma read_bit_spec x k :
  0 <= x < 256 -> 0 <= k < 8 ->
  Js.shr (Js.and x (Js.index mask k)) k = Z.b2z (Z.testbit x k).
Proof.
  intros Hx Hk.
  pose (P := fun x => forallb (fun k =>
     Js.shr (Js.and x (Js.index mask k)) k =? Z.b2z (Z.testbit x k)) (seqZ 0 8)).
  assert (HP : forallb P (seqZ 0 256) = true) by (vm_compute; reflexivity).
  pose proof (forallb_seqZ P 0 256 HP x ltac:(lia)) as H1. unfold P in H1.
  pose proof (forallb_seqZ _ 0 8 H1 k ltac:(lia)) as H2. cbv beta in H2. lia.
Qed.

Lemma lor_bit_testbit x k j (b : bool) :
  0 <= x < 256 -> 0 <= k < 8 -> 0 <= j < 8 ->
  Z.testbit (Z.lor x (Z.shiftl (Z.b2z b) k)) j = Z.testbit x j || (b && (j =? k)).
Proof.
  intros Hx Hk Hj.
  rewrite Z.lor_spec, Z.shiftl_spec by lia. f_equal.
  destruct (Z.eqb_spec j k) as [->|Hne].
  - rewrite Z.sub_diag, Z.b2z_bit0. now rewrite andb_true_r.
  - rewrite andb_false_r. destruct (Z.ltb_spec j k).
    + apply Z.testbit_neg_r. lia.
    + destruct b; simpl.
      * replace (j - k) with (Z.succ (j - k - 1)) by lia.
        change 1 with (2 * 0 + 1). rewrite Z.testbit_odd_succ by lia.
        apply Z.testbit_0_l.
      * apply Z.testbit_0_l.
Qed.

(** ** One step of the write cursor *)

Lemma nth_lookup_Z (l : list Z) (i : nat) : nth i l 0 = default 0 (l !! i).
Proof. apply nth_lookup. Qed.

Lemma regrown_length old wbyte last :
  0 <= wbyte -> Z.of_nat (length (regrown old wbyte last)) = wbyte + 1.
Proof.
  intros H. unfold regrown.
  rewrite !length_app, length_take, length_replicate. simpl. lia.
Qed.

Lemma copy_alloc old wbyte :
  0 <= wbyte ->
  Buffer.copy old (replicate (Z.to_nat (wbyte + 1)) 0) = regrown old wbyte
    (nth (Z.to_nat wbyte) old 0).
Proof.
  intros H. unfold Buffer.copy, regrown.
  rewrite length_replicate, drop_replicate.
  replace (Z.to_nat (wbyte + 1)) with (S (Z.to_nat wbyte)) by lia.
  destruct (decide (Z.to_nat wbyte < length old)%nat) as [Hlt|Hge].
  - destruct (lookup_lt_is_Some_2 old (Z.to_nat wbyte) Hlt) as [x Hx].
    rewrite (take_S_r _ _ _ Hx), nth_lookup_Z, Hx. simpl.
    replace (S (Z.to_nat wbyte) - length old)%nat with 0%nat by lia.
    replace (Z.to_nat wbyte - length old)%nat with 0%nat by lia.
    simpl. now rewrite app_nil_r.
  - rewrite !take_ge by lia.
    rewrite nth_lookup_Z, lookup_ge_None_2 by lia. simpl.
    replace (S (Z.to_nat wbyte) - length old)%nat
      with (S (Z.to_nat wbyte - length old))%nat by lia.
    now rewrite replicate_S_end.
Qed.

Lemma regrown_insert old wbyte last v :
  0 <= wbyte ->
  <[Z.to_nat wbyte := v]> (regrown old wbyte last) = regrown old wbyte v.
Proof.
  intros H. unfold regrown. rewrite app_assoc.
  rewrite insert_app_r_alt
    by (rewrite length_app, length_take, length_replicate; lia).
  rewrite length_app, length_take, length_replicate.
  replace (Z.to_nat wbyte - (_ + _))%nat with 0%nat by lia. simpl.
  now rewrite <- app_assoc.
Qed.

Lemma regrown_last old wbyte last :
  0 <= wbyte -> nth (Z.to_nat wbyte) (regrown old wbyte last) 0 = last.
Proof.
  intros H. unfold regrown. rewrite app_assoc, nth_lookup_Z.
  rewrite lookup_app_r
    by (rewrite length_app, length_take, length_replicate; lia).
  rewrite length_app, length_take, length_replicate.
  replace (Z.to_nat wbyte - (_ + _))%nat with 0%nat by lia. reflexivity.
Qed.

Lemma writeBit_at7 s (b : bool) :
  writeBitPosition s = 7 -> 0 <= writeBytePosition s ->
  writeBit (Js.Boolean b) s =
  (Normal tt,
   mkBitStream (regrown (data s) (writeBytePosition s) (Z.b2z b * 128))
     (writeBytePosition s + 1) (readBytePosition s) (readBitPosition s)
     (writeBytePosition s) 6 (byte s)).
Proof.
  intros H7 Hw. unfold writeBit. run_monad. rewrite H7. cbn [Z.eqb Pos.eqb].
  unfold Buffer.alloc. destruct (Z.ltb_spec (writeBytePosition s + 1) 0); [lia|].
  run_monad. rewrite copy_alloc by lia.
  unfold Buffer.writeUInt8 at 1. cbn [Z.ltb Z.compare orb].
  rewrite regrown_length by lia.
  destruct (Z.leb_spec 0 (writeBytePosition s)); [|lia].
  destruct (Z.ltb_spec (writeBytePosition s) (writeBytePosition s + 1)); [|lia].
  cbn [andb]. run_monad. rewrite regrown_insert by lia.
  unfold Buffer.readUInt8. rewrite regrown_length by lia.
  destruct (Z.leb_spec 0 (writeBytePosition s)); [|lia].
  destruct (Z.ltb_spec (writeBytePosition s) (writeBytePosition s + 1)); [|lia].
  cbn [andb]. rewrite regrown_last by lia.
  replace (Js.or 0 (Js.shl (Z.b2z b) 7)) with (Z.b2z b * 128) by (now destruct b).
  unfold Buffer.writeUInt8. rewrite regrown_length by lia.
  replace ((Z.b2z b * 128 <? 0) || (255 <? Z.b2z b * 128)) with false by (now destruct b).
  destruct (Z.leb_spec 0 (writeBytePosition s)); [|lia].
  destruct (Z.ltb_spec (writeBytePosition s) (writeBytePosition s + 1)); [|lia].
  cbn [andb]. run_monad. rewrite regrown_insert by lia. reflexivity.
Qed.

Lemma writeBit_below7 s (b : bool) :
  0 <= writeBitPosition s < 7 ->
  0 <= writeBytePosition s < Z.of_nat (length (data s)) ->
  0 <= nth (Z.to_nat (writeBytePosition s)) (data s) 0 < 256 ->
  writeBit (Js.Boolean b) s =
  (Normal tt,
   mkBitStream
     (<[Z.to_nat (writeBytePosition s) :=
          Z.lor (nth (Z.to_nat (writeBytePosition s)) (data s) 0)
                (Z.shiftl (Z.b2z b) (writeBitPosition s))]> (data s))
     (byteCount s) (readBytePosition s) (readBitPosition s)
     (if writeBitPosition s =? 0 then writeBytePosition s + 1 else writeBytePosition s)
     (if writeBitPosition s =? 0 then 7 else writeBitPosition s - 1) (byte s)).
Proof.
  intros Hb Hw Hx. unfold writeBit. run_monad.
  destruct (Z.eqb_spec (writeBitPosition s) 7); [lia|]. run_monad.
  unfold Buffer.readUInt8.
  destruct (Z.leb_spec 0 (writeBytePosition s)); [|lia].
  destruct (Z.ltb_spec (writeBytePosition s) (Z.of_nat (length (data s)))); [|lia].
  cbn [andb].
  destruct (or_bit_spec _ (writeBitPosition s) b Hx ltac:(lia)) as [-> Hr].
  unfold Buffer.writeUInt8.
  destruct (Z.ltb_spec (Z.lor (nth (Z.to_nat (writeBytePosition s)) (data s) 0)
              (Z.shiftl (Z.b2z b) (writeBitPosition s))) 0); [lia|].
  destruct (Z.ltb_spec 255 (Z.lor (nth (Z.to_nat (writeBytePosition s)) (data s) 0)
              (Z.shiftl (Z.b2z b) (writeBitPosition s)))); [lia|].
  cbn [orb].
  destruct (Z.leb_spec 0 (writeBytePosition s)); [|lia].
  destruct (Z.ltb_spec (writeBytePosition s) (Z.of_nat (length (data s)))); [|lia].
  cbn [andb]. run_monad.
  destruct (Z.eqb_spec (writeBitPosition s) 0) as [E|E].
  - destruct (Z.ltb_spec (writeBitPosition s - 1) 0); [|lia]. reflexivity.
  - destruct (Z.ltb_spec (writeBitPosition s - 1) 0); [lia|]. reflexivity.
Qed.

(** ** One step of the read cursor *)

Lemma readBit_in s :
  byteCount s = Z.of_nat (length (data s)) ->
  0 <= readBytePosition s < byteCount s ->
  0 <= readBitPosition s < 8 ->
  0 <= nth (Z.to_nat (readBytePosition s)) (data s) 0 < 256 ->
  readBit s =
  (Normal (Z.b2z (Z.testbit (nth (Z.to_nat (readBytePosition s)) (data s) 0)
                            (readBitPosition s))),
   mkBitStream (data s) (byteCount s)
     (if readBitPosition s =? 0 then readBytePosition s + 1 else readBytePosition s)
     (if readBitPosition s =? 0 then 7 else readBitPosition s - 1)
     (writeBytePosition s) (writeBitPosition s) (byte s)).
Proof.
  intros Hc Hr Hb Hx. unfold readBit. run_monad.
  destruct (Z.leb_spec (byteCount s) (readBytePosition s)); [lia|]. run_monad.
  unfold Buffer.readUInt8.
  destruct (Z.leb_spec 0 (readBytePosition s)); [|lia].
  destruct (Z.ltb_spec (readBytePosition s) (Z.of_nat (length (data s)))); [|lia].
  cbn [andb]. rewrite read_bit_spec by lia.
  destruct (Z.eqb_spec (readBitPosition s) 0) as [E|E].
  - destruct (Z.eqb_spec (readBitPosition s - 1) (-1)); [|lia]. reflexivity.
  - destruct (Z.eqb_spec (readBitPosition s - 1) (-1)); [lia|]. reflexivity.
Qed.

(** ** The bit sequence held by a stream *)

Lemma same_reader_refl s : same_reader s s.
Proof. now unfold same_reader. Qed.

Lemma same_reader_trans s1 s2 s3 :
  same_reader s1 s2 -> same_reader s2 s3 -> same_reader s1 s3.
Proof. unfold same_reader. intuition congruence. Qed.

Lemma nth_snoc (bs : list bool) (b : bool) (i : Z) :
  0 <= i ->
  nth (Z.to_nat i) (bs ++ [b]) false =
  if i =? Z.of_nat (length bs) then b else nth (Z.to_nat i) bs false.
Proof.
  intros Hi. destruct (Z.eqb_spec i (Z.of_nat (length bs))) as [->|Hne].
  - rewrite Nat2Z.id. apply nth_middle.
  - destruct (Z.lt_ge_cases i (Z.of_nat (length bs))).
    + apply app_nth1. lia.
    + rewrite !nth_overflow; [reflexivity | lia |].
      rewrite length_app. simpl. lia.
Qed.

Lemma written_fresh : written [] fresh.
Proof.
  split; try reflexivity.
  - intros j. simpl. destruct j; lia.
  - intros i Hi. unfold bitAt. simpl data.
    replace (nth (Z.to_nat (i / 8)) [] 0) with 0 by (now destruct (Z.to_nat (i / 8))).
    rewrite Z.testbit_0_l. now destruct (Z.to_nat i).
Qed.

Lemma writeBit_written bs s (b : bool) :
  written bs s ->
  exists s', writeBit (Js.Boolean b) s = (Normal tt, s') /\
             written (bs ++ [b]) s' /\ same_reader s s'.
Proof.
  intros [Hlen Hcount Hbyte Hbit Hrange Hbits].
  set (n := Z.of_nat (length bs)) in *.
  assert (Hn : 0 <= n) by (subst n; dlia).
  assert (Hn' : Z.of_nat (length (bs ++ [b])) = n + 1)
    by (rewrite length_app; simpl; dlia).
  destruct (Z.eq_dec (n mod 8) 0) as [Hz|Hnz].
  - (* the cursor starts a new octet *)
    assert (Hw : writeBytePosition s = Z.of_nat (length (data s)))
      by (rewrite Hbyte, Hlen; dlia).
    eexists. split; [apply writeBit_at7; dlia|].
    assert (Hd : regrown (data s) (writeBytePosition s) (Z.b2z b * 128)
                 = data s ++ [Z.b2z b * 128]).
    { unfold regrown. rewrite Hw, Nat2Z.id, take_ge by dlia.
      now rewrite Nat.sub_diag. }
    split; [|now unfold same_reader].
    split; cbn [data byteCount writeBytePosition writeBitPosition]; rewrite ?Hd, ?Hn'.
    + rewrite length_app. simpl. dlia.
    + rewrite length_app. simpl. dlia.
    + dlia.
    + dlia.
    + intros j. destruct (Nat.lt_ge_cases j (length (data s))).
      * rewrite app_nth1 by dlia. apply Hrange.
      * destruct (Nat.eq_dec j (length (data s))) as [->|].
        -- rewrite nth_middle. destruct b; simpl; dlia.
        -- rewrite nth_overflow; [dlia|]. rewrite length_app. simpl. dlia.
    + intros i Hi. rewrite nth_snoc by dlia. fold n.
      unfold bitAt.
      destruct (Z.lt_ge_cases (i / 8) (Z.of_nat (length (data s)))) as [Hq|Hq].
      * rewrite app_nth1 by dlia.
        destruct (Z.eqb_spec i n); [dlia|].
        apply Hbits; dlia.
      * destruct (Z.eq_dec (i / 8) (Z.of_nat (length (data s)))) as [He|He].
        -- rewrite He, Nat2Z.id, nth_middle.
           replace (Z.b2z b * 128) with (Z.lor 0 (Z.shiftl (Z.b2z b) 7))
             by (now destruct b).
           rewrite lor_bit_testbit by (dlia).
           rewrite Z.testbit_0_l. cbn [orb].
           destruct (Z.eqb_spec i n) as [->|Hne].
           ++ destruct (Z.eqb_spec (7 - n mod 8) 7); [|dlia]. now rewrite andb_true_r.
           ++ destruct (Z.eqb_spec (7 - i mod 8) 7) as [E|E].
              ** exfalso. dlia.
              ** rewrite andb_false_r. symmetry. apply nth_overflow.
                 dlia.
        -- rewrite (nth_overflow (data s ++ _)) by (rewrite length_app; simpl; dlia).
           rewrite Z.testbit_0_l.
           destruct (Z.eqb_spec i n); [dlia|].
           symmetry. apply nth_overflow. dlia.
  - (* the cursor is inside the last octet *)
    assert (Hw : writeBytePosition s = Z.of_nat (length (data s)) - 1)
      by (rewrite Hbyte, Hlen; dlia).
    assert (Hb7 : 0 <= writeBitPosition s < 7)
      by (rewrite Hbit; dlia).
    eexists. split; [apply writeBit_below7; try apply Hrange; dlia|].
    split; [|now unfold same_reader].
    split; cbn [data byteCount writeBytePosition writeBitPosition]; rewrite ?Hn'.
    + rewrite length_insert. dlia.
    + rewrite length_insert. dlia.
    + destruct (Z.eqb_spec (writeBitPosition s) 0); dlia.
    + destruct (Z.eqb_spec (writeBitPosition s) 0); dlia.
    + intros j. destruct (Nat.eq_dec j (Z.to_nat (writeBytePosition s))) as [->|Hj].
      * rewrite nth_lookup_Z, list_lookup_insert_eq by dlia. simpl.
        destruct (or_bit_spec _ (writeBitPosition s) b
                    (Hrange (Z.to_nat (writeBytePosition s))) ltac:(dlia)) as [<- Hr].
        exact Hr.
      * rewrite nth_lookup_Z, list_lookup_insert_ne by dlia.
        rewrite <- nth_lookup_Z. apply Hrange.
    + intros i Hi. rewrite nth_snoc by dlia. fold n. unfold bitAt.
      destruct (Z.eq_dec (i / 8) (writeBytePosition s)) as [He|He].
      * rewrite He, nth_lookup_Z, list_lookup_insert_eq by dlia. simpl.
        rewrite lor_bit_testbit
          by (try apply Hrange; dlia).
        rewrite <- He. fold (bitAt (data s) i). rewrite Hbits by dlia.
        destruct (Z.eqb_spec i n) as [->|Hne].
        -- rewrite nth_overflow by dlia. cbn [orb].
           destruct (Z.eqb_spec (7 - n mod 8) (writeBitPosition s)); [|dlia].
           now rewrite andb_true_r.
        -- destruct (Z.eqb_spec (7 - i mod 8) (writeBitPosition s)) as [E|E].
           ++ exfalso. dlia.
           ++ now rewrite andb_false_r, orb_false_r.
      * rewrite nth_lookup_Z, list_lookup_insert_ne by dlia.
        rewrite <- nth_lookup_Z. fold (bitAt (data s) i). rewrite Hbits by dlia.
        destruct (Z.eqb_spec i n); [dlia|]. reflexivity.
Qed.

Lemma readBit_written bs s i :
  written bs s -> read_at i s -> 0 <= i < Z.of_nat (length bs) ->
  exists s', readBit s = (Normal (Z.b2z (nth (Z.to_nat i) bs false)), s') /\
             written bs s' /\ read_at (i + 1) s'.
Proof.
  intros [Hlen Hcount Hbyte Hbit Hrange Hbits] [HrB Hrb] Hi.
  eexists. split.
  - rewrite readBit_in; try apply Hrange; try dlia.
    rewrite <- Hbits by lia. unfold bitAt. rewrite HrB, Hrb. reflexivity.
  - split.
    + split; cbn [data byteCount writeBytePosition writeBitPosition]; assumption.
    + unfold read_at. cbn [readBytePosition readBitPosition].
      rewrite ?HrB, ?Hrb.
      destruct (Z.eqb_spec (7 - i mod 8) 0); dlia.
Qed.

(** ** Sequences of primitive calls *)

Lemma writeBit_all_written bs2 : forall bs1 s,
  written bs1 s ->
  exists s', writeBit_all bs2 s = (Normal tt, s') /\
             written (bs1 ++ bs2) s' /\ same_reader s s'.
Proof.
  induction bs2 as [|b bs2 IH]; intros bs1 s Hw.
  - exists s. rewrite app_nil_r. split; [reflexivity|]. split; [assumption|].
    apply same_reader_refl.
  - destruct (writeBit_written bs1 s b Hw) as (s1 & E1 & Hw1 & Hr1).
    destruct (IH (bs1 ++ [b]) s1 Hw1) as (s2 & E2 & Hw2 & Hr2).
    exists s2. cbn [writeBit_all]. unfold bind. rewrite E1, E2.
    rewrite <- app_assoc in Hw2. split; [reflexivity|]. split; [exact Hw2|].
    eapply same_reader_trans; eassumption.
Qed.

Lemma readBit_times_written bs k : forall i s,
  written bs s -> read_at i s -> 0 <= i -> i + Z.of_nat k <= Z.of_nat (length bs) ->
  exists s', readBit_times k s =
               (Normal (map Z.b2z (take k (drop (Z.to_nat i) bs))), s') /\
             written bs s' /\ read_at (i + Z.of_nat k) s'.
Proof.
  induction k as [|k IH]; intros i s Hw Hr Hi Hk.
  - exists s. rewrite Z.add_0_r. now split.
  - destruct (readBit_written bs s i Hw Hr ltac:(lia)) as (s1 & E1 & Hw1 & Hr1).
    destruct (IH (i + 1) s1 Hw1 Hr1 ltac:(lia) ltac:(lia)) as (s2 & E2 & Hw2 & Hr2).
    exists s2. cbn [readBit_times]. unfold bind at 1. rewrite E1.
    unfold bind at 1. rewrite E2. unfold ret.
    replace (i + 1 + Z.of_nat k) with (i + Z.of_nat (S k)) in Hr2 by lia.
    split; [|now split]. do 2 f_equal.
    destruct (lookup_lt_is_Some_2 bs (Z.to_nat i) ltac:(lia)) as [x Hx].
    rewrite (drop_S _ _ _ Hx). cbn [take map].
    rewrite nth_lookup, Hx. cbn [default].
    replace (Z.to_nat (i + 1)) with (S (Z.to_nat i)) by lia. reflexivity.
Qed.

(** ** C2: the bit primitives round-trip *)

(** C2. For every finite sequence of booleans written in order with
    [writeBit] onto a freshly constructed empty stream, as many calls of
    [readBit] on that stream return the same bits, as 1 and 0, in the same
    order; none of the calls fails. *)
Theorem writeBit_readBit_roundtrip (bs : list bool) :
  exists s',
    (writeBit_all bs ;; readBit_times (length bs)) (new_BitStream None)
    = (Normal (map Z.b2z bs), s').
Proof.
  destruct (writeBit_all_written bs [] fresh written_fresh) as (s1 & E1 & Hw1 & Hr1).
  cbn [app] in Hw1.
  assert (Hat : read_at 0 s1).
  { destruct Hr1 as (E & E' & _). unfold read_at. now rewrite E, E'. }
  destruct (readBit_times_written bs (length bs) 0 s1 Hw1 Hat ltac:(lia) ltac:(lia))
    as (s2 & E2 & _ & _).
  exists s2. unfold bind. fold fresh. rewrite E1, E2.
  change (Z.to_nat 0) with 0%nat. rewrite drop_0. now rewrite take_ge by lia.
Qed.

(** ** The class invariant *)

Lemma octet_nth (d : list Z) (j : nat) : Forall octet d -> 0 <= nth j d 0 < 256.
Proof.
  intros H. rewrite nth_lookup_Z. destruct (d !! j) as [x|] eqn:E; simpl; [|lia].
  exact (Forall_lookup_1 _ _ _ _ H E).
Qed.

Lemma well_formed_new (d : list Z) :
  Forall octet d -> well_formed (new_BitStream (Some d)).
Proof. intros H. split; simpl; auto; lia. Qed.

Lemma well_formed_fresh : well_formed fresh.
Proof. split; simpl; auto; lia. Qed.

Lemma regrown_octets old wbyte last :
  Forall octet old -> octet last -> Forall octet (regrown old wbyte last).
Proof.
  intros Ho Hl. unfold regrown. repeat apply Forall_app_2.
  - now apply Forall_take.
  - apply Forall_replicate. unfold octet. lia.
  - now constructor.
Qed.

Lemma writeBit_well_formed s (b : bool) :
  well_formed s ->
  exists s', writeBit (Js.Boolean b) s = (Normal tt, s') /\ well_formed s'.
Proof.
  intros [Hc Ho Hrb Hrbit Hw Hb Hi].
  destruct (Z.eq_dec (writeBitPosition s) 7) as [H7|H7].
  - eexists. split; [apply writeBit_at7; lia|].
    split; cbn [data byteCount readBytePosition readBitPosition
                writeBytePosition writeBitPosition]; try lia.
    + now rewrite regrown_length.
    + apply regrown_octets; [assumption|]. unfold octet. destruct b; simpl; lia.
  - destruct Hi as [Hi|Hi]; [contradiction|].
    pose proof (octet_nth (data s) (Z.to_nat (writeBytePosition s)) Ho) as Hx.
    eexists. split; [apply writeBit_below7; lia|].
    split; cbn [data byteCount readBytePosition readBitPosition
                writeBytePosition writeBitPosition].
    + now rewrite length_insert.
    + apply Forall_insert; [assumption|].
      destruct (or_bit_spec _ (writeBitPosition s) b Hx ltac:(lia)) as [<- Hr].
      exact Hr.
    + assumption.
    + assumption.
    + destruct (Z.eqb_spec (writeBitPosition s) 0); lia.
    + destruct (Z.eqb_spec (writeBitPosition s) 0); lia.
    + destruct (Z.eqb_spec (writeBitPosition s) 0); lia.
Qed.

(** ** C5: the type check of [writeBit] *)

(** C5. For every input that is not a strict boolean, [writeBit] fails
    immediately with its invalid-argument error and leaves every field of
    the stream (buffer, byteCount, both cursors) as it was; for every
    strict boolean input it does not fail on a stream that satisfies the
    class invariant, and the invariant holds again afterwards. *)
Theorem writeBit_type_check (v : Js.value) (s : BitStream) :
  (Js.is_boolean v = false ->
   writeBit v s = (Throw (Error "BitStream writeBit was not passed a boolean"), s)) /\
  (forall b : bool, v = Js.Boolean b -> well_formed s ->
   exists s', writeBit v s = (Normal tt, s') /\ well_formed s').
Proof.
  split.
  - intros Hv. destruct v; try reflexivity. discriminate.
  - intros b -> Hwf. now apply writeBit_well_formed.
Qed.

Lemma writeBit_type_check_witness :
  (Js.is_boolean (Js.Number 1) = false /\
   writeBit (Js.Number 1) fresh =
     (Throw (Error "BitStream writeBit was not passed a boolean"), fresh)) /\
  (well_formed fresh /\
   exists s', writeBit (Js.Boolean true) fresh = (Normal tt, s') /\ well_formed s').
Proof.
  split.
  - split; [reflexivity|].
    exact (proj1 (writeBit_type_check (Js.Number 1) fresh) eq_refl).
  - split; [exact well_formed_fresh|].
    exact (proj2 (writeBit_type_check (Js.Boolean true) fresh) true eq_refl
                 well_formed_fresh).
Defined.

(** ** C3: reading past the written region *)

Lemma writeByte_loop_zero r :
  writeByte_loop (S r) 0 = (writeBit (Js.Boolean false) ;; writeByte_loop r 0).
Proof. reflexivity. Qed.

Lemma writeBit_false_below7 s :
  0 <= writeBitPosition s < 7 ->
  0 <= writeBytePosition s < Z.of_nat (length (data s)) ->
  octet (nth (Z.to_nat (writeBytePosition s)) (data s) 0) ->
  writeBit (Js.Boolean false) s =
  (Normal tt,
   mkBitStream (data s) (byteCount s) (readBytePosition s) (readBitPosition s)
     (if writeBitPosition s =? 0 then writeBytePosition s + 1 else writeBytePosition s)
     (if writeBitPosition s =? 0 then 7 else writeBitPosition s - 1) (byte s)).
Proof.
  intros Hb Hw Hx. rewrite writeBit_below7 by assumption.
  cbn [Z.b2z]. rewrite Z.shiftl_0_l, Z.lor_0_r.
  rewrite list_insert_id; [reflexivity|].
  rewrite nth_lookup_Z.
  destruct (lookup_lt_is_Some_2 (data s) (Z.to_nat (writeBytePosition s)) ltac:(lia))
    as [x ->]. reflexivity.
Qed.

(** Writing the remaining zero bits of an octet changes nothing but the
    write cursor. *)
Lemma writeByte_loop_zero_rest r : forall s,
  writeBitPosition s = Z.of_nat r -> (r < 7)%nat ->
  0 <= writeBytePosition s < Z.of_nat (length (data s)) ->
  octet (nth (Z.to_nat (writeBytePosition s)) (data s) 0) ->
  writeByte_loop (S r) 0 s =
  (Normal tt,
   mkBitStream (data s) (byteCount s) (readBytePosition s) (readBitPosition s)
     (writeBytePosition s + 1) 7 (byte s)).
Proof.
  induction r as [|r IH]; intros s Hb Hr Hw Hx; rewrite writeByte_loop_zero;
    unfold bind; rewrite writeBit_false_below7 by (assumption || lia); rewrite Hb.
  - reflexivity.
  - destruct (Z.eqb_spec (Z.of_nat (S r)) 0); [lia|].
    rewrite IH; cbn [data byteCount readBytePosition readBitPosition
                     writeBytePosition writeBitPosition byte];
      (assumption || lia || reflexivity).
Qed.

Lemma regrown_past_end old wbyte :
  Z.of_nat (length old) <= wbyte ->
  regrown old wbyte 0 = old ++ replicate (Z.to_nat (wbyte - Z.of_nat (length old) + 1)) 0.
Proof.
  intros H. unfold regrown. rewrite take_ge by lia.
  replace (Z.to_nat (wbyte - Z.of_nat (length old) + 1))
    with (S (Z.to_nat wbyte - length old)) by lia.
  now rewrite replicate_S_end.
Qed.

Lemma read_bit_of_zero m k : Js.shr (Js.and 0 m) k = 0.
Proof.
  unfold Js.shr, Js.and. change (Js.ToInt32 0) with 0.
  rewrite Z.land_0_l. change (Js.ToInt32 0) with 0. apply Z.shiftr_0_l.
Qed.

(** On a freshly constructed empty stream [readBit] returns 0 and appends
    a zero octet, but the write cursor has moved from (0, 7) to (1, 7). *)
Lemma readBit_moves_write_cursor :
  ~ readBit_restores_write_cursor (new_BitStream None).
Proof.
  intros H. destruct (H ltac:(simpl; lia)) as (s' & E & _ & Hw & _).
  vm_compute in E. inversion E; subst s'. discriminate Hw.
Qed.

(** When the write cursor is inside an octet, [readBit] past the end
    throws: the forced [writeByte(0)] reads an octet that does not exist. *)
Example readBit_past_end_throws :
  fst ((writeBit (Js.Boolean true) ;; readByte ;; readBit) (new_BitStream None))
  = Throw RangeError.
Proof. vm_compute. reflexivity. Qed.

(** The zero-fill path of [readBit], with the write cursor at the start
    of an octet. *)
Lemma readBit_zero_fill s :
  byteCount s = Z.of_nat (length (data s)) ->
  byteCount s <= readBytePosition s ->
  writeBitPosition s = 7 ->
  readBit s =
  (Normal 0,
   mkBitStream
     (data s ++ replicate (Z.to_nat (readBytePosition s - byteCount s + 1)) 0)
     (readBytePosition s + 1)
     (if readBitPosition s - 1 =? -1 then readBytePosition s + 1
      else readBytePosition s)
     (if readBitPosition s - 1 =? -1 then 7 else readBitPosition s - 1)
     (readBytePosition s + 1) 7 (byte s)).
Proof.
  intros Hc Hr H7. unfold readBit. unfold bind at 1, get at 1.
  unfold bind at 1, get at 1.
  destruct (Z.leb_spec (byteCount s) (readBytePosition s)); [|lia].
  unfold bind at 1. unfold bind at 1, set_writeBytePosition at 1.
  unfold writeByte. rewrite writeByte_loop_zero. unfold bind at 1.
  rewrite writeBit_at7 by (cbn; lia).
  cbn [data byteCount readBytePosition readBitPosition
       writeBytePosition writeBitPosition byte Z.b2z].
  rewrite Z.mul_0_l.
  rewrite (writeByte_loop_zero_rest 6);
    cbn [data byteCount readBytePosition readBitPosition
         writeBytePosition writeBitPosition byte];
    [ | reflexivity | lia | rewrite regrown_length; lia
      | rewrite regrown_last by lia; unfold octet; lia ].
  run_monad. unfold Buffer.readUInt8. rewrite regrown_length by lia.
  destruct (Z.leb_spec 0 (readBytePosition s)); [|lia].
  destruct (Z.ltb_spec (readBytePosition s) (readBytePosition s + 1)); [|lia].
  cbn [andb]. rewrite regrown_last by lia. rewrite read_bit_of_zero.
  rewrite regrown_past_end by lia. rewrite <- Hc.
  destruct (Z.eqb_spec (readBitPosition s - 1) (-1)); reflexivity.
Qed.

(** [writeBit] inside an octet that does not exist throws, from
    [readUInt8], before it changes anything. *)
Lemma writeBit_outside s (b : bool) :
  writeBitPosition s <> 7 ->
  ~ (0 <= writeBytePosition s < Z.of_nat (length (data s))) ->
  writeBit (Js.Boolean b) s = (Throw RangeError, s).
Proof.
  intros H7 Hout. unfold writeBit. run_monad.
  destruct (Z.eqb_spec (writeBitPosition s) 7); [contradiction|]. run_monad.
  unfold Buffer.readUInt8.
  destruct (Z.leb_spec 0 (writeBytePosition s));
    destruct (Z.ltb_spec (writeBytePosition s) (Z.of_nat (length (data s))));
    cbn [andb]; try reflexivity. lia.
Qed.

(** With the write cursor inside an octet the forced [writeByte(0)] reads
    an octet that does not exist: [readBit] throws, having moved the write
    cursor. *)
Lemma readBit_zero_fill_throws s :
  byteCount s = Z.of_nat (length (data s)) ->
  byteCount s <= readBytePosition s ->
  writeBitPosition s <> 7 ->
  readBit s =
  (Throw RangeError,
   mkBitStream (data s) (byteCount s) (readBytePosition s) (readBitPosition s)
     (readBytePosition s) (writeBitPosition s) (byte s)).
Proof.
  intros Hc Hr H7. unfold readBit. unfold bind at 1, get at 1.
  unfold bind at 1, get at 1.
  destruct (Z.leb_spec (byteCount s) (readBytePosition s)); [|lia].
  unfold bind at 1. unfold bind at 1, set_writeBytePosition at 1.
  unfold writeByte. rewrite writeByte_loop_zero. unfold bind at 1.
  rewrite writeBit_outside; [reflexivity | exact H7 |]. cbn. lia.
Qed.

(** [readBit] keeps the class invariant whenever it returns. *)
Lemma readBit_well_formed s v s' :
  well_formed s -> readBit s = (Normal v, s') -> well_formed s'.
Proof.
  intros [Hc Ho Hrb Hrbit Hw Hb Hi] E.
  destruct (Z.lt_ge_cases (readBytePosition s) (byteCount s)) as [Hin|Hout].
  - rewrite readBit_in in E by (try apply octet_nth; assumption || lia).
    inversion E; subst s'; clear E.
    split; cbn [data byteCount readBytePosition readBitPosition
                writeBytePosition writeBitPosition]; try assumption;
      destruct (Z.eqb_spec (readBitPosition s) 0); lia.
  - destruct (Z.eq_dec (writeBitPosition s) 7) as [H7|H7].
    + rewrite readBit_zero_fill in E by (assumption || lia).
      inversion E; subst s'; clear E.
      split; cbn [data byteCount readBytePosition readBitPosition
                  writeBytePosition writeBitPosition]; try lia.
      * rewrite length_app, length_replicate. lia.
      * apply Forall_app_2; [assumption|].
        apply Forall_replicate. unfold octet. lia.
      * destruct (Z.eqb_spec (readBitPosition s - 1) (-1)); lia.
      * destruct (Z.eqb_spec (readBitPosition s - 1) (-1)); lia.
    + rewrite readBit_zero_fill_throws in E by (assumption || lia).
      discriminate E.
Qed.

(** [alignRead], [alignWrite] and [concat] keep the class invariant. *)
Lemma alignRead_well_formed s :
  well_formed s -> well_formed (snd (alignRead s)).
Proof.
  intros [Hc Ho Hrb Hrbit Hw Hb Hi]. unfold alignRead. run_monad.
  destruct (Z.eqb_spec (readBitPosition s) 7); cbn [negb]; run_monad;
    split; cbn [data byteCount readBytePosition readBitPosition
                writeBytePosition writeBitPosition]; (assumption || lia).
Qed.

Lemma alignWrite_well_formed s :
  well_formed s -> well_formed (snd (alignWrite s)).
Proof.
  intros [Hc Ho Hrb Hrbit Hw Hb Hi]. unfold alignWrite. run_monad.
  destruct (Z.eqb_spec (writeBitPosition s) 7); cbn [negb]; run_monad;
    split; cbn [data byteCount readBytePosition readBitPosition
                writeBytePosition writeBitPosition]; (assumption || lia).
Qed.

Lemma concat_well_formed s bs :
  well_formed s -> well_formed bs -> well_formed (snd (concat bs s)).
Proof.
  intros [Hc Ho Hrb Hrbit Hw Hb Hi] [_ Ho' _ _ _ _ _]. unfold concat. run_monad.
  split; cbn [data byteCount readBytePosition readBitPosition
              writeBytePosition writeBitPosition]; try (assumption || lia).
  - now apply Forall_app_2.
  - rewrite length_app. lia.
Qed.

(** C3 (amended). For every stream whose read cursor is past the written
    region ([readBytePosition >= byteCount]) and whose write cursor is at
    the start of an octet, [readBit] does not fail: it returns 0, extends
    the buffer with zero octets up to and including the one under the read
    cursor (exactly one when the read cursor is right at the end), and
    leaves the write cursor just after that octet, at
    [(readBytePosition + 1, 7)]; it is not moved back. *)
Theorem readBit_past_end s :
  byteCount s = Z.of_nat (length (data s)) ->
  byteCount s <= readBytePosition s ->
  writeBitPosition s = 7 ->
  readBit s =
  (Normal 0,
   mkBitStream
     (data s ++ replicate (Z.to_nat (readBytePosition s - byteCount s + 1)) 0)
     (readBytePosition s + 1)
     (if readBitPosition s - 1 =? -1 then readBytePosition s + 1
      else readBytePosition s)
     (if readBitPosition s - 1 =? -1 then 7 else readBitPosition s - 1)
     (readBytePosition s + 1) 7 (byte s)).
Proof. exact (readBit_zero_fill s). Qed.

Lemma readBit_past_end_witness :
  byteCount (new_BitStream None) <= readBytePosition (new_BitStream None) /\
  readBit (new_BitStream None) = (Normal 0, mkBitStream [0] 1 0 6 1 7 None).
Proof.
  split; [simpl; lia|].
  exact (readBit_past_end (new_BitStream None) eq_refl ltac:(simpl; lia) eq_refl).
Defined.

(** ** Whole octets *)

Lemma pack_acc_octet x :
  0 <= x < 256 ->
  pack_acc 7 (Js.and (Js.shl x 1) 0xFF)
    (Z.b2z (Js.ushr (Js.and x 0x80) 7 =? 1) * 128) = x.
Proof.
  intros Hx.
  pose (P := fun x => pack_acc 7 (Js.and (Js.shl x 1) 0xFF)
                        (Z.b2z (Js.ushr (Js.and x 0x80) 7 =? 1) * 128) =? x).
  assert (HP : forallb P (seqZ 0 256) = true) by (vm_compute; reflexivity).
  pose proof (forallb_seqZ P 0 256 HP x ltac:(lia)) as H. unfold P in H. lia.
Qed.

Lemma lor_bit_octet x k (b : bool) :
  octet x -> 0 <= k < 8 -> octet (Z.lor x (Z.shiftl (Z.b2z b) k)).
Proof.
  intros Hx Hk. destruct (or_bit_spec x k b Hx Hk) as [<- H]. exact H.
Qed.

Lemma writeByte_loop_S r n :
  writeByte_loop (S r) n =
  (writeBit (Js.Boolean (Js.ushr (Js.and n 0x80) 7 =? 1)) ;;
   writeByte_loop r (Js.and (Js.shl n 1) 0xFF)).
Proof. reflexivity. Qed.

Lemma writeByte_loop_rest r : forall n acc d s,
  data s = d ++ [acc] -> octet acc ->
  writeBytePosition s = Z.of_nat (length d) ->
  writeBitPosition s = Z.of_nat r -> (r < 7)%nat ->
  writeByte_loop (S r) n s =
  (Normal tt,
   mkBitStream (d ++ [pack_acc (S r) n acc]) (byteCount s)
     (readBytePosition s) (readBitPosition s)
     (writeBytePosition s + 1) 7 (byte s)).
Proof.
  induction r as [|r IH]; intros n acc d s Hd Ha Hw Hb Hr;
    rewrite writeByte_loop_S; unfold bind at 1;
    (rewrite writeBit_below7;
      [ | lia | rewrite Hd, length_app; simpl; lia
        | rewrite Hd, Hw, Nat2Z.id, nth_middle; exact Ha ]);
    rewrite Hd, Hw, Nat2Z.id, nth_middle, Hb;
    rewrite (insert_app_r_alt d [acc]) by lia;
    rewrite Nat.sub_diag; cbn [insert list_insert].
  - reflexivity.
  - destruct (Z.eqb_spec (Z.of_nat (S r)) 0); [lia|].
    erewrite IH; cbn [data byteCount readBytePosition readBitPosition
                      writeBytePosition writeBitPosition byte];
      [ | reflexivity | apply lor_bit_octet; [exact Ha | lia]
        | reflexivity | lia | lia ].
    cbn [pack_acc]. reflexivity.
Qed.

(** [writeByte] with the write cursor at the end of the buffer and at the
    start of an octet appends that octet. *)
Lemma writeByte_append s x :
  octet x ->
  writeBitPosition s = 7 ->
  writeBytePosition s = Z.of_nat (length (data s)) ->
  writeByte x s =
  (Normal tt,
   mkBitStream (data s ++ [x]) (writeBytePosition s + 1)
     (readBytePosition s) (readBitPosition s)
     (writeBytePosition s + 1) 7 (byte s)).
Proof.
  intros Hx H7 Hw. unfold writeByte. rewrite writeByte_loop_S. unfold bind at 1.
  rewrite writeBit_at7 by lia.
  erewrite (writeByte_loop_rest 6);
    cbn [data byteCount readBytePosition readBitPosition
         writeBytePosition writeBitPosition byte];
    [ | unfold regrown; rewrite Hw, Nat2Z.id, take_ge, Nat.sub_diag by lia; reflexivity
      | unfold octet; destruct (_ =? _); simpl; lia
      | exact Hw | reflexivity | lia ].
  rewrite pack_acc_octet by exact Hx. reflexivity.
Qed.

Lemma read_acc_octet x : 0 <= x < 256 -> read_acc 8 x 0 = x.
Proof.
  intros Hx.
  assert (HP : forallb (fun x => read_acc 8 x 0 =? x) (seqZ 0 256) = true)
    by (vm_compute; reflexivity).
  pose proof (forallb_seqZ _ 0 256 HP x ltac:(lia)) as H. cbv beta in H. lia.
Qed.

Lemma readBits_loop_S r val :
  readBits_loop (S r) val =
  (bit <- readBit ;; readBits_loop r (Js.or (Js.shl val 1) bit)).
Proof. reflexivity. Qed.

Lemma readBits_loop_rest r : forall val s,
  byteCount s = Z.of_nat (length (data s)) ->
  0 <= readBytePosition s < byteCount s ->
  octet (nth (Z.to_nat (readBytePosition s)) (data s) 0) ->
  readBitPosition s = Z.of_nat r -> (r < 8)%nat ->
  readBits_loop (S r) val s =
  (Normal (read_acc (S r) (nth (Z.to_nat (readBytePosition s)) (data s) 0) val),
   mkBitStream (data s) (byteCount s) (readBytePosition s + 1) 7
     (writeBytePosition s) (writeBitPosition s) (byte s)).
Proof.
  induction r as [|r IH]; intros val s Hc Hr Hx Hb Hlt;
    rewrite readBits_loop_S; unfold bind at 1;
    rewrite readBit_in by (assumption || lia).
  - rewrite Hb. reflexivity.
  - destruct (Z.eqb_spec (readBitPosition s) 0) as [E|E]; [lia|].
    rewrite IH.
    + cbn [data byteCount readBytePosition readBitPosition
           writeBytePosition writeBitPosition byte].
      rewrite Hb. reflexivity.
    + assumption.
    + cbn [data byteCount readBytePosition readBitPosition]. lia.
    + assumption.
    + cbn [readBitPosition]. lia.
    + lia.
Qed.

(** [readByte] with the read cursor at the start of an existing octet
    returns that octet and steps over it. *)
Lemma readByte_aligned s :
  byteCount s = Z.of_nat (length (data s)) ->
  Forall octet (data s) ->
  readBitPosition s = 7 ->
  0 <= readBytePosition s < byteCount s ->
  readByte s =
  (Normal (nth (Z.to_nat (readBytePosition s)) (data s) 0),
   mkBitStream (data s) (byteCount s) (readBytePosition s + 1) 7
     (writeBytePosition s) (writeBitPosition s)
     (Some (nth (Z.to_nat (readBytePosition s)) (data s) 0))).
Proof.
  intros Hc Ho H7 Hr. unfold readByte, readBits. run_monad.
  destruct (Z.ltb_spec (readBytePosition s) (byteCount s)); [|lia].
  run_monad. unfold Buffer.readUInt8.
  destruct (Z.leb_spec 0 (readBytePosition s)); [|lia].
  destruct (Z.ltb_spec (readBytePosition s) (Z.of_nat (length (data s)))); [|lia].
  cbn [andb].
  rewrite (readBits_loop_rest 7);
    cbn [data byteCount readBytePosition readBitPosition
         writeBytePosition writeBitPosition byte];
    [ | assumption | lia | apply octet_nth; assumption | assumption | lia ].
  rewrite read_acc_octet by (apply octet_nth; assumption). reflexivity.
Qed.

(** ** C8: [readBytes] *)

Lemma readBytes_loop_S n val :
  readBytes_loop (S n) val =
  (rbyte <- get readBytePosition ;;
   len <- get length_ ;;
   if rbyte <? len then
     b <- readByte ;;
     r <- on val (writeByte b) ;;
     readBytes_loop n (snd r)
   else ret val).
Proof. reflexivity. Qed.

Lemma readBytes_loop_spec n : forall val s,
  byteCount s = Z.of_nat (length (data s)) ->
  Forall octet (data s) ->
  readBitPosition s = 7 ->
  0 <= readBytePosition s ->
  writeBitPosition val = 7 ->
  writeBytePosition val = Z.of_nat (length (data val)) ->
  exists val' s',
    readBytes_loop n val s = (Normal val', s') /\
    data val' = data val ++ take n (drop (Z.to_nat (readBytePosition s)) (data s)) /\
    data s' = data s /\ byteCount s' = byteCount s /\
    readBitPosition s' = 7 /\
    readBytePosition s' =
      readBytePosition s +
      Z.of_nat (length (take n (drop (Z.to_nat (readBytePosition s)) (data s)))).
Proof.
  induction n as [|n IH]; intros val s Hc Ho H7 Hr Hv7 Hvw.
  - exists val, s. cbn [readBytes_loop]. unfold ret.
    rewrite take_0, app_nil_r. cbn [length]. repeat split; (assumption || lia).
  - rewrite readBytes_loop_S. unfold bind at 1, get at 1.
    unfold bind at 1, get at 1. unfold length_.
    destruct (Z.ltb_spec (readBytePosition s) (byteCount s)) as [Hlt|Hge].
    + unfold bind at 1. rewrite readByte_aligned by (assumption || lia).
      set (x := nth (Z.to_nat (readBytePosition s)) (data s) 0).
      assert (Hx : octet x) by (apply octet_nth; assumption).
      unfold bind at 1, on. rewrite writeByte_append by assumption.
      cbn [snd].
      edestruct (IH (mkBitStream (data val ++ [x]) (writeBytePosition val + 1)
                       (readBytePosition val) (readBitPosition val)
                       (writeBytePosition val + 1) 7 (byte val))
                    (mkBitStream (data s) (byteCount s) (readBytePosition s + 1) 7
                       (writeBytePosition s) (writeBitPosition s) (Some x)))
        as (val' & s' & E & Hd & Hs & Hcnt & Hb & Hp);
        cbn [data byteCount readBytePosition readBitPosition
             writeBytePosition writeBitPosition byte];
        try (assumption || reflexivity || lia).
      { rewrite length_app. simpl. lia. }
      cbn [data byteCount readBytePosition readBitPosition
           writeBytePosition writeBitPosition byte] in *.
      exists val', s'. rewrite E.
      assert (Hl : data s !! Z.to_nat (readBytePosition s) = Some x).
      { unfold x. rewrite nth_lookup_Z.
        destruct (lookup_lt_is_Some_2 (data s) (Z.to_nat (readBytePosition s))
                    ltac:(lia)) as [y ->]. reflexivity. }
      rewrite (drop_S _ _ _ Hl). rewrite firstn_cons. cbn [length].
      replace (Z.to_nat (readBytePosition s + 1))
        with (S (Z.to_nat (readBytePosition s))) in * by lia.
      rewrite <- app_assoc in Hd. cbn [app] in Hd.
      repeat split; (assumption || lia).
    + exists val, s. unfold ret. rewrite drop_ge by lia. rewrite take_nil.
      cbn [length]. rewrite app_nil_r. repeat split; (assumption || lia).
Qed.

(** Asking for 3 octets of a 1-octet stream yields a 1-octet stream. *)
Lemma readBytes_stops_at_end :
  ~ readBytes_returns_n_octets 3 (new_BitStream (Some [0xAA])).
Proof.
  intros (val & s' & E & Hn). vm_compute in E. inversion E; subst val.
  discriminate Hn.
Qed.

(** ** Bit sequences emitted by the composite writers *)

Lemma writeByte_loop_written r : forall n bs s,
  written bs s ->
  exists s', writeByte_loop r n s = (Normal tt, s') /\
             written (bs ++ loop_bits r n) s' /\ same_reader s s'.
Proof.
  induction r as [|r IH]; intros n bs s Hw.
  - exists s. cbn [loop_bits]. rewrite app_nil_r.
    split; [reflexivity|]. split; [assumption | apply same_reader_refl].
  - rewrite writeByte_loop_S. cbn [loop_bits]. unfold bind.
    destruct (writeBit_written bs s (Js.ushr (Js.and n 0x80) 7 =? 1) Hw)
      as (s1 & -> & Hw1 & Hr1).
    destruct (IH (Js.and (Js.shl n 1) 0xFF) _ s1 Hw1) as (s2 & E2 & Hw2 & Hr2).
    exists s2. rewrite <- app_assoc in Hw2. split; [exact E2|].
    split; [exact Hw2 | eapply same_reader_trans; eassumption].
Qed.

Lemma writeBits_written b : forall n bs s,
  written bs s ->
  exists s', writeBits n b s = (Normal tt, s') /\
             written (bs ++ writeBits_bits n b) s' /\ same_reader s s'.
Proof.
  induction b as [|b IH]; intros n bs s Hw.
  - exists s. cbn [writeBits_bits]. rewrite app_nil_r.
    split; [reflexivity|]. split; [assumption | apply same_reader_refl].
  - cbn [writeBits writeBits_bits]. unfold bind.
    destruct (writeBit_written bs s
                (Js.and (Js.shr n (Z.of_nat (S b) - 1)) 0x01 =? 1) Hw)
      as (s1 & -> & Hw1 & Hr1).
    destruct (IH n _ s1 Hw1) as (s2 & E2 & Hw2 & Hr2).
    exists s2. rewrite <- app_assoc in Hw2. split; [exact E2|].
    split; [exact Hw2 | eapply same_reader_trans; eassumption].
Qed.

Lemma loop_bits_octet x : 0 <= x < 256 -> loop_bits 8 x = bits_down x 7 8.
Proof.
  intros Hx.
  pose (eqb_bits := fun a b : list bool => if decide (a = b) then true else false).
  assert (HP : forallb (fun x => eqb_bits (loop_bits 8 x) (bits_down x 7 8))
                 (seqZ 0 256) = true) by (vm_compute; reflexivity).
  pose proof (forallb_seqZ _ 0 256 HP x ltac:(lia)) as H. cbv beta in H.
  unfold eqb_bits in H. now destruct (decide _).
Qed.

Lemma writeBits_bits_7 x : 0 <= x < 128 -> writeBits_bits x 7 = bits_down x 6 7.
Proof.
  intros Hx.
  pose (eqb_bits := fun a b : list bool => if decide (a = b) then true else false).
  assert (HP : forallb (fun x => eqb_bits (writeBits_bits x 7) (bits_down x 6 7))
                 (seqZ 0 128) = true) by (vm_compute; reflexivity).
  pose proof (forallb_seqZ _ 0 128 HP x ltac:(lia)) as H. cbv beta in H.
  unfold eqb_bits in H. now destruct (decide _).
Qed.

Lemma bits_down_shift count : forall x y hi k,
  (forall i, hi - Z.of_nat count < i <= hi -> Z.testbit x i = Z.testbit y (i + k)) ->
  bits_down x hi count = bits_down y (hi + k) count.
Proof.
  induction count as [|c IH]; intros x y hi k H; cbn [bits_down]; [reflexivity|].
  rewrite (H hi) by lia. f_equal.
  replace (hi + k - 1) with (hi - 1 + k) by lia. apply IH.
  intros i Hi. apply H. lia.
Qed.

(** ** C8: [readBytes] at any read cursor *)

Lemma nth_replicate_0 k : forall j, nth j (replicate k 0) 0 = 0.
Proof. induction k as [|k IH]; intros [|j]; simpl; auto. Qed.

Lemma nth_extended d m j : nth j (extended d m) 0 = nth j d 0.
Proof.
  unfold extended. destruct (Nat.lt_ge_cases j (length d)) as [H|H].
  - now rewrite app_nth1.
  - rewrite app_nth2 by lia. rewrite (nth_overflow d) by lia.
    apply nth_replicate_0.
Qed.

Lemma bitAt_extended d m i : bitAt (extended d m) i = bitAt d i.
Proof. unfold bitAt. now rewrite nth_extended. Qed.

Lemma extended_within d m : m <= Z.of_nat (length d) -> extended d m = d.
Proof.
  intros H. unfold extended.
  replace (Z.to_nat m - length d)%nat with 0%nat by lia. apply app_nil_r.
Qed.

Lemma extended_length d m :
  Z.of_nat (length (extended d m)) = Z.max (Z.of_nat (length d)) m.
Proof. unfold extended. rewrite length_app, length_replicate. lia. Qed.

Lemma extended_extended d a b : a <= b -> extended (extended d a) b = extended d b.
Proof.
  intros H. unfold extended. rewrite <- app_assoc, length_app, length_replicate.
  f_equal. rewrite <- replicate_add. f_equal. lia.
Qed.

Lemma extended_octets d m : Forall octet d -> Forall octet (extended d m).
Proof.
  intros H. unfold extended. apply Forall_app. split; [exact H|].
  apply Forall_replicate. unfold octet. lia.
Qed.

Lemma map_bitAt_extended d m l : map (bitAt (extended d m)) l = map (bitAt d) l.
Proof. apply map_ext. intros i. apply bitAt_extended. Qed.

(** [readBit()] wherever the read cursor stands: the bit under the cursor,
    or 0 from a new zero octet when the cursor is at the end and the write
    cursor at an octet boundary. *)
Lemma readBit_any i s :
  readable i s -> (i < 8 * byteCount s \/ writeBitPosition s = 7) ->
  exists s',
    readBit s = (Normal (Z.b2z (bitAt (data s) i)), s') /\
    data s' = extended (data s) (i / 8 + 1) /\
    readable (i + 1) s' /\
    (writeBitPosition s = 7 -> writeBitPosition s' = 7) /\
    (i < 8 * byteCount s ->
     writeBytePosition s' = writeBytePosition s /\
     writeBitPosition s' = writeBitPosition s).
Proof.
  intros [Hc Ho [HB Hb] Hp He] Hw.
  destruct (Z.lt_ge_cases i (8 * byteCount s)) as [Hin|Hout].
  - eexists. split; [|split; [|split; [|split]]].
    + rewrite readBit_in; [|assumption|dlia|dlia|apply octet_nth; assumption].
      unfold bitAt. rewrite <- HB, <- Hb. reflexivity.
    + cbn [data]. symmetry. apply extended_within. dlia.
    + constructor; cbn [data byteCount readBytePosition readBitPosition];
        try assumption; try lia.
      unfold read_at. cbn [readBytePosition readBitPosition].
      rewrite HB, Hb. destruct (Z.eqb_spec (7 - i mod 8) 0); dlia.
    + intros H. exact H.
    + intros _. split; reflexivity.
  - assert (Ei : i = 8 * byteCount s) by lia.
    assert (H7 : writeBitPosition s = 7) by (destruct Hw; [lia|assumption]).
    assert (EB : readBytePosition s = byteCount s) by (rewrite HB; dlia).
    assert (Eb : readBitPosition s = 7) by (rewrite Hb; dlia).
    eexists. split; [|split; [|split; [|split]]].
    + rewrite readBit_zero_fill; [|assumption|lia|assumption].
      f_equal. f_equal. unfold bitAt. rewrite nth_overflow by dlia.
      rewrite Z.testbit_0_l. reflexivity.
    + cbn [data]. unfold extended. f_equal. f_equal. dlia.
    + constructor; cbn [data byteCount readBytePosition readBitPosition].
      * rewrite length_app, length_replicate. lia.
      * apply Forall_app. split; [assumption|].
        apply Forall_replicate. unfold octet. lia.
      * unfold read_at. cbn [readBytePosition readBitPosition].
        rewrite Eb. change (7 - 1 =? -1) with false. cbv iota.
        rewrite EB. subst i. dlia.
      * lia.
      * lia.
    + intros _. reflexivity.
    + intros H. lia.
Qed.

Lemma bits_value_cons b ws v :
  bits_value (b :: ws) v = bits_value ws (Js.or (Js.shl v 1) (Z.b2z b)).
Proof. reflexivity. Qed.

Lemma readBits_loop_any k : forall v i s,
  readable i s ->
  (i + Z.of_nat k <= 8 * byteCount s \/ writeBitPosition s = 7) ->
  exists s',
    readBits_loop k v s =
      (Normal (bits_value (map (bitAt (data s)) (seqZ i (Z.of_nat k))) v), s') /\
    data s' = extended (data s) ((i + Z.of_nat k + 7) / 8) /\
    readable (i + Z.of_nat k) s' /\
    (writeBitPosition s = 7 -> writeBitPosition s' = 7) /\
    (i + Z.of_nat k <= 8 * byteCount s ->
     writeBytePosition s' = writeBytePosition s /\
     writeBitPosition s' = writeBitPosition s).
Proof.
  induction k as [|k IH]; intros v i s Hr Hw.
  - exists s. cbn [readBits_loop]. unfold ret. cbn [Z.of_nat seqZ map bits_value].
    rewrite Z.add_0_r. destruct Hr as [Hc Ho Ha Hp He].
    split; [reflexivity|]. split; [symmetry; apply extended_within; dlia|].
    split; [constructor; assumption|]. split; [tauto|]. intros _. split; reflexivity.
  - destruct (readBit_any i s Hr) as (s1 & E1 & D1 & R1 & W1 & U1).
    { destruct Hw; [left; lia | right; assumption]. }
    assert (C1 : byteCount s1 = Z.max (byteCount s) (i / 8 + 1)).
    { rewrite (rd_count _ _ R1), D1, extended_length, (rd_count _ _ Hr). reflexivity. }
    destruct (IH (Js.or (Js.shl v 1) (Z.b2z (bitAt (data s) i))) (i + 1) s1 R1)
      as (s2 & E2 & D2 & R2 & W2 & U2).
    { destruct Hw as [Hw|Hw]; [left; lia | right; auto]. }
    exists s2. rewrite readBits_loop_S. unfold bind. rewrite E1, E2.
    replace (i + 1 + Z.of_nat k) with (i + Z.of_nat (S k)) in * by lia.
    split; [|split; [|split; [|split]]].
    + rewrite (seqZ_cons i (Z.of_nat (S k))) by lia. cbn [map].
      rewrite bits_value_cons. rewrite D1, map_bitAt_extended.
      replace (Z.pred (Z.of_nat (S k))) with (Z.of_nat k) by lia.
      reflexivity.
    + rewrite D2, D1. apply extended_extended.
      pose proof (rd_pos _ _ Hr). dlia.
    + exact R2.
    + auto.
    + intros H. pose proof (rd_pos _ _ Hr).
      destruct (U1 ltac:(lia)) as [A1 B1]. destruct (U2 ltac:(lia)) as [A2 B2].
      split; congruence.
Qed.

Lemma readBits_entry k s :
  byteCount s = Z.of_nat (length (data s)) -> 0 <= readBytePosition s ->
  exists b,
    readBits k s =
    readBits_loop k 0
      (mkBitStream (data s) (byteCount s) (readBytePosition s) (readBitPosition s)
         (writeBytePosition s) (writeBitPosition s) b).
Proof.
  intros Hc Hp. unfold readBits. run_monad.
  destruct (Z.ltb_spec (readBytePosition s) (byteCount s)) as [Hlt|Hge].
  - unfold Buffer.readUInt8.
    destruct (Z.leb_spec 0 (readBytePosition s)); [|lia].
    destruct (Z.ltb_spec (readBytePosition s) (Z.of_nat (length (data s)))); [|lia].
    cbn [andb]. eexists. reflexivity.
  - exists (byte s). destruct s. reflexivity.
Qed.

Lemma readByte_any i s :
  readable i s -> (i + 8 <= 8 * byteCount s \/ writeBitPosition s = 7) ->
  exists s',
    readByte s = (Normal (bits_value (map (bitAt (data s)) (seqZ i 8)) 0), s') /\
    data s' = extended (data s) ((i + 15) / 8) /\
    readable (i + 8) s' /\
    (writeBitPosition s = 7 -> writeBitPosition s' = 7) /\
    (i + 8 <= 8 * byteCount s ->
     writeBytePosition s' = writeBytePosition s /\
     writeBitPosition s' = writeBitPosition s).
Proof.
  intros Hr Hw. destruct Hr as [Hc Ho [HB Hb] Hp He].
  destruct (readBits_entry 8 s Hc ltac:(dlia)) as [b Eb].
  unfold readByte. rewrite Eb.
  destruct (readBits_loop_any 8 0 i
              (mkBitStream (data s) (byteCount s) (readBytePosition s)
                 (readBitPosition s) (writeBytePosition s) (writeBitPosition s) b))
    as (s' & E & D & R & W & U).
  { constructor; try assumption. split; assumption. }
  { exact Hw. }
  cbn [data byteCount writeBytePosition writeBitPosition] in E, D, W, U.
  exists s'. change (Z.of_nat 8) with 8 in *.
  replace (i + 8 + 7) with (i + 15) in D by lia.
  split; [exact E|]. split; [exact D|]. split; [exact R|]. split; [exact W|exact U].
Qed.

Lemma loop_bits_bits_value ws :
  length ws = 8%nat -> loop_bits 8 (bits_value ws 0) = ws.
Proof.
  intros H.
  destruct ws as [|b0 [|b1 [|b2 [|b3 [|b4 [|b5 [|b6 [|b7 [|? ?]]]]]]]]];
    try discriminate H.
  destruct b0, b1, b2, b3, b4, b5, b6, b7; vm_compute; reflexivity.
Qed.

Lemma length_seqZ_bits d i k :
  0 <= k -> length (map (bitAt d) (seqZ i k)) = Z.to_nat k.
Proof. intros H. now rewrite length_map, length_seqZ. Qed.

Lemma readBytes_loop_past_end n val s :
  byteCount s <= readBytePosition s -> readBytes_loop n val s = (Normal val, s).
Proof.
  intros H. destruct n as [|n]; [reflexivity|].
  rewrite readBytes_loop_S. unfold bind, get, length_.
  destruct (Z.ltb_spec (readBytePosition s) (byteCount s)); [lia|reflexivity].
Qed.

(** With the read cursor inside an octet every round of the loop finds the
    guard true: the octet under the cursor exists at entry, and where a
    round reads past the end it leaves a new zero octet under the cursor. *)
Lemma readBytes_loop_unaligned n : forall val s i bs,
  readable i s -> i mod 8 <> 0 ->
  (i + 8 * Z.of_nat n <= 8 * byteCount s \/ writeBitPosition s = 7) ->
  written bs val ->
  exists val' s',
    readBytes_loop n val s = (Normal val', s') /\
    written (bs ++ map (bitAt (data s)) (seqZ i (8 * Z.of_nat n))) val' /\
    data s' = extended (data s) ((i + 8 * Z.of_nat n + 7) / 8) /\
    readable (i + 8 * Z.of_nat n) s'.
Proof.
  induction n as [|n IH]; intros val s i bs Hr Hi Hw Hv.
  - exists val, s. cbn [readBytes_loop]. unfold ret.
    change (8 * Z.of_nat 0) with 0. rewrite Z.add_0_r. cbn [seqZ map].
    rewrite app_nil_r. pose proof (rd_end _ _ Hr). pose proof (rd_count _ _ Hr).
    split; [reflexivity|]. split; [exact Hv|].
    split; [symmetry; apply extended_within; dlia|exact Hr].
  - rewrite readBytes_loop_S. unfold bind at 1, get at 1.
    unfold bind at 1, get at 1. unfold length_.
    pose proof (rd_end _ _ Hr) as He. pose proof (rd_pos _ _ Hr) as Hp.
    destruct (rd_at _ _ Hr) as [HB Hb].
    destruct (Z.ltb_spec (readBytePosition s) (byteCount s)) as [Hlt|Hge]; [|dlia].
    destruct (readByte_any i s Hr) as (s1 & E1 & D1 & R1 & W1 & U1).
    { destruct Hw; [left; lia | right; assumption]. }
    unfold bind at 1. rewrite E1.
    set (ws := map (bitAt (data s)) (seqZ i 8)).
    destruct (writeByte_loop_written 8 (bits_value ws 0) bs val Hv)
      as (val1 & Ev & Wv & _).
    fold (writeByte (bits_value ws 0)) in Ev.
    unfold bind at 1, on. rewrite Ev. cbn [snd].
    rewrite loop_bits_bits_value in Wv by (apply length_seqZ_bits; lia).
    assert (C1 : byteCount s1 = Z.max (byteCount s) ((i + 15) / 8)).
    { rewrite (rd_count _ _ R1), D1, extended_length, (rd_count _ _ Hr). reflexivity. }
    destruct (IH val1 s1 (i + 8) (bs ++ ws) R1) as (val' & s' & E & Wr & D & R).
    { dlia. }
    { destruct Hw as [Hw|Hw]; [left; lia | right; auto]. }
    { exact Wv. }
    exists val', s'. rewrite E.
    replace (i + 8 + 8 * Z.of_nat n) with (i + 8 * Z.of_nat (S n)) in * by lia.
    split; [reflexivity|]. split; [|split; [|exact R]].
    + replace (8 * Z.of_nat (S n)) with (8 + 8 * Z.of_nat n) by lia.
      rewrite seqZ_app by lia. rewrite map_app, app_assoc.
      rewrite D1, map_bitAt_extended in Wr. exact Wr.
    + rewrite D, D1. apply extended_extended. dlia.
Qed.

(** With the read cursor inside an octet and the write cursor inside one as
    well, reading past the end fails: [readBit] points the write cursor at
    the octet to create and [writeByte(0)], not at an octet boundary, reads
    it before it exists. *)
Lemma readBits_loop_throws k : forall v i s,
  readable i s -> writeBitPosition s <> 7 ->
  8 * byteCount s < i + Z.of_nat k ->
  exists s', readBits_loop k v s = (Throw RangeError, s').
Proof.
  induction k as [|k IH]; intros v i s Hr Hw Hk.
  - pose proof (rd_end _ _ Hr). lia.
  - rewrite readBits_loop_S. unfold bind.
    destruct (Z.lt_ge_cases i (8 * byteCount s)) as [Hin|Hout].
    + destruct (readBit_any i s Hr (or_introl Hin)) as (s1 & E1 & D1 & R1 & _ & U1).
      rewrite E1. destruct (U1 Hin) as [_ B1].
      assert (C1 : byteCount s1 = byteCount s).
      { rewrite (rd_count _ _ R1), D1, (rd_count _ _ Hr).
        rewrite extended_within; [reflexivity|].
        pose proof (rd_count _ _ Hr). pose proof (rd_pos _ _ Hr). dlia. }
      apply (IH _ (i + 1) s1 R1); [congruence|lia].
    + destruct Hr as [Hc Ho [HB Hb] Hp He].
      rewrite readBit_zero_fill_throws; [|assumption|dlia|assumption].
      eexists. reflexivity.
Qed.

Lemma readBytes_loop_throws n : forall val s i bs,
  readable i s -> i mod 8 <> 0 -> writeBitPosition s <> 7 ->
  8 * byteCount s < i + 8 * Z.of_nat n ->
  written bs val ->
  exists s', readBytes_loop n val s = (Throw RangeError, s').
Proof.
  induction n as [|n IH]; intros val s i bs Hr Hi Hw Hn Hv.
  - pose proof (rd_end _ _ Hr). lia.
  - rewrite readBytes_loop_S. unfold bind at 1, get at 1.
    unfold bind at 1, get at 1. unfold length_.
    pose proof (rd_end _ _ Hr) as He. pose proof (rd_pos _ _ Hr) as Hp.
    pose proof (rd_count _ _ Hr) as Hc.
    destruct (rd_at _ _ Hr) as [HB Hb].
    destruct (Z.ltb_spec (readBytePosition s) (byteCount s)) as [Hlt|Hge]; [|dlia].
    destruct (Z.le_gt_cases (i + 8) (8 * byteCount s)) as [Hin|Hout].
    + destruct (readByte_any i s Hr (or_introl Hin)) as (s1 & E1 & D1 & R1 & _ & U1).
      unfold bind at 1. rewrite E1. destruct (U1 Hin) as [_ B1].
      set (ws := map (bitAt (data s)) (seqZ i 8)).
      destruct (writeByte_loop_written 8 (bits_value ws 0) bs val Hv)
      as (val1 & Ev & Wv & _).
    fold (writeByte (bits_value ws 0)) in Ev.
      unfold bind at 1, on. rewrite Ev. cbn [snd].
      assert (C1 : byteCount s1 = byteCount s).
      { rewrite (rd_count _ _ R1), D1, Hc.
        rewrite extended_within; [reflexivity|]. dlia. }
      apply (IH val1 s1 (i + 8) (bs ++ loop_bits 8 (bits_value ws 0)) R1);
        [dlia|congruence|lia|exact Wv].
    + destruct (readBits_entry 8 s Hc ltac:(dlia)) as [b Eb].
      destruct (readBits_loop_throws 8 0 i
                  (mkBitStream (data s) (byteCount s) (readBytePosition s)
                     (readBitPosition s) (writeBytePosition s) (writeBitPosition s) b))
        as [s1 E1].
      { constructor; try assumption; [apply Hr | split; assumption]. }
      { exact Hw. }
      { cbn [byteCount]. lia. }
      unfold bind at 1, readByte. rewrite Eb, E1. eexists. reflexivity.
Qed.

Lemma readable_consumed s :
  byteCount s = Z.of_nat (length (data s)) ->
  Forall octet (data s) ->
  0 <= readBytePosition s < byteCount s -> 0 <= readBitPosition s <= 7 ->
  readable (consumed s) s.
Proof.
  intros Hc Ho HB Hb. unfold consumed.
  constructor; try assumption; [|lia|lia].
  unfold read_at. dlia.
Qed.

(** With both cursors inside an octet, [readBytes(n)] throws a
    [RangeError] as soon as the [n] octets asked for reach past the end. *)
Lemma readBytes_unaligned_throws (n : nat) (s : BitStream) :
  byteCount s = Z.of_nat (length (data s)) ->
  Forall octet (data s) ->
  0 <= readBytePosition s -> 0 <= readBitPosition s < 7 ->
  writeBitPosition s <> 7 ->
  readBytePosition s < length_ s <= readBytePosition s + Z.of_nat n ->
  exists s', readBytes n s = (Throw RangeError, s').
Proof.
  unfold length_. intros Hc Ho HB Hb Hw Hn.
  apply (readBytes_loop_throws n (new_BitStream None) s (consumed s) []).
  - apply readable_consumed; (assumption || lia).
  - unfold consumed. dlia.
  - exact Hw.
  - unfold consumed. lia.
  - exact written_fresh.
Qed.

(** C8 (amended). For every [n >= 0] and every stream whose buffer and
    read cursor satisfy the class invariant, [readBytes(n)] returns a new
    stream as follows.  With the read cursor at the start of an octet it
    holds the next octets of the source in order: [n] of them when that
    many remain before [length()], otherwise only those that remain; the
    source is not extended and its read cursor advances by the number of
    octets returned.  With the read cursor inside an octet before
    [length()] it holds exactly [n] octets, the next [8 * n] bits of the
    source, bits past the end of the source reading as 0: the source is
    zero-extended up to the octet the cursor ends in, and the cursor
    advances by [n] octets.  This second part takes a write cursor at an
    octet boundary, or [8 * n] bits that end inside the source.  With the
    read cursor at or beyond [length()] the new stream is empty and the
    source unchanged. *)
Theorem readBytes_spec (n : nat) (s : BitStream) :
  byteCount s = Z.of_nat (length (data s)) ->
  Forall octet (data s) ->
  0 <= readBytePosition s -> 0 <= readBitPosition s <= 7 ->
  (readBitPosition s = 7 ->
   exists val s',
     readBytes n s = (Normal val, s') /\
     data val = take n (drop (Z.to_nat (readBytePosition s)) (data s)) /\
     data s' = data s /\ length_ s' = length_ s /\
     readBytePosition s' = readBytePosition s + Z.of_nat (length (data val)) /\
     readBitPosition s' = 7) /\
  (readBitPosition s <> 7 -> readBytePosition s < length_ s ->
   writeBitPosition s = 7 \/ readBytePosition s + Z.of_nat n < length_ s ->
   exists val s',
     readBytes n s = (Normal val, s') /\
     length (data val) = n /\
     written (map (bitAt (data s)) (seqZ (consumed s) (8 * Z.of_nat n))) val /\
     data s' = extended (data s) (readBytePosition s + Z.of_nat n + 1) /\
     length_ s' = Z.of_nat (length (data s')) /\
     readBytePosition s' = readBytePosition s + Z.of_nat n /\
     readBitPosition s' = readBitPosition s) /\
  (length_ s <= readBytePosition s ->
   readBytes n s = (Normal (new_BitStream None), s)).
Proof.
  intros Hc Ho HB Hb. split; [|split].
  - intros H7.
    destruct (readBytes_loop_spec n (new_BitStream None) s Hc Ho H7 HB eq_refl eq_refl)
      as (val & s' & E & Hd & Hs & Hcnt & H7' & Hp).
    exists val, s'. unfold readBytes, length_. rewrite E.
    cbn [new_BitStream data app] in Hd. rewrite Hd.
    repeat split; assumption.
  - unfold length_. intros H7 Hlt Hw.
    assert (Hr : readable (consumed s) s)
      by (apply readable_consumed; (assumption || lia)).
    destruct (readBytes_loop_unaligned n (new_BitStream None) s (consumed s) [] Hr)
      as (val & s' & E & W & D & R).
    { unfold consumed. dlia. }
    { destruct Hw as [Hw|Hw]; [right; exact Hw | left; unfold consumed; lia]. }
    { exact written_fresh. }
    cbn [app] in W.
    exists val, s'. unfold readBytes. split; [exact E|].
    destruct (rd_at _ _ R) as [RB Rb]. unfold consumed in *.
    split; [|split; [exact W|split; [|split; [|split]]]].
    + pose proof (w_length _ _ W) as L.
      rewrite length_map, length_seqZ in L. dlia.
    + rewrite D. f_equal. dlia.
    + exact (rd_count _ _ R).
    + rewrite RB. dlia.
    + rewrite Rb. dlia.
  - unfold length_, readBytes. intros Hge. now apply readBytes_loop_past_end.
Qed.

Lemma readBytes_spec_witness :
  (exists val s',
     (readBit ;; readBytes 5) (new_BitStream (Some [0xAA; 0xBB])) = (Normal val, s') /\
     data val = [0x55; 0x76; 0; 0; 0] /\
     data s' = [0xAA; 0xBB; 0; 0; 0; 0] /\
     readBytePosition s' = 5 /\ readBitPosition s' = 6) /\
  (exists val s',
     readBytes 3 (new_BitStream (Some [0xAA; 0xBB])) = (Normal val, s') /\
     data val = [0xAA; 0xBB] /\ data s' = [0xAA; 0xBB] /\
     readBytePosition s' = 2).
Proof.
  assert (Ho : Forall octet [0xAA; 0xBB])
    by (repeat constructor; unfold octet; lia).
  split.
  - destruct (readBytes_spec 5 (mkBitStream [0xAA; 0xBB] 2 0 6 0 7 (Some 0xAA))
                eq_refl Ho ltac:(simpl; lia) ltac:(simpl; lia)) as (_ & H & _).
    destruct H as (val & s' & E & L & W & D & C & B & b);
      [simpl; lia | simpl; lia | left; reflexivity |].
    exists val, s'. split; [exact E|].
    split; [|split; [rewrite D; reflexivity | split; [exact B | exact b]]].
    vm_compute in E. injection E as <- _. reflexivity.
  - destruct (readBytes_spec 3 (new_BitStream (Some [0xAA; 0xBB]))
                eq_refl Ho ltac:(simpl; lia) ltac:(simpl; lia)) as (H & _).
    destruct (H eq_refl) as (val & s' & E & Dv & D & _ & B & _).
    exists val, s'. split; [exact E|]. split; [exact Dv|]. split; [exact D|].
    rewrite B, Dv. reflexivity.
Defined.

(** ** C10: [writeString] *)

Lemma charCodes_length s : length (charCodes s) = String.length s.
Proof. induction s; simpl; congruence. Qed.

Lemma charCodes_app s t : charCodes (s ++ t) = charCodes s ++ charCodes t.
Proof. induction s; simpl; congruence. Qed.

Lemma charCodes_octets s : Forall octet (charCodes s).
Proof.
  induction s as [|c s IH]; simpl; constructor; [|exact IH].
  unfold octet. pose proof (N_ascii_bounded c). lia.
Qed.

Lemma string_length_app s t :
  String.length (s ++ t) = (String.length s + String.length t)%nat.
Proof. induction s; simpl; congruence. Qed.

Lemma pad_loop_codes r : forall s,
  charCodes (pad_loop r s) = charCodes s ++ replicate r 0.
Proof.
  induction r as [|r IH]; intros s; cbn [pad_loop replicate].
  - now rewrite app_nil_r.
  - rewrite IH, charCodes_app, <- app_assoc. reflexivity.
Qed.

Lemma pad_loop_length r : forall s,
  String.length (pad_loop r s) = (String.length s + r)%nat.
Proof.
  induction r as [|r IH]; intros s; cbn [pad_loop].
  - lia.
  - rewrite IH, string_length_app. simpl. lia.
Qed.

(** Writing the octets [rest] one by one, the loop index standing at
    [length pre] in [pre ++ rest], appends them. *)
Lemma writeByte_each rest : forall pre s,
  Forall octet rest ->
  byteCount s = Z.of_nat (length (data s)) ->
  writeBitPosition s = 7 ->
  writeBytePosition s = Z.of_nat (length (data s)) ->
  for_upto (Z.of_nat (length pre)) (length rest)
    (fun i => writeByte (nth (Z.to_nat i) (pre ++ rest) 0)) s =
  (Normal tt,
   mkBitStream (data s ++ rest) (byteCount s + Z.of_nat (length rest))
     (readBytePosition s) (readBitPosition s)
     (writeBytePosition s + Z.of_nat (length rest)) 7 (byte s)).
Proof.
  induction rest as [|x rest IH]; intros pre s Ho Hc H7 Hw.
  - cbn [for_upto length]. unfold ret. rewrite app_nil_r, !Z.add_0_r, <- H7.
    now destruct s.
  - cbn [for_upto length]. unfold bind at 1.
    rewrite Nat2Z.id, nth_middle.
    rewrite writeByte_append by (assumption || now inversion Ho).
    replace (Z.of_nat (length pre) + 1) with (Z.of_nat (length (pre ++ [x])))
      by (rewrite length_app; simpl; lia).
    replace (pre ++ x :: rest) with ((pre ++ [x]) ++ rest)
      by (now rewrite <- app_assoc).
    rewrite IH; cbn [data byteCount readBytePosition readBitPosition
                     writeBytePosition writeBitPosition byte].
    + rewrite <- app_assoc. cbn [app]. rewrite Hc, Hw. do 2 f_equal; lia.
    + now inversion Ho.
    + rewrite length_app. simpl. lia.
    + reflexivity.
    + rewrite length_app. simpl. lia.
Qed.

Lemma writeString_padded str size s :
  byteCount s = Z.of_nat (length (data s)) ->
  writeBitPosition s = 7 ->
  writeBytePosition s = Z.of_nat (length (data s)) ->
  let str' := pad str (match size with None => 33 | Some n => n end) in
  writeString str size s =
  (Normal tt,
   mkBitStream (data s ++ charCodes str')
     (byteCount s + Z.of_nat (String.length str'))
     (readBytePosition s) (readBitPosition s)
     (writeBytePosition s + Z.of_nat (String.length str')) 7 (byte s)).
Proof.
  intros Hc H7 Hw str'. unfold writeString. fold str'. unfold charCodeAt.
  rewrite <- (charCodes_length str').
  exact (writeByte_each (charCodes str') [] s (charCodes_octets str') Hc H7 Hw).
Qed.

(** On any stream that holds a bit sequence, [writeString] adds the eight
    bits of each character code of the padded string, most significant
    first. *)
Lemma writeByte_each_written rest : forall pre bs s,
  Forall octet rest ->
  written bs s ->
  exists s',
    for_upto (Z.of_nat (length pre)) (length rest)
      (fun i => writeByte (nth (Z.to_nat i) (pre ++ rest) 0)) s = (Normal tt, s') /\
    written (bs ++ flat_map (fun c => bits_down c 7 8) rest) s'.
Proof.
  induction rest as [|x rest IH]; intros pre bs s Ho Hw.
  - exists s. cbn [for_upto length flat_map]. rewrite app_nil_r. now split.
  - cbn [for_upto length flat_map]. unfold bind at 1.
    rewrite Nat2Z.id, nth_middle. unfold writeByte.
    destruct (writeByte_loop_written 8 x bs s Hw) as (s1 & -> & W1 & _).
    rewrite loop_bits_octet in W1 by (inversion Ho; assumption).
    replace (Z.of_nat (length pre) + 1) with (Z.of_nat (length (pre ++ [x])))
      by (rewrite length_app; simpl; lia).
    replace (pre ++ x :: rest) with ((pre ++ [x]) ++ rest)
      by (now rewrite <- app_assoc).
    destruct (IH (pre ++ [x]) _ s1 ltac:(now inversion Ho) W1) as (s2 & E2 & W2).
    exists s2. rewrite <- app_assoc in W2. now split.
Qed.

Lemma writeString_written str size bs s :
  written bs s ->
  exists s',
    writeString str size s = (Normal tt, s') /\
    written (bs ++ flat_map (fun c => bits_down c 7 8)
                     (charCodes (pad str (match size with None => 33 | Some n => n end))))
            s'.
Proof.
  intros Hw. unfold writeString, charCodeAt.
  rewrite <- (charCodes_length (pad str _)).
  exact (writeByte_each_written _ [] bs s (charCodes_octets _) Hw).
Qed.

(** C10. For every string and every field width not larger than its
    length, [writeString] writes one octet per character of the string, in
    order, and so as many octets as the string has characters: nothing is
    truncated to the field width.  The width only matters when the string
    is shorter: the string is then followed by zero octets up to the
    width.  (Stated for a stream that satisfies the class invariant with
    its write cursor at the end of the buffer.) *)
Theorem writeString_no_truncation (str : string) (size : Z) (s : BitStream) :
  byteCount s = Z.of_nat (length (data s)) ->
  writeBitPosition s = 7 ->
  writeBytePosition s = Z.of_nat (length (data s)) ->
  exists s',
    writeString str (Some size) s = (Normal tt, s') /\
    length_ s' = length_ s + Z.max (Z.of_nat (String.length str)) size /\
    (size <= Z.of_nat (String.length str) ->
     data s' = data s ++ charCodes str) /\
    (Z.of_nat (String.length str) < size ->
     data s' = data s ++ charCodes str ++
               replicate (Z.to_nat (size - Z.of_nat (String.length str))) 0).
Proof.
  intros Hc H7 Hw. eexists. split; [apply writeString_padded; assumption|].
  unfold length_, pad. cbn [data byteCount].
  rewrite pad_loop_length, pad_loop_codes. split; [lia|]. split; intros H.
  - replace (Z.to_nat (size - Z.of_nat (String.length str))) with 0%nat by lia.
    cbn [replicate]. now rewrite app_nil_r.
  - reflexivity.
Qed.

Lemma writeString_no_truncation_witness :
  exists s',
    writeString "abc" (Some 2) (new_BitStream None) = (Normal tt, s') /\
    length_ s' = 0 + Z.max 3 2 /\
    (2 <= 3 -> data s' = [] ++ charCodes "abc") /\
    (3 < 2 -> data s' = [] ++ charCodes "abc" ++ replicate (Z.to_nat (2 - 3)) 0).
Proof.
  exact (writeString_no_truncation "abc" 2 (new_BitStream None)
           eq_refl eq_refl eq_refl).
Defined.

(** ** Bit fields selected with [&] and [>>] *)

Lemma ToInt32_small y : - 2 ^ 31 <= y < 2 ^ 31 -> Js.ToInt32 y = y.
Proof. intros H. unfold Js.ToInt32. rewrite Z.mod_small; lia. Qed.

Lemma ToInt32_testbit m j :
  0 <= j < 32 -> Z.testbit (Js.ToInt32 m) j = Z.testbit m j.
Proof.
  intros Hj.
  rewrite <- (Z.mod_pow2_bits_low (Js.ToInt32 m) 32 j) by lia.
  rewrite <- (Z.mod_pow2_bits_low m 32 j) by lia. f_equal.
  unfold Js.ToInt32. rewrite Zminus_mod_idemp_l. f_equal. lia.
Qed.

Lemma land_small a c : 0 <= c < 2 ^ 31 -> 0 <= Z.land a c < 2 ^ 31.
Proof.
  intros Hc.
  assert (E : Z.land a c = Z.land a c mod 2 ^ 31).
  { rewrite <- Z.land_ones, <- Z.land_assoc by lia.
    now rewrite (Z.land_ones c), Z.mod_small by lia. }
  rewrite E. apply Z.mod_pos_bound. lia.
Qed.

(** [(m & c) >> k] for a mask [c] of [w] ones starting at bit [k]: the
    [w]-bit field of [m] at bit [k]. *)
Lemma field_spec m c k w :
  0 <= c < 2 ^ 31 -> Js.shiftCount k = k -> 0 <= k -> 0 <= w -> k + w <= 32 ->
  Z.shiftr c k = Z.ones w ->
  0 <= Js.shr (Js.and m c) k < 2 ^ w /\
  forall i, 0 <= i < w ->
            Z.testbit (Js.shr (Js.and m c) k) i = Z.testbit m (i + k).
Proof.
  intros Hc Hk Hk0 Hw Hkw Hones.
  assert (E : Js.shr (Js.and m c) k = Z.shiftr (Js.ToInt32 m) k mod 2 ^ w).
  { unfold Js.shr, Js.and. rewrite Hk, (ToInt32_small c) by lia.
    rewrite ToInt32_small by (pose proof (land_small (Js.ToInt32 m) c Hc); lia).
    now rewrite Z.shiftr_land, Hones, Z.land_ones by lia. }
  rewrite E. split; [apply Z.mod_pos_bound; lia|].
  intros i Hi. rewrite Z.mod_pow2_bits_low, Z.shiftr_spec by lia.
  apply ToInt32_testbit. lia.
Qed.

(** [m & c] for a mask [c] of [w] low ones. *)
Lemma low_field_spec m c w :
  0 <= c < 2 ^ 31 -> 0 <= w <= 32 -> c = Z.ones w ->
  0 <= Js.and m c < 2 ^ w /\
  forall i, 0 <= i < w -> Z.testbit (Js.and m c) i = Z.testbit m i.
Proof.
  intros Hc Hw Hones.
  assert (E : Js.and m c = Js.ToInt32 m mod 2 ^ w).
  { unfold Js.and. rewrite (ToInt32_small c) by lia.
    now rewrite Hones, Z.land_ones by lia. }
  rewrite E. split; [apply Z.mod_pos_bound; lia|].
  intros i Hi. rewrite Z.mod_pow2_bits_low by lia.
  apply ToInt32_testbit. lia.
Qed.

(** ** C9: the float layout *)

Lemma writeFloat_emit_written sign exponent mantissa bs s :
  written bs s ->
  exists s', writeFloat_emit sign exponent mantissa s = (Normal tt, s') /\
             written (bs ++ float_layout sign exponent mantissa) s'.
Proof.
  intros Hw. unfold writeFloat_emit, writeByte, float_layout.
  destruct (low_field_spec mantissa 0xff 8) as [R1 B1]; [lia | lia | reflexivity |].
  destruct (field_spec mantissa 0xff00 8 8) as [R2 B2];
    [lia | reflexivity | lia | lia | lia | reflexivity |].
  destruct (low_field_spec exponent 0x01 1) as [R3 B3]; [lia | lia | reflexivity |].
  destruct (field_spec mantissa 0x7f0000 16 7) as [R4 B4];
    [lia | reflexivity | lia | lia | lia | reflexivity |].
  destruct (field_spec exponent 0xfe 1 7) as [R5 B5];
    [lia | reflexivity | lia | lia | lia | reflexivity |].
  destruct (writeByte_loop_written 8 (Js.and mantissa 0xff) bs s Hw)
    as (s1 & E1 & W1 & _).
  destruct (writeByte_loop_written 8 (Js.shr (Js.and mantissa 0xff00) 8) _ s1 W1)
    as (s2 & E2 & W2 & _).
  destruct (writeBit_written _ s2 (Js.and exponent 0x01 =? 1) W2)
    as (s3 & E3 & W3 & _).
  destruct (writeBits_written 7 (Js.shr (Js.and mantissa 0x7f0000) 16) _ s3 W3)
    as (s4 & E4 & W4 & _).
  destruct (writeBit_written _ s4 sign W4) as (s5 & E5 & W5 & _).
  destruct (writeBits_written 7 (Js.shr (Js.and exponent 0xfe) 1) _ s5 W5)
    as (s6 & E6 & W6 & _).
  exists s6. unfold bind. rewrite E1, E2, E3, E4, E5, E6.
  split; [reflexivity|].
  rewrite loop_bits_octet in W6 by lia.
  rewrite loop_bits_octet in W6 by (change (2 ^ 8) with 256 in R2; lia).
  rewrite !writeBits_bits_7 in W6
    by (change (2 ^ 7) with 128 in R4, R5; lia).
  rewrite (bits_down_shift 8 (Js.and mantissa 0xff) mantissa 7 0) in W6
    by (intros i Hi; rewrite Z.add_0_r; apply B1; lia).
  rewrite (bits_down_shift 8 (Js.shr (Js.and mantissa 0xff00) 8) mantissa 7 8) in W6
    by (intros i Hi; apply B2; lia).
  rewrite (bits_down_shift 7 (Js.shr (Js.and mantissa 0x7f0000) 16) mantissa 6 16)
    in W6 by (intros i Hi; apply B4; lia).
  rewrite (bits_down_shift 7 (Js.shr (Js.and exponent 0xfe) 1) exponent 6 1) in W6
    by (intros i Hi; apply B5; lia).
  assert (E0 : (Js.and exponent 0x01 =? 1) = Z.testbit exponent 0).
  { rewrite <- (B3 0) by lia. change (2 ^ 1) with 2 in R3.
    assert (Hc : Js.and exponent 1 = 0 \/ Js.and exponent 1 = 1) by lia.
    destruct Hc as [-> | ->]; reflexivity. }
  rewrite E0 in W6. cbn [Z.add] in W6.
  repeat rewrite <- app_assoc in W6. exact W6.
Qed.

(** *** The floating-point prelude *)

Section FloatPrelude.

Local Open Scope Q_scope.

Lemma inject_pow2_pos x : (0 <= x)%Z -> 0 < inject_Z (2 ^ x).
Proof. intros H. unfold Qlt. simpl. pose proof (Z.pow_pos_nonneg 2 x). lia. Qed.

Lemma pow2_pos e : 0 < pow2 e.
Proof.
  unfold pow2. destruct (Z.leb_spec 0 e).
  - now apply inject_pow2_pos.
  - apply Qinv_lt_0_compat, inject_pow2_pos. lia.
Qed.

Lemma pow2_sub x y :
  (0 <= x)%Z -> (0 <= y)%Z -> pow2 (x - y) == inject_Z (2 ^ x) / inject_Z (2 ^ y).
Proof.
  intros Hx Hy.
  pose proof (inject_pow2_pos x Hx) as Px. pose proof (inject_pow2_pos y Hy) as Py.
  unfold pow2. destruct (Z.leb_spec 0 (x - y)) as [H|H].
  - replace x with ((x - y) + y)%Z at 2 by lia.
    rewrite Z.pow_add_r, inject_Z_mult by lia.
    field. intros E. rewrite E in Py. discriminate.
  - replace (2 ^ y)%Z with (2 ^ (- (x - y)) * 2 ^ x)%Z
      by (rewrite <- Z.pow_add_r by lia; f_equal; lia).
    rewrite inject_Z_mult.
    pose proof (inject_pow2_pos (- (x - y)) ltac:(lia)) as Pd.
    field. split; intros E; [rewrite E in Px | rewrite E in Pd]; discriminate.
Qed.

Lemma pow2_succ e : pow2 (e + 1) == 2 * pow2 e.
Proof.
  replace (e + 1)%Z with (Z.succ (Z.max 0 e) - Z.max 0 (- e))%Z by lia.
  replace e with (Z.max 0 e - Z.max 0 (- e))%Z at 3 by lia.
  rewrite !pow2_sub by lia. rewrite Z.pow_succ_r, inject_Z_mult by lia.
  pose proof (inject_pow2_pos (Z.max 0 (- e)) ltac:(lia)) as P.
  change (inject_Z 2) with 2. field. intros E. rewrite E in P. discriminate.
Qed.

Lemma pow2_add a b : pow2 (a + b) == pow2 a * pow2 b.
Proof.
  replace (a + b)%Z
    with ((Z.max 0 a + Z.max 0 b) - (Z.max 0 (- a) + Z.max 0 (- b)))%Z by lia.
  replace a with (Z.max 0 a - Z.max 0 (- a))%Z at 3 by lia.
  replace b with (Z.max 0 b - Z.max 0 (- b))%Z at 3 by lia.
  rewrite !pow2_sub by lia. rewrite !Z.pow_add_r, !inject_Z_mult by lia.
  pose proof (inject_pow2_pos (Z.max 0 (- a)) ltac:(lia)) as Pa.
  pose proof (inject_pow2_pos (Z.max 0 (- b)) ltac:(lia)) as Pb.
  field. split; intros E; [rewrite E in Pb | rewrite E in Pa]; discriminate.
Qed.

Lemma pow2_le_mono a b : (a <= b)%Z -> pow2 a <= pow2 b.
Proof.
  intros H. replace b with (a + (b - a))%Z by lia. rewrite pow2_add.
  rewrite <- (Qmult_1_r (pow2 a)) at 1.
  apply Qmult_le_l; [apply pow2_pos|].
  unfold pow2. destruct (Z.leb_spec 0 (b - a)); [|lia].
  unfold Qle. simpl. pose proof (Z.pow_pos_nonneg 2 (b - a)). lia.
Qed.

(** [exact_log2_floor q] is the integer [e] with [2^e <= q < 2^(e+1)]. *)
Lemma exact_log2_floor_spec q :
  0 < q -> pow2 (exact_log2_floor q) <= q /\ q < pow2 (exact_log2_floor q + 1).
Proof.
  intros Hq. destruct q as [a b]. unfold exact_log2_floor. cbn [Qnum Qden].
  assert (Ha : (0 < a)%Z) by (unfold Qlt in Hq; simpl in Hq; lia).
  pose proof (Z.log2_spec a Ha) as La.
  pose proof (Z.log2_spec (Zpos b) ltac:(lia)) as Lb.
  pose proof (Z.log2_nonneg a) as Na.
  pose proof (Z.log2_nonneg (Zpos b)) as Nb.
  set (la := Z.log2 a) in *. set (lb := Z.log2 (Zpos b)) in *.
  assert (Up : a # b < pow2 (la - lb + 1)).
  { replace (la - lb + 1)%Z with (Z.succ la - lb)%Z by lia.
    rewrite pow2_sub by lia.
    apply Qlt_shift_div_l; [apply inject_pow2_pos; lia|].
    unfold Qlt, Qmult, inject_Z. cbn [Qnum Qden].
    rewrite ?Pos.mul_1_r, ?Z.mul_1_r.
    pose proof (Z.pow_pos_nonneg 2 lb). nia. }
  assert (Lo : pow2 (la - lb - 1) <= a # b).
  { replace (la - lb - 1)%Z with (la - Z.succ lb)%Z by lia.
    rewrite pow2_sub by lia.
    apply Qle_shift_div_r; [apply inject_pow2_pos; lia|].
    unfold Qle, Qmult, inject_Z. cbn [Qnum Qden].
    rewrite ?Pos.mul_1_r, ?Z.mul_1_r.
    pose proof (Z.pow_pos_nonneg 2 la). nia. }
  destruct (Qle_bool (pow2 (la - lb)) (a # b)) eqn:E.
  - apply Qle_bool_iff in E. split; assumption.
  - split; [exact Lo|].
    replace (la - lb - 1 + 1)%Z with (la - lb)%Z by lia.
    apply Qnot_le_lt. intros H. apply Qle_bool_iff in H. congruence.
Qed.

(** The floor of the true logarithm is within the accuracy asked of the
    platform. *)
Lemma exact_log2_floor_accurate x : 0 < x -> log2_accurate exact_log2_floor x.
Proof.
  intros Hx. destruct (exact_log2_floor_spec x Hx) as [Lo Hi].
  pose proof (pow2_pos (exact_log2_floor x)) as P0.
  pose proof (pow2_pos (exact_log2_floor x + 1)) as P1.
  split.
  - eapply Qle_trans; [|exact Lo].
    rewrite <- (Qmult_1_r (pow2 (exact_log2_floor x))) at 2.
    apply Qmult_le_l; [exact P0|]. discriminate.
  - eapply Qlt_le_trans; [exact Hi|].
    rewrite <- (Qmult_1_r (pow2 (exact_log2_floor x + 1))) at 1.
    apply Qmult_le_l; [exact P1|]. discriminate.
Qed.

(** For a logarithm that is [log2_accurate] the scaled fraction beyond the
    leading 1 takes 23 bits, or is 2^23 or 2^23 + 1: the first when
    rounding up carries or the floor is one too small, the second only
    when the floor is one too small. *)
Lemma mantissa_range q e :
  pow2 e * (1 - (1 # 1099511627776)) <= q ->
  q < pow2 (e + 1) * (1 + (1 # 1099511627776)) ->
  (0 <= Qceiling ((q / pow2 e - 1) / (1 # 8388608)) <= 8388609)%Z.
Proof.
  intros Hlo Hhi. pose proof (pow2_pos e) as Pe.
  assert (H1 : 1 - (1 # 1099511627776) <= q / pow2 e).
  { apply Qle_shift_div_l; [exact Pe|]. now rewrite Qmult_comm. }
  assert (H2 : q / pow2 e < 2 * (1 + (1 # 1099511627776))).
  { apply Qlt_shift_div_r; [exact Pe|].
    rewrite pow2_succ in Hhi. eapply Qlt_le_trans; [exact Hhi|].
    apply Qle_lteq. right. ring. }
  set (x := q / pow2 e) in *.
  set (y := (x - 1) / (1 # 8388608)).
  assert (E : y == (x - 1) * inject_Z 8388608).
  { unfold y. change (inject_Z 8388608) with (8388608 # 1). field. }
  pose proof (Qle_ceiling y) as C1. pose proof (Qceiling_lt y) as C2.
  split.
  - assert (L : inject_Z (-1) < inject_Z (Qceiling y)).
    { eapply Qlt_le_trans; [|exact C1]. rewrite E.
      apply Qlt_le_trans with (y := (- (1 # 1099511627776)) * inject_Z 8388608);
        [reflexivity|].
      apply Qmult_le_compat_r; [|discriminate].
      apply (Qplus_le_l _ _ 1). ring_simplify. ring_simplify in H1. exact H1. }
    rewrite <- Zlt_Qlt in L. lia.
  - assert (U : inject_Z (Qceiling y - 1) < inject_Z 8388609).
    { eapply Qlt_trans; [exact C2|]. rewrite E.
      apply Qlt_le_trans
        with (y := (2 * (1 + (1 # 1099511627776)) - 1) * inject_Z 8388608);
        [|discriminate].
      apply Qmult_lt_compat_r; [reflexivity|].
      apply (Qplus_lt_l _ _ 1). ring_simplify. ring_simplify in H2. exact H2. }
    rewrite <- Zlt_Qlt in U. lia.
Qed.

Lemma Qabs_positive n : ~ n == 0 -> 0 < Qabs n.
Proof.
  intros H. destruct n as [[|p|p] d]; [|reflexivity|reflexivity].
  exfalso. apply H. reflexivity.
Qed.

(** 3.14 is far from a power of two: every accurate logarithm has the
    floor 1 there. *)
Lemma log2_floor_3_14 lg :
  log2_accurate lg (Qabs js_3_14) -> lg (Qabs js_3_14) = 1%Z.
Proof.
  intros [Lo Hi].
  set (e := lg (Qabs js_3_14)) in *.
  destruct (Z.lt_trichotomy e 1) as [Hlt | [Heq | Hgt]]; [|exact Heq|]; exfalso.
  - pose proof (pow2_le_mono (e + 1) 1 ltac:(lia)) as P.
    apply (Qlt_irrefl (Qabs js_3_14)).
    eapply Qlt_le_trans; [exact Hi|].
    apply Qle_trans with (y := pow2 1 * (1 + (1 # 1099511627776)));
      [|vm_compute; discriminate].
    apply Qmult_le_compat_r; [exact P | discriminate].
  - pose proof (pow2_le_mono 2 e ltac:(lia)) as P.
    apply (Qlt_irrefl (Qabs js_3_14)).
    eapply Qlt_le_trans; [|exact Lo].
    apply Qlt_le_trans with (y := pow2 2 * (1 - (1 # 1099511627776)));
      [vm_compute; reflexivity|].
    apply Qmult_le_compat_r; [exact P | discriminate].
Qed.

End FloatPrelude.

(** At the double just below 8 a logarithm that rounds to 3 makes
    [writeFloat] emit the encoding of 8. *)
Example writeFloat_below_8 (log2_floor : Q -> Z) :
  log2_floor (Qabs js_below_8) = 3 ->
  data (snd (writeFloat log2_floor js_below_8 (new_BitStream None))) =
  [0x00; 0x00; 0x00; 0x41].
Proof.
  intros H. unfold writeFloat, float_exponent, float_mantissa. rewrite H.
  vm_compute. reflexivity.
Qed.

(** C9. [writeFloat] emits its 32 bits in this order: mantissa bits 7..0
    and 15..8 (the low 16 mantissa bits as two little-endian octets),
    exponent bit 0, mantissa bits 22..16, the sign bit, exponent bits 7..1.
    The exponent written is [e + 127] for [e = Math.floor(Math.log2(|n|))]
    as the platform computes it, and the mantissa is the fraction of
    [|n| / 2^e] beyond its leading 1, scaled by 2^23 and rounded up; it is
    at most 2^23 + 1.  This holds for every [n <> 0] at which the
    platform's logarithm is [log2_accurate] and has a floor between -1074
    and 1023.  Wherever the logarithm is accurate at 3.14,
    [writeFloat(3.14)] on a fresh stream produces the octets C3 F5 48 40. *)
Theorem writeFloat_layout (log2_floor : Q -> Z) :
  (forall n : Q,
     ~ (n == 0)%Q ->
     log2_accurate log2_floor (Qabs n) ->
     let e := log2_floor (Qabs n) in
     -1074 <= e <= 1023 ->
     exists (m : Z) (s' : BitStream),
       m = Qceiling ((Qabs n / pow2 e - 1) / (1 # 8388608)) /\
       0 <= m <= 8388609 /\
       writeFloat log2_floor n (new_BitStream None) = (Normal tt, s') /\
       written (float_layout (Qnum n <? 0) (e + 127) m) s') /\
  (log2_accurate log2_floor (Qabs js_3_14) ->
   writeFloat log2_floor js_3_14 (new_BitStream None) =
     (Normal tt, mkBitStream [0xC3; 0xF5; 0x48; 0x40] 4 0 7 4 7 None)).
Proof.
  split.
  - intros n Hn [Hlo Hhi] e He. fold e in Hlo, Hhi.
    assert (Em : float_mantissa log2_floor n =
                 Qceiling ((Qabs n / pow2 e - 1) / (1 # 8388608))).
    { unfold float_mantissa. fold e.
      destruct (Z.ltb_spec 1023 e); [lia|].
      destruct (Z.ltb_spec e (-1074)); [lia|]. reflexivity. }
    destruct (writeFloat_emit_written (float_sign n) (float_exponent log2_floor n)
                (float_mantissa log2_floor n) [] fresh written_fresh)
      as (s' & E & W).
    exists (float_mantissa log2_floor n), s'.
    split; [exact Em|].
    split; [rewrite Em; exact (mantissa_range _ _ Hlo Hhi)|].
    split; [|exact W].
    unfold writeFloat. destruct (Qeq_bool n 0) eqn:E0; [|exact E].
    apply Qeq_bool_iff in E0. contradiction.
  - intros Hacc. pose proof (log2_floor_3_14 log2_floor Hacc) as H.
    unfold writeFloat, float_exponent, float_mantissa. rewrite H.
    vm_compute. reflexivity.
Qed.

Lemma writeFloat_layout_witness :
  (~ (js_below_8 == 0)%Q /\ log2_accurate (fun _ => 3) (Qabs js_below_8) /\
   exists s' : BitStream,
     writeFloat (fun _ => 3) js_below_8 (new_BitStream None) = (Normal tt, s') /\
     written (float_layout false (3 + 127) 0) s' /\
     data s' = [0x00; 0x00; 0x00; 0x41]) /\
  (log2_accurate (fun _ => 1) (Qabs js_3_14) /\
   writeFloat (fun _ => 1) js_3_14 (new_BitStream None) =
     (Normal tt, mkBitStream [0xC3; 0xF5; 0x48; 0x40] 4 0 7 4 7 None)).
Proof.
  assert (H : ~ (js_below_8 == 0)%Q) by (unfold Qeq; simpl; lia).
  assert (A8 : log2_accurate (fun _ => 3) (Qabs js_below_8))
    by (split; vm_compute; [discriminate | reflexivity]).
  assert (A3 : log2_accurate (fun _ => 1) (Qabs js_3_14))
    by (split; vm_compute; [discriminate | reflexivity]).
  split.
  - split; [exact H|]. split; [exact A8|].
    destruct (proj1 (writeFloat_layout (fun _ => 3)) js_below_8 H A8 ltac:(lia))
      as (m & s' & Em & _ & E & W).
    exists s'. split; [exact E|].
    assert (E0 : m = 0) by (rewrite Em; vm_compute; reflexivity).
    rewrite E0 in W. split; [exact W|].
    vm_compute in E. injection E as <-. reflexivity.
  - split; [exact A3|].
    exact (proj2 (writeFloat_layout (fun _ => 1)) A3).
Defined.

(** ** C1: compressed integers *)

(** Among the values that fit the low octet, the round-trip loses exactly
    the non-zero nibbles 1..15, for both sizes. *)
Lemma compressed_low_octet_roundtrip (v : Z) :
  0 <= v < 256 ->
  forall size, size = 2 \/ size = 4 ->
  (exists r, compressed_roundtrip v size = Normal r /\ little_endian r = v) <->
  v = 0 \/ 16 <= v.
Proof.
  intros Hv size Hsize.
  assert (H : compressed_low_check size v = true).
  { assert (H2 : forallb (compressed_low_check 2) (seqZ 0 256) = true)
      by (vm_compute; reflexivity).
    assert (H4 : forallb (compressed_low_check 4) (seqZ 0 256) = true)
      by (vm_compute; reflexivity).
    destruct Hsize as [-> | ->];
      [exact (forallb_seqZ _ 0 256 H2 v ltac:(lia))
      |exact (forallb_seqZ _ 0 256 H4 v ltac:(lia))]. }
  unfold compressed_low_check in H. apply eqb_prop in H.
  split.
  - intros (r & E & Hr). rewrite E in H.
    apply Z.eqb_eq in Hr. rewrite Hr in H. symmetry in H.
    apply orb_true_iff in H. lia.
  - intros Hok.
    assert (Ht : (v =? 0) || (16 <=? v) = true) by (apply orb_true_iff; lia).
    rewrite Ht in H. destruct (compressed_roundtrip v size) as [r|e]; [|discriminate].
    exists r. split; [reflexivity|]. now apply Z.eqb_eq.
Qed.

(** C1 (the code at failing inputs). The value 5 written compressed in 2
    octets is read back as F0 00, that is 240: the decoder turns every
    non-zero nibble into F0.  The value 0x100 written compressed in 4
    octets is read back as 00 00 00 01, that is 0x01000000: the decoder
    puts the zero octets before the literal ones.  The value 0 does
    round-trip, on the shortest path: one flag bit 1 per octet and the
    nibble 0000. *)
Theorem compressed_roundtrip_fails :
  compressed_roundtrip 5 2 = Normal [0xF0; 0] /\
  little_endian [0xF0; 0] = 240 /\
  compressed_roundtrip 0x100 4 = Normal [0; 0; 0; 1] /\
  little_endian [0; 0; 0; 1] = 0x01000000 /\
  compressed_roundtrip 0 2 = Normal [0; 0] /\
  compressed_roundtrip 0 4 = Normal [0; 0; 0; 0] /\
  (exists s', writeCompressed 0 2 (new_BitStream None) = (Normal tt, s') /\
              written [true; true; false; false; false; false] s') /\
  (exists s', writeCompressed 0 4 (new_BitStream None) = (Normal tt, s') /\
              written [true; true; true; true; false; false; false; false] s').
Proof.
  repeat split; try (vm_compute; reflexivity).
  - destruct (writeBit_all_written [true; true; false; false; false; false] []
                fresh written_fresh) as (s' & E & W & _).
    exists s'. split; [|exact W]. rewrite <- E. vm_compute. reflexivity.
  - destruct (writeBit_all_written
                [true; true; true; true; false; false; false; false] []
                fresh written_fresh) as (s' & E & W & _).
    exists s'. split; [|exact W]. rewrite <- E. vm_compute. reflexivity.
Qed.

(** ** C4: the buffer can shrink *)

(** C4 (the code at a failing input). A stream pre-loaded with the three
    octets 01 02 03 has length 3; after a single [writeBit(true)] its
    buffer is the one octet 80 and its length is 1. *)
Theorem writeBit_shrinks_preloaded :
  length_ (new_BitStream (Some [1; 2; 3])) = 3 /\
  writeBit (Js.Boolean true) (new_BitStream (Some [1; 2; 3])) =
    (Normal tt, mkBitStream [0x80] 1 0 7 0 6 (Some 1)).
Proof. split; vm_compute; reflexivity. Qed.

(** In general the rebuilt buffer has [writeBytePosition + 1] octets,
    whatever its length was. *)
Lemma writeBit_at7_length s (b : bool) :
  writeBitPosition s = 7 -> 0 <= writeBytePosition s ->
  length_ (snd (writeBit (Js.Boolean b) s)) = writeBytePosition s + 1.
Proof. intros H7 Hw. now rewrite writeBit_at7. Qed.

(** On a stream that was only written to since it was constructed empty,
    [writeBit] does what the spec describes: the length grows by exactly
    one when the write cursor starts an octet and stays the same otherwise. *)
Lemma writeBit_length_written bs s (b : bool) :
  written bs s ->
  length_ (snd (writeBit (Js.Boolean b) s)) =
  length_ s + (if writeBitPosition s =? 7 then 1 else 0).
Proof.
  intros [Hlen Hcount Hbyte Hbit Hrange Hbits]. unfold length_.
  destruct (Z.eqb_spec (writeBitPosition s) 7) as [H7|H7].
  - rewrite writeBit_at7 by dlia. cbn [snd byteCount]. dlia.
  - rewrite writeBit_below7 by (try apply Hrange; dlia). cbn [snd byteCount]. lia.
Qed.

(** ** C6: signed bytes *)

Lemma signed_check_all : forallb signed_check (seqZ (-127) 255) = true.
Proof. vm_compute. reflexivity. Qed.

(** C6 (what the code does). For every [n] with [-127 <= n <= 127],
    [writeSignedByte(n)] emits 8 bits, the sign bit followed by the seven
    bits 7..1 of [|n|]: the lowest bit of the magnitude is never written.
    [readSignedChar] after it on a fresh stream returns [n] halved towards
    zero, not [n]. *)
Theorem writeSignedByte_halves (n : Z) :
  -127 <= n <= 127 ->
  signed_roundtrip n =
    (Normal (Z.quot n 2), [(if n <? 0 then 128 else 0) + Z.abs n / 2], 8).
Proof.
  intros Hn.
  pose proof (forallb_seqZ _ _ _ signed_check_all n ltac:(lia)) as H.
  unfold signed_check in H.
  destruct (signed_roundtrip n) as [[[v|e] [|b [|? ?]]] count]; try discriminate.
  apply andb_true_iff in H. destruct H as [H Hc].
  apply andb_true_iff in H. destruct H as [Hv Hb].
  apply Z.eqb_eq in Hv, Hb, Hc. now subst.
Qed.

Lemma writeSignedByte_halves_witness :
  -127 <= 1 <= 127 /\ signed_roundtrip 1 = (Normal 0, [0], 8).
Proof. split; [lia|]. exact (writeSignedByte_halves 1 ltac:(lia)). Defined.

(** ** C7: [allRead] *)

(** C7 (the code at failing inputs). After writing 4 bits and reading
    those 4 bits back the read cursor has consumed all [bits()] = 4 bits,
    yet [allRead()] is false.  After writing one octet and reading nothing,
    [bits()] = 8 and nothing is consumed, yet [allRead()] is true. *)
Theorem allRead_miscounts :
  (exists v s,
     (writeBits 0x0E 4 ;; readBits 4) (new_BitStream None) = (Normal v, s) /\
     bits s = 4 /\ consumed s = 4 /\ allRead s = false) /\
  (exists s,
     writeByte 0xAA (new_BitStream None) = (Normal tt, s) /\
     bits s = 8 /\ consumed s = 0 /\ allRead s = true).
Proof.
  split.
  - eexists _, _. split; [vm_compute; reflexivity|]. now vm_compute.
  - eexists. split; [vm_compute; reflexivity|]. now vm_compute.
Qed.

(** * Further properties of the class *)

(** ** More of the repository's tests, on the model

    [writeByteOffset], [writeBoolean] and [writeChar] of
    [src/test/BitStreamTest.js].  (Its [writeLongLong] test passes one
    BigInt where the method takes two numbers.) *)

Example test_writeByteOffset :
  let s1 := snd (writeByteOffset 0xAA 0 (new_BitStream (Some [0]))) in
  let s2 := snd (writeByteOffset 0xAA 2 s1) in
  data s1 = [0xAA] /\ Buffer.readUInt8 (data s2) 2 = Normal 0xAA /\
  data s2 = [0; 0; 0xAA].
Proof. repeat split; vm_compute; reflexivity. Qed.

Example test_writeBoolean :
  let s1 := snd (writeBoolean (Js.Boolean true) (new_BitStream (Some [0]))) in
  let s2 := snd (writeBoolean (Js.Boolean false) s1) in
  data s1 = [0x01] /\ data s2 = [0x01; 0x00].
Proof. split; vm_compute; reflexivity. Qed.

Example test_writeChar :
  data (snd (writeChar 0xAA (new_BitStream (Some [0])))) = [0xAA].
Proof. vm_compute. reflexivity. Qed.

(** ** Reading and writing bit sequences *)

Lemma readBits_loop_written bs k : forall i val s,
  written bs s -> read_at i s -> 0 <= i -> i + Z.of_nat k <= Z.of_nat (length bs) ->
  exists s', readBits_loop k val s =
               (Normal (bits_value (take k (drop (Z.to_nat i) bs)) val), s') /\
             written bs s' /\ read_at (i + Z.of_nat k) s' /\
             writeBytePosition s' = writeBytePosition s /\
             writeBitPosition s' = writeBitPosition s /\ data s' = data s.
Proof.
  induction k as [|k IH]; intros i val s Hw Hr Hi Hk.
  - exists s. rewrite Z.add_0_r, take_0. split; [reflexivity|]. split; [exact Hw|]. split; [exact Hr|]. now repeat split.
  - destruct (readBit_written bs s i Hw Hr ltac:(lia)) as (s1 & E1 & Hw1 & Hr1).
    assert (F1 : writeBytePosition s1 = writeBytePosition s /\
                 writeBitPosition s1 = writeBitPosition s /\ data s1 = data s).
    { destruct Hw as [Hlen Hcount Hbyte Hbit Hrange Hbits]. destruct Hr as [HrB Hrb].
      rewrite readBit_in in E1; try apply Hrange; try dlia.
      inversion E1; subst s1. now cbn. }
    destruct (IH (i + 1) (Js.or (Js.shl val 1) (Z.b2z (nth (Z.to_nat i) bs false)))
                 s1 Hw1 Hr1 ltac:(lia) ltac:(lia))
      as (s2 & E2 & Hw2 & Hr2 & F2).
    exists s2. rewrite readBits_loop_S. unfold bind. rewrite E1, E2.
    replace (i + 1 + Z.of_nat k) with (i + Z.of_nat (S k)) in Hr2 by lia.
    split; [|split; [exact Hw2|split; [exact Hr2|]]].
    + do 2 f_equal.
      destruct (lookup_lt_is_Some_2 bs (Z.to_nat i) ltac:(lia)) as [x Hx].
      rewrite (drop_S _ _ _ Hx). rewrite firstn_cons. cbn [bits_value fold_left].
      rewrite nth_lookup, Hx. cbn [default].
      replace (Z.to_nat (i + 1)) with (S (Z.to_nat i)) by lia. reflexivity.
    + destruct F1 as (? & ? & ?), F2 as (? & ? & ?). repeat split; congruence.
Qed.

Lemma readBits_written bs k i s :
  written bs s -> read_at i s -> 0 <= i -> i + Z.of_nat k <= Z.of_nat (length bs) ->
  exists s', readBits k s =
               (Normal (bits_value (take k (drop (Z.to_nat i) bs)) 0), s') /\
             written bs s' /\ read_at (i + Z.of_nat k) s' /\
             writeBytePosition s' = writeBytePosition s /\
             writeBitPosition s' = writeBitPosition s /\ data s' = data s.
Proof.
  intros Hw Hr Hi Hk. unfold readBits. run_monad.
  assert (Hgen : forall b,
            written bs (mkBitStream (data s) (byteCount s) (readBytePosition s)
                          (readBitPosition s) (writeBytePosition s)
                          (writeBitPosition s) b) /\
            read_at i (mkBitStream (data s) (byteCount s) (readBytePosition s)
                          (readBitPosition s) (writeBytePosition s)
                          (writeBitPosition s) b)).
  { intros b. destruct Hw, Hr. split; [split|split]; assumption. }
  destruct (Z.ltb_spec (readBytePosition s) (byteCount s)) as [Hlt|Hge].
  - run_monad. unfold Buffer.readUInt8.
    destruct Hw as [Hlen Hcount Hbyte Hbit Hrange Hbits]. destruct Hr as [HrB Hrb].
    destruct (Z.leb_spec 0 (readBytePosition s)); [|dlia].
    destruct (Z.ltb_spec (readBytePosition s) (Z.of_nat (length (data s)))); [|lia].
    cbn [andb].
    destruct (Hgen (Some (nth (Z.to_nat (readBytePosition s)) (data s) 0))) as [W R].
    apply (readBits_loop_written bs k i 0 _ W R Hi Hk).
  - run_monad. destruct s. cbn in *. 
    apply (readBits_loop_written bs k i 0 _ Hw Hr Hi Hk).
Qed.

Lemma ToInt32_range n : - 2 ^ 31 <= Js.ToInt32 n < 2 ^ 31.
Proof. unfold Js.ToInt32. pose proof (Z.mod_pos_bound (n + 2 ^ 31) (2 ^ 32)). lia. Qed.

Lemma shiftCount_small j : 0 <= j < 32 -> Js.shiftCount j = j.
Proof.
  intros H. unfold Js.shiftCount, Js.ToUint32. rewrite Z.mod_small by lia.
  change 31 with (Z.ones 5). rewrite Z.land_ones by lia. apply Z.mod_small. lia.
Qed.

Lemma shl1_small v : 0 <= v < 2 ^ 30 -> Js.shl v 1 = 2 * v.
Proof.
  intros H. unfold Js.shl. rewrite (shiftCount_small 1), (ToInt32_small v) by lia.
  rewrite Z.shiftl_mul_pow2 by lia. rewrite ToInt32_small; lia.
Qed.

Lemma or_low_bit v (b : bool) :
  0 <= v < 2 ^ 30 -> Js.or (2 * v) (Z.b2z b) = 2 * v + Z.b2z b.
Proof.
  intros H. unfold Js.or.
  rewrite (ToInt32_small (2 * v)), (ToInt32_small (Z.b2z b)) by (destruct b; simpl; lia).
  symmetry. apply Z.add_nocarry_lor. destruct b; cbn [Z.b2z].
  - change 1 with (Z.ones 1). rewrite Z.land_ones by lia.
    rewrite Z.mul_comm. apply Z.mod_mul. lia.
  - apply Z.land_0_r.
Qed.

Lemma bits_value_bits_down k : forall x hi v,
  0 <= hi - Z.of_nat k + 1 -> 0 <= v -> (v + 1) * 2 ^ Z.of_nat k <= 2 ^ 31 ->
  bits_value (bits_down x hi k) v =
  v * 2 ^ Z.of_nat k + (x / 2 ^ (hi - Z.of_nat k + 1)) mod 2 ^ Z.of_nat k.
Proof.
  induction k as [|k IH]; intros x hi v Hlo Hv Hb.
  - cbn [bits_down bits_value fold_left]. change (2 ^ Z.of_nat 0) with 1.
    rewrite Z.mod_1_r. lia.
  - cbn [bits_down]. unfold bits_value. cbn [fold_left]. fold (bits_value (bits_down x (hi - 1) k)).
    assert (P : 0 < 2 ^ Z.of_nat k) by (apply Z.pow_pos_nonneg; lia).
    assert (E : 2 ^ Z.of_nat (S k) = 2 ^ Z.of_nat k * 2)
      by (rewrite Nat2Z.inj_succ, Z.pow_succ_r; lia).
    rewrite E in Hb.
    assert (Hv30 : v < 2 ^ 30) by (change (2 ^ 31) with (2 ^ 30 * 2) in Hb; nia).
    rewrite shl1_small, or_low_bit by lia.
    assert (Hbit : 0 <= Z.b2z (Z.testbit x hi) <= 1) by (destruct (Z.testbit x hi); simpl; lia).
    rewrite IH by (try lia; nia).
    replace (hi - 1 - Z.of_nat k + 1) with (hi - Z.of_nat (S k) + 1) by lia.
    set (lo := hi - Z.of_nat (S k) + 1) in *.
    set (y := x / 2 ^ lo).
    assert (Hb0 : Z.b2z (Z.testbit x hi) = (y / 2 ^ Z.of_nat k) mod 2).
    { rewrite <- Z.testbit_spec' by lia. unfold y.
      rewrite Z.div_pow2_bits by lia. do 2 f_equal. lia. }
    rewrite Hb0, E. rewrite Z.rem_mul_r by lia. lia.
Qed.

Lemma bit_test n j :
  0 <= j < 32 -> (Js.and (Js.shr n j) 0x01 =? 1) = Z.testbit n j.
Proof.
  intros Hj. rewrite <- (ToInt32_testbit n j) by lia.
  unfold Js.shr, Js.and. rewrite shiftCount_small by lia.
  pose proof (ToInt32_range n) as Hr. set (a := Js.ToInt32 n) in *.
  assert (Hy : - 2 ^ 31 <= Z.shiftr a j < 2 ^ 31).
  { rewrite Z.shiftr_div_pow2 by lia.
    assert (0 < 2 ^ j) by (apply Z.pow_pos_nonneg; lia).
    split.
    - apply Z.div_le_lower_bound; [lia|]. nia.
    - apply Z.div_lt_upper_bound; [lia|]. nia. }
  rewrite (ToInt32_small (Z.shiftr a j)) by lia. change (Js.ToInt32 1) with (Z.ones 1).
  rewrite Z.land_ones by lia. change (2 ^ 1) with 2.
  rewrite <- Z.bit0_eqb, Z.shiftr_spec by lia. f_equal.
Qed.

Lemma writeBits_bits_any n k :
  (k <= 32)%nat -> writeBits_bits n k = bits_down n (Z.of_nat k - 1) k.
Proof.
  induction k as [|k IH]; intros Hk; [reflexivity|].
  cbn [writeBits_bits bits_down]. rewrite bit_test by lia. f_equal.
  rewrite IH by lia. f_equal. lia.
Qed.

(* ---- value-level fields ---- *)

Lemma testbit_field n k w i :
  0 <= k -> 0 <= w -> 0 <= i ->
  Z.testbit ((n / 2 ^ k) mod 2 ^ w) i = (i <? w) && Z.testbit n (i + k).
Proof.
  intros Hk Hw Hi. destruct (Z.ltb_spec i w).
  - rewrite Z.mod_pow2_bits_low, Z.div_pow2_bits by lia. reflexivity.
  - rewrite Z.mod_pow2_bits_high by lia. reflexivity.
Qed.

Lemma is_mask_spec c k w j :
  is_mask c k w = true -> 0 <= j < 32 ->
  Z.testbit c j = (k <=? j) && (j <? k + w).
Proof.
  intros H Hj. unfold is_mask in H.
  pose proof (forallb_seqZ _ 0 32 H j ltac:(lia)) as E. cbv beta in E.
  now apply eqb_prop in E.
Qed.

Lemma and_mask_testbit n c k w i :
  is_mask c k w = true -> 0 <= k -> 0 <= w -> k + w <= 32 -> 0 <= i ->
  Z.testbit (Js.ToUint32 (Js.and n c)) i =
  (k <=? i) && (i <? k + w) && Z.testbit n i.
Proof.
  intros Hm Hk Hw Hkw Hi. unfold Js.ToUint32, Js.and.
  destruct (Z.ltb_spec i 32).
  - rewrite Z.mod_pow2_bits_low, Z.land_spec, !ToInt32_testbit by lia.
    rewrite (is_mask_spec c k w i Hm) by lia. apply andb_comm.
  - rewrite Z.mod_pow2_bits_high by lia.
    destruct (Z.ltb_spec i (k + w)); [lia|]. now rewrite andb_false_r.
Qed.

(** [(n & c) >>> k] is the [w]-bit field of [n] at bit [k]. *)
Lemma ushr_field n c k w :
  is_mask c k w = true -> 0 <= k < 32 -> 0 <= w -> k + w <= 32 ->
  Js.ushr (Js.and n c) k = (n / 2 ^ k) mod 2 ^ w.
Proof.
  intros Hm Hk Hw Hkw. unfold Js.ushr. rewrite shiftCount_small by lia.
  apply Z.bits_inj'. intros i Hi.
  rewrite Z.shiftr_spec, (and_mask_testbit n c k w), testbit_field by (assumption || lia).
  destruct (Z.leb_spec k (i + k)); [|lia].
  destruct (Z.ltb_spec (i + k) (k + w)); destruct (Z.ltb_spec i w); try lia; reflexivity.
Qed.

Lemma mod_pow2_ToInt32 n w : 0 <= w <= 32 -> Js.ToInt32 n mod 2 ^ w = n mod 2 ^ w.
Proof.
  intros Hw. apply Z.bits_inj'. intros i Hi. destruct (Z.ltb_spec i w).
  - rewrite !Z.mod_pow2_bits_low by lia. apply ToInt32_testbit. lia.
  - now rewrite !Z.mod_pow2_bits_high by lia.
Qed.

(** [n & c] for a mask [c] of [w] low ones is [n mod 2^w]. *)
Lemma and_low n c w : c = Z.ones w -> 0 <= w <= 31 -> Js.and n c = n mod 2 ^ w.
Proof.
  intros -> Hw. unfold Js.and.
  assert (R : 0 <= Z.ones w < 2 ^ 31).
  { rewrite Z.ones_equiv. pose proof (Z.pow_pos_nonneg 2 w).
    pose proof (Z.pow_le_mono_r 2 w 31). lia. }
  rewrite (ToInt32_small (Z.ones w)) by lia.
  rewrite Z.land_ones by lia. apply mod_pow2_ToInt32. lia.
Qed.

(** [(n & c) >> k], for a mask below the sign bit, is the field too. *)
Lemma shr_field n c k w :
  is_mask c k w = true -> 0 <= c < 2 ^ 31 -> 0 <= k < 32 -> 0 <= w -> k + w <= 32 ->
  Js.shr (Js.and n c) k = (n / 2 ^ k) mod 2 ^ w.
Proof.
  intros Hm Hc Hk Hw Hkw. rewrite <- (ushr_field n c k w) by assumption.
  unfold Js.shr, Js.ushr, Js.ToUint32.
  assert (B : 0 <= Js.and n c < 2 ^ 31).
  { unfold Js.and. rewrite (ToInt32_small c) by lia. now apply land_small. }
  rewrite ToInt32_small, Z.mod_small by lia. reflexivity.
Qed.

(* ---- writers at bit level ---- *)

Lemma loop_bits_7_octet x : 0 <= x < 256 -> loop_bits 7 x = bits_down x 7 7.
Proof.
  intros Hx.
  pose (eqb_bits := fun a b : list bool => if decide (a = b) then true else false).
  assert (HP : forallb (fun x => eqb_bits (loop_bits 7 x) (bits_down x 7 7))
                 (seqZ 0 256) = true) by (vm_compute; reflexivity).
  pose proof (forallb_seqZ _ 0 256 HP x ltac:(lia)) as H. cbv beta in H.
  unfold eqb_bits in H. now destruct (decide _).
Qed.

Lemma is_mask_0x80 : is_mask 0x80 7 1 = true. Proof. reflexivity. Qed.

(** [writeByte]'s loop emits the low eight bits of any integer. *)
Lemma loop_bits_any n : loop_bits 8 n = bits_down n 7 8.
Proof.
  change (loop_bits 8 n) with
    ((Js.ushr (Js.and n 0x80) 7 =? 1) :: loop_bits 7 (Js.and (Js.shl n 1) 0xFF)).
  change (bits_down n 7 8) with (Z.testbit n 7 :: bits_down n 6 7).
  f_equal.
  - rewrite (ushr_field n 0x80 7 1) by (reflexivity || lia).
    change (2 ^ 1) with 2. rewrite <- Z.testbit_spec' by lia.
    now destruct (Z.testbit n 7).
  - rewrite (and_low _ 0xFF 8) by (reflexivity || lia).
    rewrite loop_bits_7_octet by (apply Z.mod_pos_bound; lia).
    apply (bits_down_shift 7 _ n 7 (-1)). intros i Hi.
    rewrite Z.mod_pow2_bits_low by lia. unfold Js.shl.
    rewrite ToInt32_testbit, (shiftCount_small 1), Z.shiftl_spec by lia.
    rewrite ToInt32_testbit by lia. f_equal. 
Qed.

Lemma writeByte_written n bs s :
  written bs s ->
  exists s', writeByte n s = (Normal tt, s') /\
             written (bs ++ bits_down n 7 8) s' /\ same_reader s s'.
Proof.
  intros Hw. rewrite <- loop_bits_any. apply writeByte_loop_written, Hw.
Qed.

Lemma writeBits_written_any n k bs s :
  (k <= 32)%nat -> written bs s ->
  exists s', writeBits n k s = (Normal tt, s') /\
             written (bs ++ bits_down n (Z.of_nat k - 1) k) s' /\ same_reader s s'.
Proof.
  intros Hk Hw. rewrite <- writeBits_bits_any by assumption.
  apply writeBits_written, Hw.
Qed.

Lemma bits_down_field n k w hi count :
  0 <= k -> 0 <= w -> hi < w -> 0 <= hi - Z.of_nat count + 1 ->
  bits_down ((n / 2 ^ k) mod 2 ^ w) hi count = bits_down n (hi + k) count.
Proof.
  intros Hk Hw Hhi Hlo. apply bits_down_shift. intros i Hi.
  rewrite testbit_field by lia. destruct (Z.ltb_spec i w); [reflexivity|lia].
Qed.

Lemma bits_down_mod n w hi count :
  0 <= w -> hi < w -> 0 <= hi - Z.of_nat count + 1 ->
  bits_down (n mod 2 ^ w) hi count = bits_down n hi count.
Proof.
  intros Hw Hhi Hlo. rewrite <- (Z.add_0_r hi) at 2.
  apply bits_down_shift. intros i Hi.
  rewrite Z.mod_pow2_bits_low, Z.add_0_r by lia. reflexivity.
Qed.

Lemma is_mask_0xff00 : is_mask 0xff00 8 8 = true. Proof. reflexivity. Qed.
Lemma is_mask_0xffff0000 : is_mask 0xffff0000 16 16 = true. Proof. reflexivity. Qed.

(** [writeShort]: the low sixteen bits, low octet first. *)
Lemma writeShort_written n bs s :
  written bs s ->
  exists s', writeShort n s = (Normal tt, s') /\
             written (bs ++ bits_down n 7 8 ++ bits_down n 15 8) s' /\
             same_reader s s'.
Proof.
  intros Hw. unfold writeShort.
  rewrite (and_low n 0xff 8), (ushr_field n 0xff00 8 8) by (reflexivity || lia).
  destruct (writeByte_written (n mod 2 ^ 8) bs s Hw) as (s1 & E1 & W1 & R1).
  destruct (writeByte_written ((n / 2 ^ 8) mod 2 ^ 8) _ s1 W1) as (s2 & E2 & W2 & R2).
  exists s2. unfold bind. rewrite E1, E2. split; [reflexivity|].
  split; [|eapply same_reader_trans; eassumption].
  rewrite <- app_assoc in W2.
  rewrite bits_down_field, bits_down_mod in W2 by (cbn; lia). exact W2.
Qed.

(** [writeLong]: the low thirty-two bits, low octet first. *)
Lemma writeLong_written n bs s :
  written bs s ->
  exists s', writeLong n s = (Normal tt, s') /\
             written (bs ++ bits_down n 7 8 ++ bits_down n 15 8 ++
                            bits_down n 23 8 ++ bits_down n 31 8) s' /\
             same_reader s s'.
Proof.
  intros Hw. unfold writeLong.
  rewrite (and_low n 0xffff 16), (ushr_field n 0xffff0000 16 16) by (reflexivity || lia).
  destruct (writeShort_written (n mod 2 ^ 16) bs s Hw) as (s1 & E1 & W1 & R1).
  destruct (writeShort_written ((n / 2 ^ 16) mod 2 ^ 16) _ s1 W1) as (s2 & E2 & W2 & R2).
  exists s2. unfold bind. rewrite E1, E2. split; [reflexivity|].
  split; [|eapply same_reader_trans; eassumption].
  rewrite <- !app_assoc in W2.
  rewrite !bits_down_field, !bits_down_mod in W2 by (cbn; lia). exact W2.
Qed.

Lemma caught_up_fresh : caught_up [] fresh.
Proof. split; [exact written_fresh | now unfold read_at]. Qed.

Lemma read_at_same_reader i s s' : same_reader s s' -> read_at i s -> read_at i s'.
Proof. intros (E1 & E2 & _) [H1 H2]. unfold read_at. now rewrite E1, E2. Qed.

Lemma bits_down_length x hi count : length (bits_down x hi count) = count.
Proof. revert hi. induction count; intros hi; simpl; [reflexivity|]. now rewrite IHcount. Qed.

(** Reading the next [length ws] bits of a stream that holds
    [pre ++ ws ++ post], with the read cursor after [pre]. *)
Lemma readBits_next pre ws post s :
  written (pre ++ ws ++ post) s -> read_at (Z.of_nat (length pre)) s ->
  exists s', readBits (length ws) s = (Normal (bits_value ws 0), s') /\
             written (pre ++ ws ++ post) s' /\
             read_at (Z.of_nat (length (pre ++ ws))) s' /\
             writeBytePosition s' = writeBytePosition s /\
             writeBitPosition s' = writeBitPosition s /\ data s' = data s.
Proof.
  intros Hw Hr.
  destruct (readBits_written (pre ++ ws ++ post) (length ws) (Z.of_nat (length pre)) s
              Hw Hr ltac:(lia)) as (s' & E & W & R & F).
  { rewrite !length_app. lia. }
  exists s'. rewrite Nat2Z.id, drop_app_length, take_app_length in E.
  rewrite length_app, Nat2Z.inj_add.
  split; [exact E|]. split; [exact W|]. split; [exact R|exact F].
Qed.

Lemma readBit_next pre (b : bool) post s :
  written (pre ++ b :: post) s -> read_at (Z.of_nat (length pre)) s ->
  exists s', readBit s = (Normal (Z.b2z b), s') /\
             written (pre ++ b :: post) s' /\
             read_at (Z.of_nat (length (pre ++ [b]))) s'.
Proof.
  intros Hw Hr.
  destruct (readBit_written _ s _ Hw Hr) as (s' & E & W & R).
  { rewrite length_app. simpl. lia. }
  exists s'. rewrite Nat2Z.id, nth_middle in E.
  rewrite length_app. simpl. rewrite Nat2Z.inj_add.
  split; [exact E|]. split; [exact W|exact R].
Qed.

Lemma shl_small v k :
  0 <= v -> 0 <= k < 32 -> v * 2 ^ k < 2 ^ 31 -> Js.shl v k = v * 2 ^ k.
Proof.
  intros Hv Hk Hb. unfold Js.shl. rewrite shiftCount_small by lia.
  assert (0 < 2 ^ k) by (apply Z.pow_pos_nonneg; lia).
  rewrite (ToInt32_small v) by nia.
  rewrite Z.shiftl_mul_pow2 by lia. apply ToInt32_small. nia.
Qed.

(** The value of [count <= 31] bits of [x] read most significant first. *)
Lemma bits_value_field x hi count :
  (count <= 31)%nat -> 0 <= hi - Z.of_nat count + 1 ->
  bits_value (bits_down x hi count) 0 =
  (x / 2 ^ (hi - Z.of_nat count + 1)) mod 2 ^ Z.of_nat count.
Proof.
  intros Hc Hlo. rewrite bits_value_bits_down; [lia | lia | lia |].
  rewrite Z.add_0_l, Z.mul_1_l. apply Z.pow_le_mono_r; lia.
Qed.

Lemma readByte_next pre x hi post s :
  7 <= hi ->
  written (pre ++ bits_down x hi 8 ++ post) s -> read_at (Z.of_nat (length pre)) s ->
  exists s', readByte s = (Normal ((x / 2 ^ (hi - 7)) mod 256), s') /\
             written (pre ++ bits_down x hi 8 ++ post) s' /\
             read_at (Z.of_nat (length (pre ++ bits_down x hi 8))) s' /\
             writeBytePosition s' = writeBytePosition s /\
             writeBitPosition s' = writeBitPosition s /\ data s' = data s.
Proof.
  intros Hhi Hw Hr.
  destruct (readBits_next pre (bits_down x hi 8) post s Hw Hr) as (s' & E & R).
  exists s'. rewrite bits_down_length, bits_value_field in E by (simpl; lia).
  replace (hi - Z.of_nat 8 + 1) with (hi - 7) in E by lia.
  split; [exact E | exact R].
Qed.

Lemma readShort_next pre n post s :
  written (pre ++ (bits_down n 7 8 ++ bits_down n 15 8) ++ post) s ->
  read_at (Z.of_nat (length pre)) s ->
  exists s', readShort s = (Normal (n mod 65536), s') /\
             written (pre ++ (bits_down n 7 8 ++ bits_down n 15 8) ++ post) s' /\
             read_at (Z.of_nat (length (pre ++ bits_down n 7 8 ++ bits_down n 15 8))) s' /\
             writeBytePosition s' = writeBytePosition s /\
             writeBitPosition s' = writeBitPosition s /\ data s' = data s.
Proof.
  intros Hw Hr. rewrite <- app_assoc in Hw.
  destruct (readByte_next pre n 7 _ s ltac:(lia) Hw Hr) as (s1 & E1 & W1 & R1 & F1).
  rewrite app_assoc in W1.
  destruct (readByte_next _ n 15 _ s1 ltac:(lia) W1 R1) as (s2 & E2 & W2 & R2 & F2).
  exists s2. unfold readShort, bind. rewrite E1, E2. unfold ret.
  rewrite <- !app_assoc in *.
  split; [|split; [exact W2|split; [exact R2|]]].
  - do 2 f_equal. change (7 - 7) with 0. change (15 - 7) with 8.
    rewrite shl_small; [| apply Z.mod_pos_bound; lia | lia
                        | pose proof (Z.mod_pos_bound (n / 2 ^ 8) 256); lia].
    change (2 ^ 0) with 1. change (2 ^ 8) with 256. dlia.
  - destruct F1 as (? & ? & ?), F2 as (? & ? & ?). repeat split; congruence.
Qed.

Lemma readLong_next pre n post s :
  written (pre ++ (bits_down n 7 8 ++ bits_down n 15 8 ++
                   bits_down n 23 8 ++ bits_down n 31 8) ++ post) s ->
  read_at (Z.of_nat (length pre)) s ->
  exists s', readLong s = (Normal (n mod 2 ^ 32), s') /\
             written (pre ++ (bits_down n 7 8 ++ bits_down n 15 8 ++
                              bits_down n 23 8 ++ bits_down n 31 8) ++ post) s' /\
             read_at (Z.of_nat (length (pre ++ bits_down n 7 8 ++ bits_down n 15 8 ++
                                        bits_down n 23 8 ++ bits_down n 31 8))) s' /\
             writeBytePosition s' = writeBytePosition s /\
             writeBitPosition s' = writeBitPosition s /\ data s' = data s.
Proof.
  intros Hw Hr. rewrite <- !app_assoc in Hw.
  destruct (readByte_next pre n 7 _ s ltac:(lia) Hw Hr) as (s1 & E1 & W1 & R1 & F1).
  rewrite app_assoc in W1.
  destruct (readByte_next _ n 15 _ s1 ltac:(lia) W1 R1) as (s2 & E2 & W2 & R2 & F2).
  rewrite app_assoc in W2.
  destruct (readByte_next _ n 23 _ s2 ltac:(lia) W2 R2) as (s3 & E3 & W3 & R3 & F3).
  rewrite app_assoc in W3.
  destruct (readByte_next _ n 31 _ s3 ltac:(lia) W3 R3) as (s4 & E4 & W4 & R4 & F4).
  exists s4. unfold readLong, bind. rewrite E1, E2, E3, E4. unfold ret.
  rewrite <- !app_assoc in *.
  split; [|split; [exact W4|split; [exact R4|]]].
  - do 2 f_equal. change (7 - 7) with 0. change (15 - 7) with 8.
    change (23 - 7) with 16. change (31 - 7) with 24.
    rewrite !shl_small;
      try (apply Z.mod_pos_bound; lia); try lia;
      try (match goal with |- ?x mod 256 * _ < _ =>
             pose proof (Z.mod_pos_bound x 256); lia end).
    change (2 ^ 0) with 1. change (2 ^ 8) with 256. change (2 ^ 16) with 65536.
    change (2 ^ 24) with 16777216. change (2 ^ 32) with 4294967296. dlia.
  - destruct F1 as (? & ? & ?), F2 as (? & ? & ?), F3 as (? & ? & ?), F4 as (? & ? & ?).
    repeat split; congruence.
Qed.

(** ** Round trips of the fixed-width values *)

Lemma written_bits_length bs s :
  written bs s ->
  bits s = Z.of_nat (length bs) /\ length_ s = (Z.of_nat (length bs) + 7) / 8.
Proof.
  intros [Hlen Hcount Hbyte Hbit Hrange Hbits]. unfold bits, length_.
  rewrite Hcount, Hlen, Hbyte, Hbit. split; [dlia|reflexivity].
Qed.

(** X1. After any sequence of [writeBit] calls on a new stream, [bits()] is
    the number of bits written and [length()] is that number divided by 8,
    rounded up. *)
Theorem bits_counts_writes (bs : list bool) :
  exists s, writeBit_all bs (new_BitStream None) = (Normal tt, s) /\
            bits s = Z.of_nat (length bs) /\
            length_ s = (Z.of_nat (length bs) + 7) / 8.
Proof.
  destruct (writeBit_all_written bs [] fresh written_fresh) as (s & E & W & _).
  exists s. split; [exact E|]. exact (written_bits_length _ _ W).
Qed.

Lemma caught_up_after_write bs ws s s1 :
  caught_up bs s -> written (bs ++ ws) s1 -> same_reader s s1 ->
  written (bs ++ ws ++ []) s1 /\ read_at (Z.of_nat (length bs)) s1.
Proof.
  intros [_ Hr] W R. rewrite app_nil_r. split; [exact W|].
  exact (read_at_same_reader _ _ _ R Hr).
Qed.

(** X2. For every integer [n] and every count [k <= 31], on a stream whose
    reader has caught up with its writer, [writeBits(n, k)] followed by
    [readBits(k)] returns [n mod 2^k]; the stream then holds bits [k-1 .. 0]
    of [n] after what it held, and the reader has caught up again. *)
Theorem writeBits_readBits_roundtrip (n : Z) (k : nat) bs s :
  (k <= 31)%nat -> caught_up bs s ->
  exists s', (writeBits n k ;; readBits k) s = (Normal (n mod 2 ^ Z.of_nat k), s') /\
             caught_up (bs ++ bits_down n (Z.of_nat k - 1) k) s'.
Proof.
  intros Hk Hc.
  destruct (writeBits_written_any n k bs s ltac:(lia) (proj1 Hc)) as (s1 & E1 & W1 & R1).
  destruct (caught_up_after_write _ _ _ _ Hc W1 R1) as [W1' Hr1].
  destruct (readBits_next _ _ _ s1 W1' Hr1) as (s2 & E2 & W2 & R2 & _).
  exists s2. unfold bind. rewrite E1.
  rewrite bits_down_length, bits_value_field in E2 by lia.
  replace (Z.of_nat k - 1 - Z.of_nat k + 1) with 0 in E2 by lia.
  change (2 ^ 0) with 1 in E2. rewrite Z.div_1_r in E2.
  rewrite app_nil_r in W2. split; [exact E2|]. split; assumption.
Qed.

Lemma writeBits_readBits_roundtrip_witness :
  (4 <= 31)%nat /\ caught_up [] fresh /\
  exists s', (writeBits 0x0E 4 ;; readBits 4) fresh = (Normal 14, s').
Proof.
  split; [lia|]. split; [exact caught_up_fresh|].
  destruct (writeBits_readBits_roundtrip 0x0E 4 [] fresh ltac:(lia) caught_up_fresh)
    as (s' & E & _).
  exists s'. exact E.
Defined.

Lemma writeByte_then_readByte (n : Z) bs s :
  caught_up bs s ->
  exists s', (writeByte n ;; readByte) s = (Normal (n mod 256), s') /\
             caught_up (bs ++ bits_down n 7 8) s'.
Proof.
  intros Hc.
  destruct (writeByte_written n bs s (proj1 Hc)) as (s1 & E1 & W1 & R1).
  destruct (caught_up_after_write _ _ _ _ Hc W1 R1) as [W1' Hr1].
  destruct (readByte_next _ n 7 _ s1 ltac:(lia) W1' Hr1) as (s2 & E2 & W2 & R2 & _).
  exists s2. unfold bind. rewrite E1.
  change (2 ^ (7 - 7)) with 1 in E2. rewrite Z.div_1_r in E2.
  rewrite app_nil_r in W2. split; [exact E2|]. split; assumption.
Qed.

(** X3. For every integer [n] (also negative, or above 255), [writeByte(n)]
    followed by [readByte()] returns [n mod 256], and so does [writeChar(n)]
    followed by [readChar()]; bits 7..0 of [n] are appended. *)
Theorem writeByte_readByte_roundtrip (n : Z) bs s :
  caught_up bs s ->
  exists s', (writeByte n ;; readByte) s = (Normal (n mod 256), s') /\
             (writeChar n ;; readChar) s = (Normal (n mod 256), s') /\
             caught_up (bs ++ bits_down n 7 8) s'.
Proof.
  intros Hc. destruct (writeByte_then_readByte n bs s Hc) as (s' & E & C).
  exists s'. split; [exact E|]. split; [exact E | exact C].
Qed.

Lemma writeByte_readByte_roundtrip_witness :
  caught_up [] fresh /\
  exists s', (writeByte 0x1AA ;; readByte) fresh = (Normal 0xAA, s').
Proof.
  split; [exact caught_up_fresh|].
  destruct (writeByte_readByte_roundtrip 0x1AA [] fresh caught_up_fresh) as (s' & E & _).
  exists s'. exact E.
Defined.

(** X4. For every integer [n], [writeShort(n)] followed by [readShort()]
    returns [n mod 65536]; the low octet is written first. *)
Theorem writeShort_readShort_roundtrip (n : Z) bs s :
  caught_up bs s ->
  exists s', (writeShort n ;; readShort) s = (Normal (n mod 65536), s') /\
             caught_up (bs ++ bits_down n 7 8 ++ bits_down n 15 8) s'.
Proof.
  intros Hc.
  destruct (writeShort_written n bs s (proj1 Hc)) as (s1 & E1 & W1 & R1).
  destruct (caught_up_after_write _ _ _ _ Hc W1 R1) as [W1' Hr1].
  destruct (readShort_next _ n _ s1 W1' Hr1) as (s2 & E2 & W2 & R2 & _).
  exists s2. unfold bind. rewrite E1.
  rewrite app_nil_r in W2. split; [exact E2|]. split; assumption.
Qed.

Lemma writeShort_readShort_roundtrip_witness :
  caught_up [] fresh /\
  exists s', (writeShort 0xAAAA ;; readShort) fresh = (Normal 0xAAAA, s').
Proof.
  split; [exact caught_up_fresh|].
  destruct (writeShort_readShort_roundtrip 0xAAAA [] fresh caught_up_fresh) as (s' & E & _).
  exists s'. exact E.
Defined.

(** X5. For every integer [n], [writeLong(n)] followed by [readLong()]
    returns [n mod 2^32], a non-negative number also when bit 31 is set; the
    four octets are written in little-endian order. *)
Theorem writeLong_readLong_roundtrip (n : Z) bs s :
  caught_up bs s ->
  exists s', (writeLong n ;; readLong) s = (Normal (n mod 2 ^ 32), s') /\
             caught_up (bs ++ bits_down n 7 8 ++ bits_down n 15 8 ++
                              bits_down n 23 8 ++ bits_down n 31 8) s'.
Proof.
  intros Hc.
  destruct (writeLong_written n bs s (proj1 Hc)) as (s1 & E1 & W1 & R1).
  destruct (caught_up_after_write _ _ _ _ Hc W1 R1) as [W1' Hr1].
  destruct (readLong_next _ n _ s1 W1' Hr1) as (s2 & E2 & W2 & R2 & _).
  exists s2. unfold bind. rewrite E1.
  rewrite app_nil_r in W2. split; [exact E2|]. split; assumption.
Qed.

Lemma writeLong_readLong_roundtrip_witness :
  caught_up [] fresh /\
  exists s', (writeLong 0xAAAAAAAA ;; readLong) fresh = (Normal 0xAAAAAAAA, s').
Proof.
  split; [exact caught_up_fresh|].
  destruct (writeLong_readLong_roundtrip 0xAAAAAAAA [] fresh caught_up_fresh)
    as (s' & E & _).
  exists s'. exact E.
Defined.

Lemma readShort_octets pre a b post s :
  written (pre ++ (bits_down a 7 8 ++ bits_down b 7 8) ++ post) s ->
  read_at (Z.of_nat (length pre)) s ->
  exists s', readShort s = (Normal (a mod 256 + 256 * (b mod 256)), s') /\
             written (pre ++ (bits_down a 7 8 ++ bits_down b 7 8) ++ post) s' /\
             read_at (Z.of_nat (length (pre ++ bits_down a 7 8 ++ bits_down b 7 8))) s'.
Proof.
  intros Hw Hr. rewrite <- app_assoc in Hw.
  destruct (readByte_next pre a 7 _ s ltac:(lia) Hw Hr) as (s1 & E1 & W1 & R1 & F1).
  rewrite app_assoc in W1.
  destruct (readByte_next _ b 7 _ s1 ltac:(lia) W1 R1) as (s2 & E2 & W2 & R2 & F2).
  exists s2. unfold readShort, bind. rewrite E1, E2. unfold ret.
  rewrite <- !app_assoc in *.
  split; [|split; [exact W2|exact R2]].
  do 2 f_equal. change (2 ^ (7 - 7)) with 1. rewrite !Z.div_1_r.
  rewrite shl_small; [| apply Z.mod_pos_bound; lia | lia
                      | pose proof (Z.mod_pos_bound b 256); lia].
  change (2 ^ 8) with 256. lia.
Qed.

(** ** Signed values *)

Lemma readSignedChar_next pre x post s :
  written (pre ++ bits_down x 7 8 ++ post) s -> read_at (Z.of_nat (length pre)) s ->
  exists s', readSignedChar s =
               (Normal (if Z.testbit x 7 then - (x mod 128) else x mod 128), s') /\
             written (pre ++ bits_down x 7 8 ++ post) s' /\
             read_at (Z.of_nat (length (pre ++ bits_down x 7 8))) s'.
Proof.
  intros Hw Hr.
  change (bits_down x 7 8) with (Z.testbit x 7 :: bits_down x 6 7) in *.
  cbn [app] in Hw.
  destruct (readBit_next pre _ _ s Hw Hr) as (s1 & E1 & W1 & R1).
  replace (pre ++ Z.testbit x 7 :: bits_down x 6 7 ++ post)
    with ((pre ++ [Z.testbit x 7]) ++ bits_down x 6 7 ++ post) in W1
    by (now rewrite <- app_assoc).
  destruct (readBits_next _ _ _ s1 W1 R1) as (s2 & E2 & W2 & R2 & _).
  rewrite bits_down_length, bits_value_field in E2 by (simpl; lia).
  change (2 ^ (6 - Z.of_nat 7 + 1)) with 1 in E2. rewrite Z.div_1_r in E2.
  change (2 ^ Z.of_nat 7) with 128 in E2.
  exists s2. rewrite <- !app_assoc in *. cbn [app] in *.
  split; [|split; assumption].
  unfold readSignedChar, bind. rewrite E1.
  destruct (Z.testbit x 7); cbn [Z.b2z Z.eqb]; rewrite E2; reflexivity.
Qed.

(** X6. [readSignedChar] reads an octet as sign and magnitude: after
    [writeByte(n)] it returns [-(n mod 128)] when bit 7 of [n] is set and [n
    mod 128] otherwise (so it is not the inverse of a two's-complement
    octet). *)
Theorem readSignedChar_decodes (n : Z) bs s :
  caught_up bs s ->
  exists s', (writeByte n ;; readSignedChar) s =
               (Normal (if Z.testbit n 7 then - (n mod 128) else n mod 128), s') /\
             caught_up (bs ++ bits_down n 7 8) s'.
Proof.
  intros Hc.
  destruct (writeByte_written n bs s (proj1 Hc)) as (s1 & E1 & W1 & R1).
  destruct (caught_up_after_write _ _ _ _ Hc W1 R1) as [W1' Hr1].
  destruct (readSignedChar_next _ n _ s1 W1' Hr1) as (s2 & E2 & W2 & R2).
  exists s2. unfold bind. rewrite E1.
  rewrite app_nil_r in W2. split; [exact E2|]. split; assumption.
Qed.

Lemma readSignedChar_decodes_witness :
  caught_up [] fresh /\
  exists s', (writeByte 0x85 ;; readSignedChar) fresh = (Normal (-5), s').
Proof.
  split; [exact caught_up_fresh|].
  destruct (readSignedChar_decodes 0x85 [] fresh caught_up_fresh) as (s' & E & _).
  exists s'. exact E.
Defined.

Lemma signed_and_check_all :
  forallb (fun fb => forallb (signed_and_check fb) (seqZ 0 128)) (seqZ 0 256) = true.
Proof. vm_compute. reflexivity. Qed.

Lemma signed_and fb v :
  0 <= fb < 256 -> 0 <= v < 128 ->
  Js.and fb (Js.shl v 7) = if Z.testbit fb 7 && Z.testbit v 0 then 128 else 0.
Proof.
  intros Hf Hv.
  pose proof (forallb_seqZ _ 0 256 signed_and_check_all fb ltac:(lia)) as H1.
  cbv beta in H1.
  pose proof (forallb_seqZ _ 0 128 H1 v ltac:(lia)) as H2.
  unfold signed_and_check in H2. lia.
Qed.

Lemma readSignedShort_next pre a b post s :
  written (pre ++ (bits_down a 7 8 ++ bits_down b 7 8) ++ post) s ->
  read_at (Z.of_nat (length pre)) s ->
  exists s', readSignedShort s = (Normal (signedShort_value a b), s') /\
             written (pre ++ (bits_down a 7 8 ++ bits_down b 7 8) ++ post) s' /\
             read_at (Z.of_nat (length (pre ++ bits_down a 7 8 ++ bits_down b 7 8))) s'.
Proof.
  intros Hw Hr. rewrite <- app_assoc in Hw.
  destruct (readByte_next pre a 7 _ s ltac:(lia) Hw Hr) as (s1 & E1 & W1 & R1 & _).
  change (2 ^ (7 - 7)) with 1 in E1. rewrite Z.div_1_r in E1.
  change (bits_down b 7 8) with (Z.testbit b 7 :: bits_down b 6 7) in *.
  replace (pre ++ bits_down a 7 8 ++ (Z.testbit b 7 :: bits_down b 6 7) ++ post)
    with ((pre ++ bits_down a 7 8) ++ Z.testbit b 7 :: bits_down b 6 7 ++ post) in W1
    by (now rewrite <- app_assoc).
  destruct (readBit_next _ _ _ s1 W1 R1) as (s2 & E2 & W2 & R2).
  replace ((pre ++ bits_down a 7 8) ++ Z.testbit b 7 :: bits_down b 6 7 ++ post)
    with (((pre ++ bits_down a 7 8) ++ [Z.testbit b 7]) ++ bits_down b 6 7 ++ post) in W2
    by (now rewrite <- !app_assoc).
  destruct (readBits_next _ _ _ s2 W2 R2) as (s3 & E3 & W3 & R3 & _).
  rewrite bits_down_length, bits_value_field in E3 by (simpl; lia).
  change (2 ^ (6 - Z.of_nat 7 + 1)) with 1 in E3. rewrite Z.div_1_r in E3.
  change (2 ^ Z.of_nat 7) with 128 in E3.
  exists s3. rewrite <- !app_assoc in *. cbn [app] in *.
  split; [|split; assumption].
  unfold readSignedShort, bind. rewrite E1, E2.
  assert (V : Js.and (a mod 256) (Js.shl (b mod 128) 7) =
              if Z.testbit a 7 && Z.testbit b 0 then 128 else 0).
  { rewrite signed_and by (apply Z.mod_pos_bound; lia).
    change 256 with (2 ^ 8). change 128 with (2 ^ 7) at 1.
    now rewrite !Z.mod_pow2_bits_low by lia. }
  unfold signedShort_value.
  destruct (Z.testbit b 7); cbn [Z.b2z Z.eqb negb]; rewrite E3; unfold ret;
    rewrite V; reflexivity.
Qed.

(** X7. [readSignedShort] can only return 0, 128 or -128: of the two octets
    [a], [b] it reads, it keeps bit 7 of [a] when bit 0 of [b] is set
    ([firstByte & (readBits(7) << 7)]), negated when bit 7 of [b] is set. *)
Theorem readSignedShort_keeps_one_bit (a b : Z) bs s :
  caught_up bs s ->
  exists s', (writeByte a ;; writeByte b ;; readSignedShort) s =
               (Normal (signedShort_value a b), s') /\
             (signedShort_value a b = 0 \/ signedShort_value a b = 128 \/
              signedShort_value a b = -128).
Proof.
  intros Hc.
  destruct (writeByte_written a bs s (proj1 Hc)) as (s1 & E1 & W1 & R1).
  destruct (writeByte_written b _ s1 W1) as (s2 & E2 & W2 & R2).
  rewrite <- app_assoc in W2.
  destruct (caught_up_after_write _ _ _ _ Hc W2 (same_reader_trans _ _ _ R1 R2))
    as [W2' Hr2].
  destruct (readSignedShort_next _ a b _ s2 W2' Hr2) as (s3 & E3 & _).
  exists s3. unfold bind. rewrite E1, E2. split; [exact E3|].
  unfold signedShort_value.
  destruct (Z.testbit a 7 && Z.testbit b 0), (Z.testbit b 7); lia.
Qed.

Lemma readSignedShort_keeps_one_bit_witness :
  caught_up [] fresh /\
  exists s', (writeByte 0x34 ;; writeByte 0x12 ;; readSignedShort) fresh = (Normal 0, s').
Proof.
  split; [exact caught_up_fresh|].
  destruct (readSignedShort_keeps_one_bit 0x34 0x12 [] fresh caught_up_fresh)
    as (s' & E & _).
  exists s'. exact E.
Defined.

(** [writeSignedShort]: the low octet, a zero bit, and bits 15..9. *)
Lemma writeSignedShort_written n bs s :
  written bs s ->
  exists s', writeSignedShort n s = (Normal tt, s') /\
             written (bs ++ bits_down n 7 8 ++ false :: bits_down n 15 7) s' /\
             same_reader s s'.
Proof.
  intros Hw. unfold writeSignedShort, writeSignedByte.
  rewrite (and_low n 0xff 8), (ushr_field n 0xff00 8 8) by (reflexivity || lia).
  pose proof (Z.mod_pos_bound (n / 2 ^ 8) (2 ^ 8) ltac:(lia)) as Hb.
  destruct (writeByte_written (n mod 2 ^ 8) bs s Hw) as (s1 & E1 & W1 & R1).
  destruct (writeBit_written _ s1 ((n / 2 ^ 8) mod 2 ^ 8 <? 0) W1) as (s2 & E2 & W2 & R2).
  destruct (writeByte_loop_written 7 (Z.abs ((n / 2 ^ 8) mod 2 ^ 8)) _ s2 W2)
    as (s3 & E3 & W3 & R3).
  exists s3. unfold bind. rewrite E1, E2, E3. split; [reflexivity|].
  split; [|eapply same_reader_trans; [eassumption|eapply same_reader_trans; eassumption]].
  rewrite Z.abs_eq in W3 by lia.
  rewrite loop_bits_7_octet in W3 by (change 256 with (2 ^ 8); lia).
  destruct (Z.ltb_spec ((n / 2 ^ 8) mod 2 ^ 8) 0); [lia|].
  rewrite bits_down_field, bits_down_mod in W3 by (cbn; lia).
  rewrite <- !app_assoc in W3. exact W3.
Qed.

(** X8. [writeSignedShort(n)] never records a sign and loses bit 8 of [n]:
    it appends bits 7..0 of [n], a 0 bit, and bits 15..9 of [n], so that
    [readShort()] afterwards returns [n mod 256 + 256 * ((n / 512) mod
    128)]. *)
Theorem writeSignedShort_drops_sign (n : Z) bs s :
  caught_up bs s ->
  exists s', (writeSignedShort n ;; readShort) s =
               (Normal (n mod 256 + 256 * ((n / 512) mod 128)), s') /\
             caught_up (bs ++ bits_down n 7 8 ++ false :: bits_down n 15 7) s'.
Proof.
  intros Hc.
  destruct (writeSignedShort_written n bs s (proj1 Hc)) as (s1 & E1 & W1 & R1).
  destruct (caught_up_after_write _ _ _ _ Hc W1 R1) as [W1' Hr1].
  set (y := (n / 2 ^ 9) mod 2 ^ 7).
  assert (Ey : false :: bits_down n 15 7 = bits_down y 7 8).
  { change (bits_down y 7 8) with (Z.testbit y 7 :: bits_down y 6 7).
    unfold y. rewrite testbit_field by lia. cbn [Z.ltb Z.compare andb]. f_equal.
    rewrite bits_down_field by (cbn; lia). reflexivity. }
  rewrite Ey in W1', W1.
  destruct (readShort_octets _ n y _ s1 W1' Hr1) as (s2 & E2 & W2 & R2).
  exists s2. unfold bind. rewrite E1. rewrite Ey.
  rewrite app_nil_r in W2. split; [|split; assumption].
  rewrite E2. do 2 f_equal. unfold y. change (2 ^ 9) with 512. change (2 ^ 7) with 128.
  rewrite (Z.mod_small (_ mod 128) 256) by (pose proof (Z.mod_pos_bound (n / 512) 128); lia).
  reflexivity.
Qed.

Lemma writeSignedShort_drops_sign_witness :
  caught_up [] fresh /\
  exists s', (writeSignedShort 0x8301 ;; readShort) fresh = (Normal 0x4101, s').
Proof.
  split; [exact caught_up_fresh|].
  destruct (writeSignedShort_drops_sign 0x8301 [] fresh caught_up_fresh) as (s' & E & _).
  exists s'. exact E.
Defined.

(** ** Booleans and long longs *)

(** X9. [writeBoolean(v)] followed by [readBoolean()] returns [true] exactly
    when [v] is the boolean [true]; every other value (a truthy number or
    string included) is written as 0 and read as [false]. *)
Theorem writeBoolean_readBoolean_roundtrip (v : Js.value) bs s :
  caught_up bs s ->
  exists s', (writeBoolean v ;; readBoolean) s =
               (Normal (match v with Js.Boolean true => true | _ => false end), s') /\
             caught_up (bs ++ bits_down (match v with Js.Boolean true => 1 | _ => 0 end) 7 8) s'.
Proof.
  intros Hc.
  set (x := match v with Js.Boolean true => 1 | _ => 0 end).
  assert (Ew : writeBoolean v = writeByte x) by (destruct v as [| |[|]| |]; reflexivity).
  destruct (writeByte_then_readByte x bs s Hc) as (s' & E & C).
  exists s'. split; [|exact C]. unfold readBoolean. rewrite Ew.
  unfold bind in *. destruct (writeByte x s) as [[[]|e] s1]; [|discriminate].
  rewrite E. unfold ret. subst x. destruct v as [| |[|]| |]; reflexivity.
Qed.

Lemma writeBoolean_readBoolean_roundtrip_witness :
  caught_up [] fresh /\
  exists s', (writeBoolean (Js.Number 1) ;; readBoolean) fresh = (Normal false, s').
Proof.
  split; [exact caught_up_fresh|].
  destruct (writeBoolean_readBoolean_roundtrip (Js.Number 1) [] fresh caught_up_fresh)
    as (s' & E & _).
  exists s'. exact E.
Defined.

(** X10. [writeLongLong(top, bottom)] writes [bottom] first and [top]
    second, each as a little-endian long: two [readLong()] calls afterwards
    return [bottom mod 2^32] and then [top mod 2^32]. *)
Theorem writeLongLong_layout (top bottom : Z) bs s :
  caught_up bs s ->
  exists s', (writeLongLong top bottom ;;
              lo <- readLong ;; hi <- readLong ;; ret (lo, hi)) s =
               (Normal (bottom mod 2 ^ 32, top mod 2 ^ 32), s') /\
             caught_up (bs ++ (bits_down bottom 7 8 ++ bits_down bottom 15 8 ++
                               bits_down bottom 23 8 ++ bits_down bottom 31 8) ++
                              (bits_down top 7 8 ++ bits_down top 15 8 ++
                               bits_down top 23 8 ++ bits_down top 31 8)) s'.
Proof.
  intros Hc. unfold writeLongLong.
  destruct (writeLong_written bottom bs s (proj1 Hc)) as (s1 & E1 & W1 & R1).
  destruct (writeLong_written top _ s1 W1) as (s2 & E2 & W2 & R2).
  rewrite <- app_assoc in W2.
  pose proof (read_at_same_reader _ _ _ (same_reader_trans _ _ _ R1 R2) (proj2 Hc)) as Hr2.
  destruct (readLong_next _ bottom _ s2 W2 Hr2) as (s3 & E3 & W3 & R3 & _).
  rewrite app_assoc in W3.
  rewrite <- (app_nil_r (bits_down top 7 8 ++ _)) in W3.
  destruct (readLong_next _ top _ s3 W3 R3) as (s4 & E4 & W4 & R4 & _).
  exists s4. unfold bind. rewrite E1, E2, E3, E4. unfold ret.
  split; [reflexivity|]. rewrite app_nil_r, <- app_assoc in W4.
  rewrite <- app_assoc in R4. split; assumption.
Qed.

Lemma writeLongLong_layout_witness :
  caught_up [] fresh /\
  exists s', (writeLongLong 0xAAAAAAAA 0xBBBBBBBB ;;
              lo <- readLong ;; hi <- readLong ;; ret (lo, hi)) fresh =
             (Normal (0xBBBBBBBB, 0xAAAAAAAA), s').
Proof.
  split; [exact caught_up_fresh|].
  destruct (writeLongLong_layout 0xAAAAAAAA 0xBBBBBBBB [] fresh caught_up_fresh)
    as (s' & E & _).
  exists s'. exact E.
Defined.

(** ** Alignment *)

Lemma nth_app_false (bs : list bool) k i :
  nth i (bs ++ replicate k false) false = nth i bs false.
Proof.
  destruct (Nat.lt_ge_cases i (length bs)).
  - now apply app_nth1.
  - rewrite app_nth2 by lia. rewrite (nth_overflow bs) by lia.
    rewrite nth_lookup. destruct (replicate k false !! (i - length bs)%nat) eqn:E; [|reflexivity].
    apply lookup_replicate in E. simpl. tauto.
Qed.

Lemma alignWrite_written bs s :
  written bs s ->
  exists s', alignWrite s = (Normal tt, s') /\
             written (bs ++ replicate (Z.to_nat (to_boundary (Z.of_nat (length bs)))) false) s' /\
             writeBitPosition s' = 7 /\ same_reader s s' /\ data s' = data s.
Proof.
  intros [Hlen Hcount Hbyte Hbit Hrange Hbits]. unfold alignWrite, to_boundary. run_monad.
  set (n := Z.of_nat (length bs)) in *.
  destruct (Z.eqb_spec (writeBitPosition s) 7) as [H7|H7]; cbn [negb]; run_monad.
  - exists s. replace (Z.to_nat ((8 - n mod 8) mod 8)) with 0%nat by dlia.
    cbn [replicate]. rewrite app_nil_r.
    split; [reflexivity|]. split; [now split|]. split; [exact H7|].
    split; [apply same_reader_refl | reflexivity].
  - eexists. split; [reflexivity|].
    split; [|split; [reflexivity|split; [now unfold same_reader|reflexivity]]].
    split; cbn [data byteCount writeBytePosition writeBitPosition];
      rewrite ?length_app, ?length_replicate; try assumption; try dlia.
    intros i Hi. rewrite nth_app_false. now apply Hbits.
Qed.

Lemma alignRead_read_at i s :
  0 <= i -> read_at i s ->
  exists s', alignRead s = (Normal tt, s') /\ read_at (i + to_boundary i) s' /\
             data s' = data s /\ byteCount s' = byteCount s /\
             writeBytePosition s' = writeBytePosition s /\
             writeBitPosition s' = writeBitPosition s.
Proof.
  intros Hi [HrB Hrb]. unfold alignRead, to_boundary. run_monad.
  destruct (Z.eqb_spec (readBitPosition s) 7) as [H7|H7]; cbn [negb]; run_monad.
  - exists s. split; [reflexivity|]. unfold read_at.
    repeat split; try reflexivity; dlia.
  - eexists. split; [reflexivity|]. unfold read_at.
    cbn [data byteCount readBytePosition readBitPosition writeBytePosition writeBitPosition].
    repeat split; try reflexivity; dlia.
Qed.

(** X11. [alignWrite] pads the written bits with 0 bits up to the next octet
    boundary (none when already on one): afterwards [bits()] is a multiple
    of 8 and [length()] is unchanged.  [alignRead] moves the read cursor
    forward to the next octet boundary, by less than 8 bits, and leaves the
    written bits and the write cursor as they are. *)
Theorem align_to_octet_boundary bs i s :
  written bs s -> read_at i s -> 0 <= i ->
  exists s1 s2,
    alignWrite s = (Normal tt, s1) /\
    written (bs ++ replicate (Z.to_nat (to_boundary (Z.of_nat (length bs)))) false) s1 /\
    bits s1 mod 8 = 0 /\ length_ s1 = length_ s /\
    alignRead s = (Normal tt, s2) /\
    written bs s2 /\
    read_at (i + to_boundary i) s2 /\ (i + to_boundary i) mod 8 = 0 /\
    0 <= to_boundary i < 8.
Proof.
  intros Hw Hr Hi.
  destruct (alignWrite_written bs s Hw) as (s1 & E1 & W1 & H7 & _ & D1).
  destruct (alignRead_read_at i s Hi Hr) as (s2 & E2 & R2 & D2 & C2 & B2 & b2).
  assert (W2 : written bs s2).
  { destruct Hw as [Hlen Hcount Hbyte Hbit Hrange Hbits].
    split; rewrite ?D2, ?C2, ?B2, ?b2; assumption. }
  exists s1, s2. split; [exact E1|]. split; [exact W1|].
  destruct (written_bits_length _ _ W1) as [B1 L1].
  destruct (written_bits_length _ _ Hw) as [_ L0].
  rewrite length_app, length_replicate in B1, L1.
  split; [rewrite B1; unfold to_boundary; dlia|].
  split; [rewrite L1, L0; unfold to_boundary; dlia|].
  split; [exact E2|]. split; [exact W2|]. split; [exact R2|].
  unfold to_boundary. split; dlia.
Qed.

Lemma align_to_octet_boundary_witness :
  exists s0, writeBits 5 3 fresh = (Normal tt, s0) /\
  exists s1 s2,
    alignWrite s0 = (Normal tt, s1) /\
    written ([true; false; true] ++ replicate 5 false) s1 /\
    alignRead s0 = (Normal tt, s2) /\ read_at 0 s2.
Proof.
  destruct (writeBits_written_any 5 3 [] fresh ltac:(lia) written_fresh)
    as (s0 & E0 & W0 & R0).
  exists s0. split; [exact E0|].
  destruct (align_to_octet_boundary _ 0 s0 W0
              (read_at_same_reader _ _ _ R0 (proj2 caught_up_fresh)) ltac:(lia))
    as (s1 & s2 & E1 & W1 & _ & _ & E2 & _ & R2 & _).
  exists s1, s2. split; [exact E1|]. split; [exact W1|]. split; [exact E2|exact R2].
Defined.

(** ** Strings *)

Lemma for_upto_written (emit : Z -> list bool) (body : Z -> M unit) :
  (forall i bs s, written bs s ->
     exists s', body i s = (Normal tt, s') /\ written (bs ++ emit i) s' /\ same_reader s s') ->
  forall r k bs s, written bs s ->
    exists s', for_upto k r body s = (Normal tt, s') /\
               written (bs ++ flat_map emit (seqZ k (Z.of_nat r))) s' /\ same_reader s s'.
Proof.
  intros Hbody. induction r as [|r IH]; intros k bs s Hw.
  - exists s. cbn [for_upto]. change (seqZ k (Z.of_nat 0)) with (@nil Z).
    cbn [flat_map]. rewrite app_nil_r.
    split; [reflexivity|]. split; [assumption | apply same_reader_refl].
  - cbn [for_upto]. unfold bind at 1.
    destruct (Hbody k bs s Hw) as (s1 & -> & W1 & R1).
    destruct (IH (k + 1) _ s1 W1) as (s2 & E2 & W2 & R2).
    exists s2. split; [exact E2|].
    rewrite (seqZ_cons k (Z.of_nat (S r))) by lia. cbn [flat_map].
    replace (Z.pred (Z.of_nat (S r))) with (Z.of_nat r) by lia.
    rewrite <- app_assoc in W2. split; [exact W2|].
    eapply same_reader_trans; eassumption.
Qed.

Lemma map_nth_seqZ (codes : list Z) : forall pre r,
  (r <= length codes)%nat ->
  map (fun i => nth (Z.to_nat i) (pre ++ codes) 0) (seqZ (Z.of_nat (length pre)) (Z.of_nat r))
  = take r codes.
Proof.
  induction codes as [|c codes IH]; intros pre r Hr.
  - cbn [length] in Hr. replace r with 0%nat by lia. reflexivity.
  - destruct r as [|r]; [reflexivity|].
    rewrite (seqZ_cons _ (Z.of_nat (S r))) by lia. cbn [map].
    rewrite Nat2Z.id, nth_middle. rewrite firstn_cons. f_equal.
    replace (Z.pred (Z.of_nat (S r))) with (Z.of_nat r) by lia.
    replace (Z.succ (Z.of_nat (length pre))) with (Z.of_nat (length (pre ++ [c])))
      by (rewrite length_app; simpl; lia).
    replace (pre ++ c :: codes) with ((pre ++ [c]) ++ codes) by now rewrite <- app_assoc.
    apply IH. simpl in Hr. lia.
Qed.

Lemma map_nth_seqZ_0 (codes : list Z) r :
  (r <= length codes)%nat ->
  map (fun i => nth (Z.to_nat i) codes 0) (seqZ 0 (Z.of_nat r)) = take r codes.
Proof. exact (map_nth_seqZ codes [] r). Qed.

Lemma flat_map_map_Z {B} (f : Z -> list B) (g : Z -> Z) l :
  flat_map (fun i => f (g i)) l = flat_map f (map g l).
Proof. induction l; simpl; [reflexivity|]. now rewrite IHl. Qed.

Lemma charCodes_pad str width : charCodes (pad str width) = padded_codes str width.
Proof. unfold pad, padded_codes. apply pad_loop_codes. Qed.

Lemma padded_codes_octets str width : Forall octet (padded_codes str width).
Proof.
  rewrite <- charCodes_pad. apply charCodes_octets.
Qed.

Lemma padded_codes_length str width :
  Z.of_nat (length (padded_codes str width)) = Z.max (Z.of_nat (String.length str)) width.
Proof.
  unfold padded_codes. rewrite length_app, length_replicate, charCodes_length. lia.
Qed.

Lemma octet_bits_length c : length (octet_bits c) = 8%nat.
Proof. apply bits_down_length. Qed.

Lemma flat_map_octet_bits_length l : length (flat_map octet_bits l) = (8 * length l)%nat.
Proof.
  induction l; cbn [flat_map]; [reflexivity|].
  rewrite length_app, IHl, octet_bits_length. simpl length. lia.
Qed.

Lemma flat_map_wide_bits_length l : length (flat_map wide_bits l) = (16 * length l)%nat.
Proof.
  induction l; cbn [flat_map]; [reflexivity|].
  unfold wide_bits at 1. rewrite !length_app, IHl, !octet_bits_length. simpl length. lia.
Qed.

Lemma writeString_reader str size bs s :
  written bs s ->
  let width := match size with None => 33 | Some n => n end in
  exists s', writeString str size s = (Normal tt, s') /\
             written (bs ++ flat_map octet_bits (padded_codes str width)) s' /\
             same_reader s s'.
Proof.
  intros Hw width. unfold writeString, charCodeAt. fold width.
  rewrite <- (charCodes_length (pad str width)), charCodes_pad.
  destruct (for_upto_written
              (fun i => octet_bits (nth (Z.to_nat i) (padded_codes str width) 0))
              (fun i => writeByte (nth (Z.to_nat i) (padded_codes str width) 0))
              (fun i => writeByte_written _)
              (length (padded_codes str width)) 0 bs s Hw) as (s1 & E1 & W1 & R1).
  exists s1. split; [exact E1|]. split; [|exact R1].
  rewrite (flat_map_map_Z octet_bits (fun i => nth (Z.to_nat i) (padded_codes str width) 0)) in W1.
  rewrite (map_nth_seqZ_0 _ _ (Nat.le_refl _)), firstn_all in W1. exact W1.
Qed.

Lemma writeWString_reader str size bs s :
  written bs s ->
  let width := match size with None => 33 | Some n => n end in
  exists s', writeWString str size s = (Normal tt, s') /\
             written (bs ++ flat_map wide_bits
                              (take (Z.to_nat width) (padded_codes str width))) s' /\
             same_reader s s'.
Proof.
  intros Hw width. unfold writeWString, charCodeAt. fold width.
  rewrite charCodes_pad.
  destruct (for_upto_written
              (fun i => wide_bits (nth (Z.to_nat i) (padded_codes str width) 0))
              (fun i => writeByte (nth (Z.to_nat i) (padded_codes str width) 0) ;; writeByte 0)
              ) with (r := Z.to_nat width) (k := 0) (bs := bs) (s := s)
    as (s1 & E1 & W1 & R1); [|exact Hw|].
  { intros i bs0 s0 Hw0. unfold bind.
    destruct (writeByte_written (nth (Z.to_nat i) (padded_codes str width) 0) bs0 s0 Hw0)
      as (s1 & -> & W1 & R1).
    destruct (writeByte_written 0 _ s1 W1) as (s2 & E2 & W2 & R2).
    exists s2. split; [exact E2|]. unfold wide_bits, octet_bits.
    rewrite <- app_assoc in W2. split; [exact W2|].
    eapply same_reader_trans; eassumption. }
  exists s1. split; [exact E1|]. split; [|exact R1].
  rewrite (flat_map_map_Z wide_bits (fun i => nth (Z.to_nat i) (padded_codes str width) 0)) in W1.
  rewrite (map_nth_seqZ_0 _ (Z.to_nat width)) in W1; [exact W1|].
  pose proof (padded_codes_length str width). lia.
Qed.

Lemma readString_loop_written codes : forall pre post text s,
  Forall octet codes ->
  written (pre ++ flat_map octet_bits codes ++ post) s ->
  read_at (Z.of_nat (length pre)) s ->
  exists s', readString_loop (length codes) text s = (Normal (text ++ codes), s') /\
             written (pre ++ flat_map octet_bits codes ++ post) s' /\
             read_at (Z.of_nat (length (pre ++ flat_map octet_bits codes))) s'.
Proof.
  induction codes as [|c codes IH]; intros pre post text s Ho Hw Hr.
  - exists s. cbn [flat_map length readString_loop] in *. rewrite !app_nil_r.
    split; [reflexivity|]. split; assumption.
  - cbn [flat_map length readString_loop] in *. unfold octet_bits at 1 in Hw.
    rewrite <- app_assoc in Hw.
    destruct (readByte_next pre c 7 _ s ltac:(lia) Hw Hr) as (s1 & E1 & W1 & R1 & _).
    rewrite app_assoc in W1.
    destruct (IH _ post (text ++ [fromCharCode ((c / 2 ^ (7 - 7)) mod 256)]) s1
                ltac:(now inversion Ho) W1 R1) as (s2 & E2 & W2 & R2).
    exists s2. unfold bind. rewrite E1, E2.
    assert (Hc : octet c) by (now inversion Ho). unfold octet in Hc.
    change (2 ^ (7 - 7)) with 1. rewrite Z.div_1_r.
    unfold fromCharCode. rewrite (Z.mod_small c 256), (Z.mod_small c 65536) by lia.
    rewrite <- !app_assoc in *. cbn [app]. unfold octet_bits at 1 3.
    split; [reflexivity|]. split; assumption.
Qed.

(** X12. For every string of 8-bit characters and every [size] (33 when
    omitted), [writeString(str, size)] followed by [readString(size)]
    returns the first [size] characters of [str] padded with NULs to [size]:
    [str] followed by NULs when it is shorter, only its first [size]
    characters when it is longer, although all of [str] was written. *)
Theorem writeString_readString_roundtrip (str : string) (size : option Z) bs s :
  caught_up bs s ->
  let width := match size with None => 33 | Some n => n end in
  exists s',
    (writeString str size ;; readString size) s =
      (Normal (take (Z.to_nat width) (padded_codes str width)), s') /\
    written (bs ++ flat_map octet_bits (padded_codes str width)) s' /\
    read_at (Z.of_nat (length bs) + 8 * Z.max 0 width) s'.
Proof.
  intros Hc width.
  destruct (writeString_reader str size bs s (proj1 Hc)) as (s1 & E1 & W1 & S1).
  fold width in W1.
  pose proof (read_at_same_reader _ _ _ S1 (proj2 Hc)) as Hr1.
  set (codes := padded_codes str width) in *.
  set (k := Z.to_nat width).
  assert (Hk : (k <= length codes)%nat)
    by (pose proof (padded_codes_length str width); unfold codes, k; lia).
  rewrite <- (take_drop k codes) in W1 at 1. rewrite flat_map_app in W1.
  destruct (readString_loop_written (take k codes) bs _ [] s1
              (Forall_take _ _ _ (padded_codes_octets _ _)) W1 Hr1) as (s2 & E2 & W2 & R2).
  exists s2. unfold bind. rewrite E1. unfold readString. fold width. fold k.
  rewrite length_take, Nat.min_l in E2 by exact Hk. rewrite E2.
  split; [reflexivity|].
  rewrite <- flat_map_app, take_drop in W2. split; [exact W2|].
  rewrite length_app, flat_map_octet_bits_length, length_take, Nat.min_l in R2 by exact Hk.
  replace (Z.of_nat (length bs) + 8 * Z.max 0 width)
    with (Z.of_nat (length bs + 8 * k)) by (unfold k; lia).
  exact R2.
Qed.

Lemma writeString_readString_roundtrip_witness :
  caught_up [] fresh /\
  exists s', (writeString "abc" (Some 5) ;; readString (Some 5)) fresh =
             (Normal [97; 98; 99; 0; 0], s').
Proof.
  split; [exact caught_up_fresh|].
  destruct (writeString_readString_roundtrip "abc" (Some 5) [] fresh caught_up_fresh)
    as (s' & E & _).
  exists s'. exact E.
Defined.

Lemma take_cons_take {A} k (u : A) us : take k (u :: take k us) = take k (u :: us).
Proof.
  destruct k; [reflexivity|]. rewrite !firstn_cons. f_equal.
  rewrite take_take. f_equal. lia.
Qed.

Lemma until_zero_nonzero l zs :
  Forall (fun c => c <> 0) l -> until_zero (l ++ replicate zs 0) = l.
Proof.
  induction 1 as [|c l Hc _ IH]; cbn [app until_zero].
  - destruct zs; reflexivity.
  - destruct (Z.eqb_spec c 0); [contradiction|]. now rewrite IH.
Qed.

Lemma until_zero_take_zero n l : until_zero (take n (0 :: l)) = [].
Proof. destruct n; reflexivity. Qed.

Lemma readWString_loop_written us : forall pre post (write : bool) text temp s,
  Forall octet us ->
  written (pre ++ flat_map wide_bits us ++ post) s ->
  read_at (Z.of_nat (length pre)) s ->
  0 <= temp < 65536 -> (write = true -> temp <> 0) ->
  exists s',
    readWString_loop (length us) write text temp s =
      (Normal (text ++ if write then until_zero (take (length us) (temp :: us)) else []),
       s') /\
    written (pre ++ flat_map wide_bits us ++ post) s' /\
    read_at (Z.of_nat (length (pre ++ flat_map wide_bits us))) s'.
Proof.
  induction us as [|u us IH]; intros pre post write text temp s Ho Hw Hr Ht Hwr.
  - exists s. cbn [flat_map length readWString_loop] in *.
    rewrite take_0. cbn [until_zero].
    assert (E : (if write then @nil Z else []) = []) by now destruct write.
    rewrite E, !app_nil_r.
    split; [reflexivity|]; split; assumption.
  - cbn [flat_map length] in *.
    assert (Hu : octet u) by (now inversion Ho). unfold octet in Hu.
    assert (Hus : Forall octet us) by (now inversion Ho).
    unfold wide_bits at 1, octet_bits in Hw. rewrite <- app_assoc in Hw.
    destruct (readShort_octets pre u 0 _ s Hw Hr) as (s1 & E1 & W1 & R1).
    change (0 mod 256) with 0 in E1. rewrite Z.mul_0_r, Z.add_0_r, Z.mod_small in E1 by lia.
    rewrite app_assoc in W1.
    rewrite firstn_cons. cbn [until_zero readWString_loop].
    destruct write.
    + specialize (Hwr eq_refl). destruct (Z.eqb_spec temp 0) as [|_]; [contradiction|].
      unfold bind. rewrite E1.
      destruct (IH (pre ++ bits_down u 7 8 ++ bits_down 0 7 8) post (negb (u =? 0))
                  (text ++ [fromCharCode temp]) u s1 Hus W1 R1 ltac:(lia)) as (s2 & E2 & W2 & R2).
      { destruct (Z.eqb_spec u 0); [discriminate | auto]. }
      exists s2. rewrite E2. unfold fromCharCode. rewrite Z.mod_small by lia.
      rewrite <- !app_assoc in *. cbn [app].
      unfold wide_bits at 1 3, octet_bits.
      split.
      * destruct (Z.eqb_spec u 0) as [->|]; cbn [negb];
          [rewrite until_zero_take_zero|]; reflexivity.
      * rewrite <- !app_assoc. split; assumption.
    + unfold bind. rewrite E1.
      destruct (IH (pre ++ bits_down u 7 8 ++ bits_down 0 7 8) post false text u s1
                  Hus W1 R1 ltac:(lia) ltac:(discriminate)) as (s2 & E2 & W2 & R2).
      exists s2. rewrite E2.
      rewrite <- !app_assoc in *.
      unfold wide_bits at 1 3, octet_bits.
      split; [reflexivity|]. rewrite <- !app_assoc. split; assumption.
Qed.

(** X13. For [size >= 1], [writeWString(str, size)] writes [size] characters
    as 16-bit little-endian units (the string cut or NUL-padded to [size])
    and [readWString(size)] consumes them all and returns the characters
    before the first NUL among the first [size - 1]: a string without NULs
    that is shorter than [size] comes back unchanged, a longer one loses
    everything from character [size - 1] on. *)
Theorem writeWString_readWString_roundtrip (str : string) (size : option Z) bs s :
  caught_up bs s ->
  let width := match size with None => 33 | Some n => n end in
  1 <= width ->
  exists s',
    (writeWString str size ;; readWString size) s =
      (Normal (until_zero (take (Z.to_nat (width - 1)) (padded_codes str width))), s') /\
    written (bs ++ flat_map wide_bits (take (Z.to_nat width) (padded_codes str width))) s' /\
    read_at (Z.of_nat (length bs) + 16 * width) s' /\
    (Z.of_nat (String.length str) < width ->
     Forall (fun c => c <> 0) (charCodes str) ->
     until_zero (take (Z.to_nat (width - 1)) (padded_codes str width)) = charCodes str).
Proof.
  intros Hc width Hwidth.
  destruct (writeWString_reader str size bs s (proj1 Hc)) as (s1 & E1 & W1 & S1).
  fold width in W1.
  pose proof (read_at_same_reader _ _ _ S1 (proj2 Hc)) as Hr1.
  pose proof (padded_codes_length str width) as Hlen.
  pose proof (padded_codes_octets str width) as Hoct.
  set (codes := padded_codes str width) in *.
  destruct codes as [|u us] eqn:Ecodes; [simpl in Hlen; lia|].
  replace (Z.to_nat width) with (S (Z.to_nat (width - 1))) in W1 by lia.
  rewrite firstn_cons in W1. cbn [flat_map] in W1.
  set (k := Z.to_nat (width - 1)) in *.
  assert (Hk : (k <= length us)%nat) by (simpl in Hlen; lia).
  assert (Hu : octet u) by (now inversion Hoct). unfold octet in Hu.
  assert (Hus : Forall octet us) by (now inversion Hoct).
  unfold wide_bits at 1, octet_bits in W1.
  destruct (readShort_octets bs u 0 _ s1 W1 Hr1) as (s2 & E2 & W2 & R2).
  change (0 mod 256) with 0 in E2. rewrite Z.mul_0_r, Z.add_0_r, Z.mod_small in E2 by lia.
  rewrite <- (app_nil_r (flat_map wide_bits (take k us))) in W2.
  rewrite app_assoc in W2.
  destruct (readWString_loop_written (take k us) _ [] (negb (u =? 0)) [] u s2
              (Forall_take _ _ _ Hus) W2 R2 ltac:(lia)) as (s3 & E3 & W3 & R3).
  { destruct (Z.eqb_spec u 0); [discriminate | auto]. }
  rewrite length_take, Nat.min_l in E3 by exact Hk.
  exists s3. unfold bind. rewrite E1. unfold readWString. fold width. fold k.
  unfold bind. rewrite E2, E3. cbn [app].
  split; [|split; [|split]].
  - f_equal. f_equal.
    destruct (Z.eqb_spec u 0) as [->|]; cbn [negb].
    + now rewrite until_zero_take_zero.
    + now rewrite take_cons_take.
  - rewrite <- app_assoc, app_nil_r in W3.
    replace (Z.to_nat width) with (S k) by (unfold k; lia). exact W3.
  - rewrite !length_app, flat_map_wide_bits_length, !bits_down_length, length_take,
      Nat.min_l in R3 by exact Hk.
    replace (Z.of_nat (length bs) + 16 * width)
      with (Z.of_nat (length bs + (8 + 8) + 16 * k)) by (unfold k; lia).
    exact R3.
  - intros Hshort Hnz. rewrite <- Ecodes. unfold codes, padded_codes.
    rewrite take_app_ge by (rewrite charCodes_length; lia).
    rewrite take_replicate. now apply until_zero_nonzero.
Qed.

Lemma writeWString_readWString_roundtrip_witness :
  caught_up [] fresh /\ 1 <= 5 /\
  exists s', (writeWString "abc" (Some 5) ;; readWString (Some 5)) fresh =
             (Normal [97; 98; 99], s').
Proof.
  split; [exact caught_up_fresh|]. split; [lia|].
  destruct (writeWString_readWString_roundtrip "abc" (Some 5) [] fresh caught_up_fresh
              ltac:(lia)) as (s' & E & _).
  exists s'. exact E.
Defined.

(** ** Copying a stream bit by bit *)

Lemma writeBitStream_loop_written rest : forall pre dst b s fuel,
  written (pre ++ rest) b -> read_at (Z.of_nat (length pre)) b ->
  written dst s -> (length rest < fuel)%nat ->
  exists b' s',
    writeBitStream_loop fuel (Z.of_nat (length pre)) b s = (Normal (Some b'), s') /\
    written (dst ++ rest) s' /\ same_reader s s' /\
    written (pre ++ rest) b' /\ read_at (Z.of_nat (length (pre ++ rest))) b'.
Proof.
  induction rest as [|x rest IH]; intros pre dst b s fuel Hb Hr Hs Hfuel;
    (destruct fuel as [|fuel]; [simpl in Hfuel; lia|]);
    cbn [writeBitStream_loop];
    destruct (written_bits_length _ _ Hb) as [-> _].
  - rewrite app_nil_r in *. rewrite Z.ltb_irrefl.
    exists b, s. rewrite app_nil_r. split; [reflexivity|].
    split; [assumption|]. split; [apply same_reader_refl|]. split; assumption.
  - destruct (Z.ltb_spec (Z.of_nat (length pre)) (Z.of_nat (length (pre ++ x :: rest))))
      as [_|H]; [|rewrite length_app in H; simpl in H; lia].
    destruct (readBit_next pre x rest b Hb Hr) as (b1 & E1 & W1 & R1).
    unfold bind at 1, on. rewrite E1. cbn [fst snd].
    replace (Z.b2z x =? 1) with x by now destruct x.
    destruct (writeBit_written dst s x Hs) as (s1 & E2 & W2 & S2).
    unfold bind. rewrite E2.
    replace (pre ++ x :: rest) with ((pre ++ [x]) ++ rest) in * by now rewrite <- app_assoc.
    replace (Z.of_nat (length pre) + 1) with (Z.of_nat (length (pre ++ [x])))
      by (rewrite length_app; simpl; lia).
    destruct (IH (pre ++ [x]) (dst ++ [x]) b1 s1 fuel W1 R1 W2 ltac:(simpl in Hfuel; lia))
      as (b' & s' & E & W & S & Wb & Rb).
    exists b', s'. split; [exact E|].
    replace (dst ++ x :: rest) with ((dst ++ [x]) ++ rest) by now rewrite <- app_assoc.
    split; [exact W|]. split; [eapply same_reader_trans; eassumption|].
    split; assumption.
Qed.

(** X14. [writeBitStream(bs)] appends all the bits of [bs] to this stream
    when the read cursor of [bs] stands at its start; it terminates after as
    many rounds as [bs] holds bits, leaves the reader of this stream alone
    and leaves [bs] read to its end. *)
Theorem writeBitStream_appends (src dst : list bool) (b s : BitStream) (fuel : nat) :
  written src b -> read_at 0 b -> written dst s -> (length src < fuel)%nat ->
  exists b' s',
    writeBitStream fuel b s = (Normal (Some b'), s') /\
    written (dst ++ src) s' /\ same_reader s s' /\
    written src b' /\ read_at (Z.of_nat (length src)) b'.
Proof.
  intros Hb Hr Hs Hfuel.
  exact (writeBitStream_loop_written src [] dst b s fuel Hb Hr Hs Hfuel).
Qed.

Lemma writeBitStream_appends_witness :
  exists b, writeBits 5 3 fresh = (Normal tt, b) /\
  exists b' s',
    writeBitStream 4 b fresh = (Normal (Some b'), s') /\
    written ([] ++ [true; false; true]) s'.
Proof.
  destruct (writeBits_written_any 5 3 [] fresh ltac:(lia) written_fresh)
    as (b & E0 & W0 & R0).
  exists b. split; [exact E0|].
  destruct (writeBitStream_appends _ [] b fresh 4 W0
              (read_at_same_reader _ _ _ R0 (proj2 caught_up_fresh))
              written_fresh ltac:(simpl; lia))
    as (b' & s' & E & W & _).
  exists b', s'. split; [exact E|exact W].
Defined.

(** ** Writing an octet at an octet boundary *)

Lemma writeByte_at_boundary s x :
  octet x -> writeBitPosition s = 7 -> 0 <= writeBytePosition s ->
  writeByte x s =
  (Normal tt,
   mkBitStream (regrown (data s) (writeBytePosition s) x) (writeBytePosition s + 1)
     (readBytePosition s) (readBitPosition s)
     (writeBytePosition s + 1) 7 (byte s)).
Proof.
  intros Hx H7 Hw. unfold writeByte. rewrite writeByte_loop_S. unfold bind at 1.
  rewrite writeBit_at7 by lia.
  erewrite (writeByte_loop_rest 6 _ _
              (take (Z.to_nat (writeBytePosition s)) (data s) ++
               replicate (Z.to_nat (writeBytePosition s) - length (data s)) 0));
    cbn [data byteCount readBytePosition readBitPosition
         writeBytePosition writeBitPosition byte];
    [ | unfold regrown; now rewrite <- app_assoc
      | unfold octet; destruct (_ =? _); simpl; lia
      | rewrite length_app, length_take, length_replicate; lia
      | reflexivity | lia ].
  rewrite pack_acc_octet by exact Hx. unfold regrown. now rewrite <- app_assoc.
Qed.

Lemma regrown_app old more wbyte last :
  0 <= wbyte <= Z.of_nat (length old) ->
  regrown (old ++ more) wbyte last = regrown old wbyte last.
Proof.
  intros H. unfold regrown. rewrite take_app_le by lia.
  rewrite length_app.
  replace (Z.to_nat wbyte - (length old + length more))%nat with 0%nat by lia.
  replace (Z.to_nat wbyte - length old)%nat with 0%nat by lia. reflexivity.
Qed.

(** X15. With the write cursor at an octet boundary inside or at the end of
    the buffer, [concat(bs)] followed by [writeByte(x)] leaves the stream
    exactly as [writeByte(x)] alone does: the write reallocates the buffer
    to [writeBytePosition + 1] octets and the octets taken from [bs] are
    gone. *)
Theorem concat_undone_by_writeByte (s bs : BitStream) (x : Z) :
  octet x -> writeBitPosition s = 7 ->
  0 <= writeBytePosition s <= Z.of_nat (length (data s)) ->
  (concat bs ;; writeByte x) s = writeByte x s /\
  data (snd (writeByte x s)) = take (Z.to_nat (writeBytePosition s)) (data s) ++ [x] /\
  length_ (snd (writeByte x s)) = writeBytePosition s + 1.
Proof.
  intros Hx H7 Hw. split.
  - unfold bind, concat. run_monad.
    rewrite !writeByte_at_boundary by (cbn; assumption || lia).
    cbn [data byteCount readBytePosition readBitPosition
         writeBytePosition writeBitPosition byte].
    now rewrite regrown_app.
  - rewrite writeByte_at_boundary by (assumption || lia).
    cbn [snd data length_ byteCount]. unfold length_. cbn [byteCount]. split; [|reflexivity].
    unfold regrown.
    replace (Z.to_nat (writeBytePosition s) - length (data s))%nat with 0%nat by lia.
    reflexivity.
Qed.

Lemma concat_undone_by_writeByte_witness :
  octet 7 /\
  (concat (new_BitStream (Some [1; 2])) ;; writeByte 7) fresh = writeByte 7 fresh /\
  data (snd (writeByte 7 fresh)) = [7].
Proof.
  assert (H : octet 7) by (unfold octet; lia).
  split; [exact H|].
  destruct (concat_undone_by_writeByte fresh (new_BitStream (Some [1; 2])) 7 H eq_refl
              ltac:(simpl; lia)) as (E & D & _).
  split; [exact E|exact D].
Defined.

(** ** Octets addressed by offset *)

Lemma copy_loop old r : forall i m s,
  Forall octet old -> (i + r <= length old)%nat ->
  data s = take i old ++ replicate (r + m) 0 ->
  for_upto (Z.of_nat i) r (copy_body old) s =
  (Normal tt,
   mkBitStream (take (i + r) old ++ replicate m 0) (byteCount s)
     (readBytePosition s) (readBitPosition s)
     (writeBytePosition s) (writeBitPosition s) (byte s)).
Proof.
  induction r as [|r IH]; intros i m s Ho Hr Hd.
  - cbn [for_upto]. unfold ret. cbn [Nat.add] in Hd. rewrite Nat.add_0_r, <- Hd.
    now destruct s.
  - cbn [for_upto]. unfold bind at 1, copy_body. unfold bind at 1.
    unfold lift at 1, Buffer.readUInt8.
    destruct (Z.leb_spec 0 (Z.of_nat i)); [|lia].
    destruct (Z.ltb_spec (Z.of_nat i) (Z.of_nat (length old))); [|lia].
    cbn [andb]. rewrite Nat2Z.id. run_monad.
    pose proof (octet_nth old i Ho) as Hv. unfold octet in Hv.
    unfold Buffer.writeUInt8.
    destruct (Z.ltb_spec (nth i old 0) 0); [lia|].
    destruct (Z.ltb_spec 255 (nth i old 0)); [lia|]. cbn [orb].
    destruct (Z.leb_spec 0 (Z.of_nat i)); [|lia].
    rewrite Hd, length_app, length_take, length_replicate.
    destruct (Z.ltb_spec (Z.of_nat i) (Z.of_nat (i `min` length old + (S r + m))));
      [|lia].
    cbn [andb]. rewrite Nat2Z.id.
    rewrite insert_app_r_alt by (rewrite length_take; lia).
    rewrite length_take. replace (i - i `min` length old)%nat with 0%nat by lia.
    cbn [Nat.add replicate]. 
    replace (Z.of_nat i + 1) with (Z.of_nat (S i)) by lia.
    rewrite IH with (m := m); cbn [data byteCount readBytePosition readBitPosition
         writeBytePosition writeBitPosition byte]; [|assumption|lia|].
    + replace (S i + r)%nat with (i + S r)%nat by lia. reflexivity.
    + destruct (lookup_lt_is_Some_2 old i ltac:(lia)) as [v Ev].
      rewrite (take_S_r _ _ _ Ev), <- app_assoc. cbn [app].
      rewrite nth_lookup, Ev. reflexivity.
Qed.

Lemma copy_loop_0 old r m s :
  Forall octet old -> (r <= length old)%nat ->
  data s = replicate (r + m) 0 ->
  for_upto 0 r (copy_body old) s =
  (Normal tt,
   mkBitStream (take r old ++ replicate m 0) (byteCount s)
     (readBytePosition s) (readBitPosition s)
     (writeBytePosition s) (writeBitPosition s) (byte s)).
Proof. intros Ho Hr Hd. exact (copy_loop old r 0%nat m s Ho Hr Hd). Qed.

Lemma writeByteOffset_inside s n o :
  octet n -> 0 <= o < byteCount s -> byteCount s <= Z.of_nat (length (data s)) ->
  writeByteOffset n o s =
  (Normal tt,
   mkBitStream (<[Z.to_nat o := n]> (data s)) (byteCount s)
     (readBytePosition s) (readBitPosition s)
     (writeBytePosition s) (writeBitPosition s) (byte s)).
Proof.
  intros Hn Ho Hc. unfold octet in Hn. unfold writeByteOffset. run_monad. unfold length_.
  destruct (Z.ltb_spec (byteCount s) (o + 1)); [lia|]. run_monad.
  unfold Buffer.writeUInt8.
  destruct (Z.ltb_spec n 0); [lia|]. destruct (Z.ltb_spec 255 n); [lia|].
  destruct (Z.leb_spec 0 o); [|lia].
  destruct (Z.ltb_spec o (Z.of_nat (length (data s)))); [|lia].
  reflexivity.
Qed.

Lemma writeByteOffset_grows s n o :
  octet n -> 0 <= o -> byteCount s <= o -> Forall octet (data s) ->
  0 <= writeBytePosition s <= Z.of_nat (length (data s)) ->
  writeBytePosition s <= o + 1 ->
  writeByteOffset n o s =
  (Normal tt,
   mkBitStream
     (<[Z.to_nat o := n]>
        (take (Z.to_nat (writeBytePosition s)) (data s) ++
         replicate (Z.to_nat (o + 1 - writeBytePosition s)) 0))
     (o + 1)
     (readBytePosition s) (readBitPosition s)
     (writeBytePosition s) (writeBitPosition s) (byte s)).
Proof.
  intros Hn Ho Hc Hoct Hw Hwo. unfold octet in Hn. unfold writeByteOffset.
  unfold bind at 1, get at 1. unfold bind at 1, get at 1, length_.
  destruct (Z.ltb_spec (byteCount s) (o + 1)); [|lia].
  unfold Buffer.alloc. destruct (Z.ltb_spec (o + 1) 0); [lia|].
  change (fun i : Z => v <- lift (Buffer.readUInt8 (data s) i) ;;
                       buf <- get data ;;
                       buf' <- lift (Buffer.writeUInt8 buf v i) ;; set_data buf')
    with (copy_body (data s)).
  run_monad.
  rewrite (copy_loop_0 (data s) (Z.to_nat (writeBytePosition s))
             (Z.to_nat (o + 1 - writeBytePosition s)));
    cbn [data byteCount readBytePosition readBitPosition
         writeBytePosition writeBitPosition byte]; [|assumption|lia|f_equal; lia].
  unfold Buffer.writeUInt8.
  destruct (Z.ltb_spec n 0); [lia|]. destruct (Z.ltb_spec 255 n); [lia|].
  destruct (Z.leb_spec 0 o); [|lia].
  rewrite length_app, length_take, length_replicate.
  cbn [orb andb].
  match goal with |- context [o <? ?x] => destruct (Z.ltb_spec o x); [|lia] end.
  reflexivity.
Qed.

(** X16. On a stream satisfying the class invariant with the write cursor
    inside the buffer, [writeByteOffset(n, o)] with an octet [n] and [o >=
    0] never fails and [readByteOffset(o)] then returns [n].  Inside the
    buffer only octet [o] changes.  At or past the end the buffer is
    reallocated to [o + 1] octets of which only the first
    [writeBytePosition] old octets are kept, the rest up to [o] being zero.
    The cursors are never moved. *)
Theorem writeByteOffset_spec (s : BitStream) (n o : Z) :
  well_formed s -> writeBytePosition s <= byteCount s -> octet n -> 0 <= o ->
  exists s',
    writeByteOffset n o s = (Normal tt, s') /\
    readByteOffset o s' = (Normal n, s') /\
    (o < byteCount s ->
     data s' = <[Z.to_nat o := n]> (data s) /\ byteCount s' = byteCount s) /\
    (byteCount s <= o ->
     data s' = take (Z.to_nat (writeBytePosition s)) (data s) ++
               replicate (Z.to_nat (o - writeBytePosition s)) 0 ++ [n] /\
     byteCount s' = o + 1) /\
    writeBytePosition s' = writeBytePosition s /\
    writeBitPosition s' = writeBitPosition s /\ same_reader s s'.
Proof.
  intros [Hc Hoct Hrb Hrbit Hw Hb Hi] Hwc Hn Ho.
  destruct (Z.lt_ge_cases o (byteCount s)) as [Hin|Hout].
  - eexists. split; [apply writeByteOffset_inside; assumption || lia|].
    cbn [data byteCount writeBytePosition writeBitPosition].
    split; [|split; [auto|split; [lia|split; [reflexivity|split;
                                               [reflexivity|now unfold same_reader]]]]].
    unfold readByteOffset. run_monad. unfold Buffer.readUInt8.
    rewrite length_insert.
    destruct (Z.leb_spec 0 o); [|lia].
    destruct (Z.ltb_spec o (Z.of_nat (length (data s)))); [|lia]. cbn [andb].
    rewrite nth_lookup, list_lookup_insert_eq by lia. reflexivity.
  - eexists. split; [apply writeByteOffset_grows; assumption || lia|].
    cbn [data byteCount writeBytePosition writeBitPosition].
    assert (E : <[Z.to_nat o := n]>
                  (take (Z.to_nat (writeBytePosition s)) (data s) ++
                   replicate (Z.to_nat (o + 1 - writeBytePosition s)) 0) =
                take (Z.to_nat (writeBytePosition s)) (data s) ++
                replicate (Z.to_nat (o - writeBytePosition s)) 0 ++ [n]).
    { rewrite insert_app_r_alt by (rewrite length_take; lia).
      rewrite length_take. f_equal.
      replace (Z.to_nat (o + 1 - writeBytePosition s))
        with (Z.to_nat (o - writeBytePosition s) + 1)%nat by lia.
      rewrite replicate_add. cbn [replicate].
      rewrite insert_app_r_alt by (rewrite length_replicate; lia).
      rewrite length_replicate. f_equal.
      replace (_ - _ - _)%nat with 0%nat by lia. reflexivity. }
    rewrite E.
    split; [|split; [lia|split; [auto|split; [reflexivity|split;
                                               [reflexivity|now unfold same_reader]]]]].
    unfold readByteOffset. run_monad. unfold Buffer.readUInt8.
    rewrite !length_app, length_take, length_replicate. cbn [length].
    destruct (Z.leb_spec 0 o); [|lia].
    match goal with |- context [o <? ?x] => destruct (Z.ltb_spec o x); [|lia] end.
    cbn [andb].
    rewrite app_assoc, nth_lookup, lookup_app_r
      by (rewrite length_app, length_take, length_replicate; lia).
    rewrite length_app, length_take, length_replicate.
    replace (_ - _)%nat with 0%nat by lia. reflexivity.
Qed.

Lemma writeByteOffset_spec_witness :
  well_formed (new_BitStream (Some [0])) /\ octet 0xAA /\
  exists s',
    writeByteOffset 0xAA 2 (new_BitStream (Some [0])) = (Normal tt, s') /\
    readByteOffset 2 s' = (Normal 0xAA, s').
Proof.
  assert (Hw : well_formed (new_BitStream (Some [0])))
    by (apply well_formed_new; repeat constructor; unfold octet; lia).
  assert (Ho : octet 0xAA) by (unfold octet; lia).
  split; [exact Hw|]. split; [exact Ho|].
  destruct (writeByteOffset_spec (new_BitStream (Some [0])) 0xAA 2 Hw
              ltac:(simpl; lia) Ho ltac:(lia)) as (s' & E & R & _).
  exists s'. split; [exact E|exact R].
Defined.

(** ** The class invariant *)

Lemma writeByte_loop_well_formed r : forall n s,
  well_formed s ->
  exists s', writeByte_loop r n s = (Normal tt, s') /\ well_formed s'.
Proof.
  induction r as [|r IH]; intros n s Hs.
  - exists s. now split.
  - rewrite writeByte_loop_S. unfold bind.
    destruct (writeBit_well_formed s (Js.ushr (Js.and n 0x80) 7 =? 1) Hs) as (s1 & -> & H1).
    apply IH, H1.
Qed.

Lemma writeBits_well_formed k : forall n s,
  well_formed s ->
  exists s', writeBits n k s = (Normal tt, s') /\ well_formed s'.
Proof.
  induction k as [|k IH]; intros n s Hs.
  - exists s. now split.
  - cbn [writeBits]. unfold bind.
    destruct (writeBit_well_formed s (Js.and (Js.shr n (Z.of_nat (S k) - 1)) 0x01 =? 1) Hs)
      as (s1 & -> & H1).
    apply IH, H1.
Qed.

Lemma writeByte_well_formed n s :
  well_formed s -> exists s', writeByte n s = (Normal tt, s') /\ well_formed s'.
Proof. apply writeByte_loop_well_formed. Qed.

Lemma readBits_loop_well_formed k : forall val s v s',
  well_formed s -> readBits_loop k val s = (Normal v, s') -> well_formed s'.
Proof.
  induction k as [|k IH]; intros val s v s' Hs E.
  - cbn in E. inversion E. now subst.
  - rewrite readBits_loop_S in E. unfold bind in E.
    destruct (readBit s) as [[b|e] s1] eqn:E1; [|discriminate].
    eapply IH; [|exact E]. eapply readBit_well_formed; eassumption.
Qed.

Lemma readBits_well_formed k s v s' :
  well_formed s -> readBits k s = (Normal v, s') -> well_formed s'.
Proof.
  intros Hs E. unfold readBits in E. unfold bind at 1, get at 1 in E.
  unfold bind at 1, get at 1 in E. unfold bind at 1 in E.
  destruct (readBytePosition s <? byteCount s).
  - unfold bind at 1, get at 1 in E. unfold bind at 1, lift at 1 in E.
    destruct (Buffer.readUInt8 (data s) (readBytePosition s)) as [b|e]; [|discriminate].
    unfold set_byte in E. eapply readBits_loop_well_formed; [|exact E].
    destruct Hs. split; assumption.
  - unfold ret in E. eapply readBits_loop_well_formed; eassumption.
Qed.

(** X17. On a stream satisfying the class invariant, [writeBits],
    [writeByte], [writeShort] and [writeLong] never fail, whatever integer
    they are given, and keep the invariant; [readBits] keeps it whenever it
    returns; [alignRead], [alignWrite] and [concat] of a stream that
    satisfies it keep it too. *)
Theorem class_invariant_kept (s : BitStream) :
  well_formed s ->
  (forall n k, exists s', writeBits n k s = (Normal tt, s') /\ well_formed s') /\
  (forall n, exists s', writeByte n s = (Normal tt, s') /\ well_formed s') /\
  (forall n, exists s', writeShort n s = (Normal tt, s') /\ well_formed s') /\
  (forall n, exists s', writeLong n s = (Normal tt, s') /\ well_formed s') /\
  (forall k v s', readBits k s = (Normal v, s') -> well_formed s') /\
  well_formed (snd (alignRead s)) /\
  well_formed (snd (alignWrite s)) /\
  (forall bs, well_formed bs -> well_formed (snd (concat bs s))).
Proof.
  intros Hs.
  assert (Hshort : forall n s0, well_formed s0 ->
            exists s', writeShort n s0 = (Normal tt, s') /\ well_formed s').
  { intros n s0 H0. unfold writeShort, bind.
    destruct (writeByte_well_formed (Js.and n 0xff) s0 H0) as (s1 & -> & H1).
    apply writeByte_well_formed, H1. }
  split; [intros n k; now apply writeBits_well_formed|].
  split; [intros n; now apply writeByte_well_formed|].
  split; [intros n; now apply Hshort|].
  split.
  { intros n. unfold writeLong, bind.
    destruct (Hshort (Js.and n 0xffff) s Hs) as (s1 & -> & H1). apply Hshort, H1. }
  split; [intros k v s' E; eapply readBits_well_formed; eassumption|].
  split; [now apply alignRead_well_formed|].
  split; [now apply alignWrite_well_formed|].
  intros bs Hbs. now apply concat_well_formed.
Qed.

Lemma class_invariant_kept_witness :
  well_formed fresh /\
  exists s', writeLong 1 fresh = (Normal tt, s') /\ well_formed s'.
Proof.
  split; [exact well_formed_fresh|].
  exact (proj1 (proj2 (proj2 (proj2 (class_invariant_kept fresh well_formed_fresh)))) 1).
Defined.

(** ** [ord] *)

(** X18. [ord] inverts the UTF-16 encoding of the supplementary planes: for
    every code point [c] from 0x10000 to 0x10FFFF, [ord] of a string that
    starts with the surrogate pair of [c] is [c]. *)
Theorem ord_decodes_surrogate_pair (c : Z) :
  0x10000 <= c <= 0x10FFFF ->
  let hi := 0xD800 + (c - 0x10000) / 0x400 in
  let lo := 0xDC00 + (c - 0x10000) mod 0x400 in
  0xD800 <= hi <= 0xDBFF /\ 0xDC00 <= lo <= 0xDFFF /\
  forall rest, ord (hi :: lo :: rest) = Some c.
Proof.
  intros Hc hi lo.
  assert (Hhi : 0xD800 <= hi <= 0xDBFF) by (unfold hi; dlia).
  assert (Hlo : 0xDC00 <= lo <= 0xDFFF) by (unfold lo; dlia).
  split; [exact Hhi|]. split; [exact Hlo|]. intros rest. unfold ord.
  destruct (Z.leb_spec 0xD800 hi); [|lia]. destruct (Z.leb_spec hi 0xDBFF); [|lia].
  cbn [andb]. f_equal. unfold hi, lo. dlia.
Qed.

Lemma ord_decodes_surrogate_pair_witness :
  0x10000 <= 0x1F600 <= 0x10FFFF /\ ord [0xD83D; 0xDE00] = Some 0x1F600.
Proof.
  split; [lia|].
  exact (proj2 (proj2 (ord_decodes_surrogate_pair 0x1F600 ltac:(lia))) []).
Defined.

(** ** Compressed integers, octet by octet *)

Lemma octet_at_octet v i : octet (octet_at v i).
Proof. unfold octet, octet_at. apply Z.mod_pos_bound. lia. Qed.

Lemma octet_at_octets v l : Forall octet (map (octet_at v) l).
Proof. induction l; constructor; [apply octet_at_octet | assumption]. Qed.

Lemma shr_and_testbit n c k w i :
  is_mask c k w = true -> 0 <= k -> 0 <= i < w -> i + k < 32 ->
  Z.testbit (Js.shr (Js.and n c) k) i = Z.testbit n (i + k).
Proof.
  intros Hm Hk Hi Hik. unfold Js.shr. rewrite shiftCount_small by lia.
  rewrite Z.shiftr_spec by lia. rewrite ToInt32_testbit by lia.
  unfold Js.and. rewrite Z.land_spec, !ToInt32_testbit by lia.
  rewrite (is_mask_spec c k w (i + k) Hm) by lia.
  destruct (Z.leb_spec k (i + k)); [|lia]. destruct (Z.ltb_spec (i + k) (k + w)); [|lia].
  apply andb_true_r.
Qed.

Lemma shr_and_bits n c i :
  is_mask c (8 * i) 8 = true -> 0 <= i < 4 ->
  bits_down (Js.shr (Js.and n c) (i * 8)) 7 8 = octet_bits (octet_at n i).
Proof.
  intros Hm Hi. unfold octet_bits, octet_at. change 256 with (2 ^ 8).
  rewrite (bits_down_field n (8 * i) 8 7 8) by lia.
  apply bits_down_shift. intros j Hj.
  replace (i * 8) with (8 * i) by lia.
  apply (shr_and_testbit n c (8 * i) 8 j Hm); lia.
Qed.

Lemma int32_sign a i : - 2 ^ 31 <= a < 2 ^ 31 -> 31 <= i -> Z.testbit a i = (a <? 0).
Proof.
  intros Ha Hi. destruct (Z.ltb_spec a 0) as [Hneg|Hpos].
  - rewrite <- (Z.lnot_involutive a), Z.lnot_spec by lia.
    assert (R : 0 <= Z.lnot a < 2 ^ 31) by (unfold Z.lnot; lia).
    rewrite <- (Z.mod_small (Z.lnot a) (2 ^ 31)) by lia.
    now rewrite Z.mod_pow2_bits_high by lia.
  - rewrite <- (Z.mod_small a (2 ^ 31)) by lia.
    now rewrite Z.mod_pow2_bits_high by lia.
Qed.

Lemma and_zero_low n c :
  (forall i, 0 <= i < 32 -> Z.testbit (Js.and n c) i = false) -> Js.and n c = 0.
Proof.
  intros H. apply Z.bits_inj'. intros i Hi. rewrite Z.bits_0.
  destruct (Z.lt_ge_cases i 32) as [Hlt|Hge]; [apply H; lia|].
  specialize (H 31 ltac:(lia)). unfold Js.and in *. rewrite Z.land_spec in *.
  rewrite !(int32_sign _ i) by (apply ToInt32_range || lia).
  rewrite !(int32_sign _ 31) in H by (apply ToInt32_range || lia). exact H.
Qed.

Lemma and_mask_zero n c k w :
  is_mask c k w = true -> 0 <= k < 32 -> 0 <= w -> k + w <= 32 ->
  (Js.and n c =? 0) = ((n / 2 ^ k) mod 2 ^ w =? 0).
Proof.
  intros Hm Hk Hw Hkw.
  pose proof (ushr_field n c k w Hm Hk Hw Hkw) as F.
  destruct (Z.eqb_spec (Js.and n c) 0) as [E|E].
  - rewrite E in F. unfold Js.ushr, Js.ToUint32 in F.
    rewrite Z.mod_0_l, Z.shiftr_0_l in F by lia. rewrite <- F. reflexivity.
  - destruct (Z.eqb_spec ((n / 2 ^ k) mod 2 ^ w) 0) as [E'|E']; [|reflexivity].
    exfalso. apply E. apply and_zero_low. intros i Hi.
    unfold Js.and. rewrite Z.land_spec, !ToInt32_testbit by lia.
    rewrite (is_mask_spec c k w i Hm) by lia.
    destruct (Z.leb_spec k i); [|now rewrite andb_false_r].
    destruct (Z.ltb_spec i (k + w)); [|now rewrite andb_false_r]. cbn [andb].
    rewrite andb_true_r.
    replace i with ((i - k) + k) by lia.
    rewrite <- Z.div_pow2_bits by lia.
    rewrite <- (Z.mod_pow2_bits_low _ w) by lia. rewrite E'. apply Z.bits_0.
Qed.

Lemma is_mask_byte0 : is_mask 0xFF (8 * 0) 8 = true. Proof. reflexivity. Qed.
Lemma is_mask_byte1 : is_mask 0xFF00 (8 * 1) 8 = true. Proof. reflexivity. Qed.
Lemma is_mask_byte2 : is_mask 0xFF0000 (8 * 2) 8 = true. Proof. reflexivity. Qed.
Lemma is_mask_byte3 : is_mask 0xFF000000 (8 * 3) 8 = true. Proof. reflexivity. Qed.

Lemma byte_mask_is_mask i :
  0 <= i < 4 -> is_mask (Js.index byte_mask i) (8 * i) 8 = true.
Proof.
  intros Hi.
  assert (C : i = 0 \/ i = 1 \/ i = 2 \/ i = 3) by lia.
  destruct C as [->|[->|[->| ->]]]; reflexivity.
Qed.

(** The flag [writeCompressed] derives for octet [i]. *)
Lemma compressed_flag d i :
  0 <= i < 4 -> (Js.and d (Js.index byte_mask i) =? 0) = (octet_at d i =? 0).
Proof.
  intros Hi. unfold octet_at. change 256 with (2 ^ 8).
  apply and_mask_zero; [now apply byte_mask_is_mask|lia..].
Qed.

(** The octets [writeCompressed] emits once it has met a non-zero one. *)
Lemma compressed_octets_written d k bs s :
  (k <= 4)%nat -> written bs s ->
  exists s',
    for_upto 0 k
      (fun i => writeByte (Js.shr (Js.and d (Js.index byte_mask i)) (i * 8))) s
    = (Normal tt, s') /\
    written (bs ++ flat_map octet_bits (map (octet_at d) (seqZ 0 (Z.of_nat k)))) s' /\
    same_reader s s'.
Proof.
  intros Hk Hw.
  destruct (for_upto_written
              (fun i => bits_down (Js.shr (Js.and d (Js.index byte_mask i)) (i * 8)) 7 8)
              (fun i => writeByte (Js.shr (Js.and d (Js.index byte_mask i)) (i * 8)))
              (fun i => writeByte_written _) k 0 bs s Hw) as (s' & E & W & R).
  exists s'. split; [exact E|]. split; [|exact R].
  assert (F : forall l : list Z, Forall (fun i => 0 <= i < 4) l ->
            flat_map (fun i => bits_down (Js.shr (Js.and d (Js.index byte_mask i)) (i * 8))
                                 7 8) l =
            flat_map octet_bits (map (octet_at d) l)).
  { induction 1 as [|i l Hi _ IH]; cbn [flat_map map]; [reflexivity|].
    rewrite IH. f_equal. apply shr_and_bits; [now apply byte_mask_is_mask | exact Hi]. }
  rewrite F in W; [exact W|].
  apply Forall_forall. intros i Hi. apply elem_of_seqZ in Hi. lia.
Qed.

Lemma writeCompressed_loop_top d j : forall k bs s,
  (1 <= k)%nat -> (j + k < 4)%nat ->
  (forall i, (k < i <= j + k)%nat -> octet_at d (Z.of_nat i) = 0) ->
  octet_at d (Z.of_nat k) <> 0 ->
  written bs s ->
  exists s',
    writeCompressed_loop d (j + k) s = (Normal tt, s') /\
    written (bs ++ replicate j true ++
             false :: flat_map octet_bits (map (octet_at d) (seqZ 0 (Z.of_nat k + 1)))) s' /\
    same_reader s s'.
Proof.
  induction j as [|j IH]; intros k bs s Hk Hjk Hz Hnz Hw.
  - destruct k as [|k]; [lia|]. cbn [Nat.add replicate app writeCompressed_loop].
    cbv zeta. rewrite compressed_flag by lia.
    destruct (Z.eqb_spec (octet_at d (Z.of_nat (S k))) 0) as [|_]; [contradiction|].
    cbn [negb]. unfold bind.
    destruct (writeBit_written bs s false Hw) as (s1 & -> & W1 & R1).
    destruct (compressed_octets_written d (Z.to_nat (Z.of_nat (S k) + 1)) _ s1
                ltac:(lia) W1) as (s2 & E2 & W2 & R2).
    exists s2. split; [exact E2|].
    rewrite Z2Nat.id in W2 by lia. rewrite <- app_assoc in W2. cbn [app] in W2.
    split; [exact W2|]. eapply same_reader_trans; eassumption.
  - cbn [Nat.add replicate app writeCompressed_loop].
    cbv zeta. rewrite compressed_flag by lia.
    rewrite (Hz (S (j + k))) by lia. cbn [Z.eqb negb]. unfold bind.
    destruct (writeBit_written bs s true Hw) as (s1 & -> & W1 & R1).
    destruct (IH k _ s1 Hk ltac:(lia) ltac:(intros i Hi; apply Hz; lia) Hnz W1)
      as (s2 & E2 & W2 & R2).
    exists s2. split; [exact E2|].
    rewrite <- app_assoc in W2. cbn [app] in W2.
    split; [exact W2|]. eapply same_reader_trans; eassumption.
Qed.

Lemma fresh_octets_stream : new_BitStream None = octets_stream [].
Proof. reflexivity. Qed.

Lemma ret_writeByte_octets x l s :
  octet x -> ret_writeByte x (octets_stream l) s = (Normal (octets_stream (l ++ [x])), s).
Proof.
  intros Hx. unfold ret_writeByte, bind, on.
  rewrite writeByte_append by (assumption || reflexivity).
  cbn [snd ret data byteCount readBytePosition readBitPosition
       writeBytePosition writeBitPosition byte octets_stream].
  unfold ret, octets_stream. rewrite length_app. cbn [length].
  replace (Z.of_nat (length l + 1)) with (Z.of_nat (length l) + 1) by lia. reflexivity.
Qed.

Lemma repeat_zero n : forall l s,
  repeat_on n (octets_stream l) (ret_writeByte 0) s =
  (Normal (octets_stream (l ++ replicate n 0)), s).
Proof.
  induction n as [|n IH]; intros l s; cbn [repeat_on replicate].
  - now rewrite app_nil_r.
  - unfold bind. rewrite ret_writeByte_octets by (unfold octet; lia).
    rewrite IH, <- app_assoc. reflexivity.
Qed.

Lemma repeat_read bytes : forall l pre post s,
  Forall octet bytes ->
  written (pre ++ flat_map octet_bits bytes ++ post) s ->
  read_at (Z.of_nat (length pre)) s ->
  exists s',
    repeat_on (length bytes) (octets_stream l)
      (fun o => v <- readByte ;; ret_writeByte v o) s =
    (Normal (octets_stream (l ++ bytes)), s') /\
    written (pre ++ flat_map octet_bits bytes ++ post) s' /\
    read_at (Z.of_nat (length (pre ++ flat_map octet_bits bytes))) s'.
Proof.
  induction bytes as [|c bytes IH]; intros l pre post s Ho Hw Hr.
  - exists s. cbn [flat_map length repeat_on] in *. rewrite !app_nil_r.
    split; [reflexivity|]. split; assumption.
  - cbn [flat_map length repeat_on] in *. unfold octet_bits at 1 in Hw.
    rewrite <- app_assoc in Hw.
    assert (Hc : octet c) by (now inversion Ho).
    destruct (readByte_next pre c 7 _ s ltac:(lia) Hw Hr) as (s1 & E1 & W1 & R1 & _).
    change (2 ^ (7 - 7)) with 1 in E1. rewrite Z.div_1_r in E1.
    unfold octet in Hc. rewrite Z.mod_small in E1 by lia.
    rewrite app_assoc in W1.
    destruct (IH (l ++ [c]) _ post s1 ltac:(now inversion Ho) W1 R1) as (s2 & E2 & W2 & R2).
    exists s2. unfold bind at 1. unfold bind at 1. rewrite E1.
    rewrite ret_writeByte_octets by exact Hc. rewrite E2.
    rewrite <- !app_assoc in *. cbn [app]. unfold octet_bits at 1 3.
    split; [reflexivity|]. split; assumption.
Qed.

Lemma readCompressed_loop_top size j : forall k l bytes pre post s,
  (1 <= k)%nat -> length bytes = S k -> Forall octet bytes ->
  written (pre ++ (replicate j true ++ false :: flat_map octet_bits bytes) ++ post) s ->
  read_at (Z.of_nat (length pre)) s ->
  exists s',
    readCompressed_loop size (j + k) (octets_stream l) s =
    (Normal (octets_stream
               (l ++ replicate (Z.to_nat (size - Z.of_nat k - 1)) 0 ++ bytes)), s').
Proof.
  induction j as [|j IH]; intros k l bytes pre post s Hk Hlen Ho Hw Hr.
  - destruct k as [|k]; [lia|].
    cbn [Nat.add replicate app readCompressed_loop] in *.
    destruct (readBit_next pre false _ s Hw Hr) as (s1 & E1 & W1 & R1).
    unfold bind at 1. rewrite E1. cbn [Z.b2z Z.eqb negb].
    unfold bind at 1. rewrite repeat_zero.
    replace (pre ++ false :: flat_map octet_bits bytes ++ post)
      with ((pre ++ [false]) ++ flat_map octet_bits bytes ++ post) in W1
      by now rewrite <- app_assoc.
    destruct (repeat_read bytes (l ++ replicate (Z.to_nat (size - Z.of_nat (S k) - 1)) 0)
                _ post s1 Ho W1 R1) as (s2 & E2 & _).
    replace (Z.to_nat (Z.of_nat (S k) + 1)) with (length bytes) by lia.
    exists s2. rewrite E2, <- app_assoc. reflexivity.
  - cbn [Nat.add replicate app readCompressed_loop] in *.
    destruct (readBit_next pre true _ s Hw Hr) as (s1 & E1 & W1 & R1).
    unfold bind at 1. rewrite E1. cbn [Z.b2z Z.eqb negb].
    replace (pre ++ true :: (replicate j true ++ false :: flat_map octet_bits bytes) ++ post)
      with ((pre ++ [true]) ++
            (replicate j true ++ false :: flat_map octet_bits bytes) ++ post) in W1
      by now rewrite <- !app_assoc.
    apply (IH k l bytes (pre ++ [true]) post s1 Hk Hlen Ho W1 R1).
Qed.

(** A value whose highest non-zero octet is octet [k >= 1], in [j + k + 1]
    octets: the decoder puts the [j] zero octets first. *)
Lemma compressed_high d j k :
  (1 <= k)%nat -> (j + k < 4)%nat ->
  (forall i, (k < i <= j + k)%nat -> octet_at d (Z.of_nat i) = 0) ->
  octet_at d (Z.of_nat k) <> 0 ->
  exists s',
    (writeCompressed d (Z.of_nat (j + k) + 1) ;;
     readCompressed (Z.of_nat (j + k) + 1)) (new_BitStream None) =
    (Normal (octets_stream
               (replicate j 0 ++ map (octet_at d) (seqZ 0 (Z.of_nat k + 1)))), s').
Proof.
  intros Hk Hjk Hz Hnz. unfold writeCompressed, readCompressed.
  replace (Z.to_nat (Z.of_nat (j + k) + 1 - 1)) with (j + k)%nat by lia.
  destruct (writeCompressed_loop_top d j k [] fresh Hk Hjk Hz Hnz written_fresh)
    as (s1 & E1 & W1 & R1).
  unfold bind. change (new_BitStream None) with fresh at 1. rewrite E1.
  rewrite fresh_octets_stream.
  cbn [app] in W1.
  destruct (readCompressed_loop_top (Z.of_nat (j + k) + 1) j k []
              (map (octet_at d) (seqZ 0 (Z.of_nat k + 1))) [] [] s1 Hk) as (s2 & E2).
  - rewrite length_map, length_seqZ. lia.
  - apply octet_at_octets.
  - cbn [app]. rewrite app_nil_r. exact W1.
  - exact (read_at_same_reader _ _ _ R1 (proj2 caught_up_fresh)).
  - exists s2. rewrite E2. cbn [app].
    replace (Z.to_nat (Z.of_nat (j + k) + 1 - Z.of_nat k - 1)) with j by lia.
    reflexivity.
Qed.

Lemma compressed_low_value_all size v :
  size = 2 \/ size = 4 -> 0 <= v < 256 -> compressed_low_value size v = true.
Proof.
  intros Hsize Hv.
  assert (H2 : forallb (compressed_low_value 2) (seqZ 0 256) = true)
    by (vm_compute; reflexivity).
  assert (H4 : forallb (compressed_low_value 4) (seqZ 0 256) = true)
    by (vm_compute; reflexivity).
  destruct Hsize as [-> | ->];
    [exact (forallb_seqZ _ 0 256 H2 v ltac:(lia))
    |exact (forallb_seqZ _ 0 256 H4 v ltac:(lia))].
Qed.

Lemma log2_octet v k :
  0 <= k -> 2 ^ (8 * k) <= v < 2 ^ (8 * k + 8) -> Z.log2 v / 8 = k.
Proof.
  intros Hk Hv.
  assert (P : 0 < 2 ^ (8 * k)) by (apply Z.pow_pos_nonneg; lia).
  assert (L1 : 8 * k <= Z.log2 v) by (apply Z.log2_le_pow2; lia).
  assert (L2 : Z.log2 v < 8 * k + 8) by (apply Z.log2_lt_pow2; lia).
  dlia.
Qed.

Lemma compressed_roundtrip_value size v :
  size = 2 \/ size = 4 -> 0 <= v < 256 ^ size ->
  exists r s',
    (writeCompressed v size ;; readCompressed size) (new_BitStream None) = (Normal r, s') /\
    Z.of_nat (length (data r)) = size /\
    little_endian (data r) = compressed_decoded size v.
Proof.
  intros Hsize Hv. unfold compressed_decoded.
  destruct (Z.lt_ge_cases v 256) as [Hlow|Hhigh].
  - pose proof (compressed_low_value_all size v Hsize ltac:(lia)) as C.
    unfold compressed_low_value in C.
    destruct ((writeCompressed v size ;; readCompressed size) (new_BitStream None))
      as [[r|e] s']; [|discriminate].
    apply andb_true_iff in C as [C1 C2]. exists r, s'.
    split; [reflexivity|]. split; [lia|].
    destruct (Z.ltb_spec v 256); [|lia]. lia.
  - destruct (Z.eqb_spec v 0); [lia|]. destruct (Z.ltb_spec v 16); [lia|].
    destruct (Z.ltb_spec v 256); [lia|].
    assert (O1 : octet_at v 1 = (v / 256) mod 256) by reflexivity.
    assert (O2 : octet_at v 2 = (v / 65536) mod 256) by reflexivity.
    assert (O3 : octet_at v 3 = (v / 16777216) mod 256) by reflexivity.
    assert (O0 : octet_at v 0 = v mod 256)
      by (unfold octet_at; change (2 ^ (8 * 0)) with 1; now rewrite Z.div_1_r).
    destruct Hsize as [-> | ->].
    + (* two octets *)
      change (256 ^ 2) with 65536 in Hv.
      destruct (compressed_high v 0 1) as (s' & E); [lia|lia|intros; lia| |].
      { change (Z.of_nat 1) with 1. rewrite O1. dlia. }
      eexists; exists s'. split; [exact E|]. split; [reflexivity|].
      rewrite (log2_octet v 1) by (change (2 ^ (8 * 1)) with 256;
                                   change (2 ^ (8 * 1 + 8)) with 65536; lia).
      cbn [octets_stream data replicate app]. change (seqZ 0 (Z.of_nat 1 + 1)) with [0; 1].
      cbn [map little_endian fold_right]. rewrite O0, O1.
      change (256 ^ (2 - 1 - 1)) with 1. dlia.
    + change (256 ^ 4) with 4294967296 in Hv.
      destruct (Z.eq_dec (octet_at v 3) 0) as [Z3|N3];
        [destruct (Z.eq_dec (octet_at v 2) 0) as [Z2|N2]|].
      * destruct (compressed_high v 2 1) as (s' & E); [lia|lia| | |].
        { intros i Hi. assert (C : i = 2%nat \/ i = 3%nat) by lia.
          destruct C as [-> | ->]; assumption. }
        { change (Z.of_nat 1) with 1. rewrite O1. rewrite O2 in Z2. rewrite O3 in Z3. dlia. }
        eexists; exists s'. split; [exact E|]. split; [reflexivity|].
        rewrite O2 in Z2. rewrite O3 in Z3.
        rewrite (log2_octet v 1) by (change (2 ^ (8 * 1)) with 256;
                                     change (2 ^ (8 * 1 + 8)) with 65536; dlia).
        cbn [octets_stream data replicate app]. change (seqZ 0 (Z.of_nat 1 + 1)) with [0; 1].
        cbn [map little_endian fold_right]. rewrite O0, O1.
        change (256 ^ (4 - 1 - 1)) with 65536. dlia.
      * destruct (compressed_high v 1 2) as (s' & E); [lia|lia| | |].
        { intros i Hi. assert (C : i = 3%nat) by lia. now subst i. }
        { exact N2. }
        eexists; exists s'. split; [exact E|]. split; [reflexivity|].
        rewrite O2 in N2. rewrite O3 in Z3.
        rewrite (log2_octet v 2) by (change (2 ^ (8 * 2)) with 65536;
                                     change (2 ^ (8 * 2 + 8)) with 16777216; dlia).
        cbn [octets_stream data replicate app].
        change (seqZ 0 (Z.of_nat 2 + 1)) with [0; 1; 2].
        cbn [map little_endian fold_right]. rewrite O0, O1, O2.
        change (256 ^ (4 - 1 - 2)) with 256. dlia.
      * destruct (compressed_high v 0 3) as (s' & E); [lia|lia|intros; lia|exact N3|].
        eexists; exists s'. split; [exact E|]. split; [reflexivity|].
        rewrite O3 in N3.
        rewrite (log2_octet v 3) by (change (2 ^ (8 * 3)) with 16777216;
                                     change (2 ^ (8 * 3 + 8)) with 4294967296; dlia).
        cbn [octets_stream data replicate app].
        change (seqZ 0 (Z.of_nat 3 + 1)) with [0; 1; 2; 3].
        cbn [map little_endian fold_right]. rewrite O0, O1, O2, O3.
        change (256 ^ (4 - 1 - 3)) with 1. dlia.
Qed.

(** X19. What the compressed round trip yields for every value of the width.
    [writeCompressedShort(v)] then [readCompressed(2)] on a new stream
    returns 2 octets whose little-endian value is [v] exactly when [v = 0]
    or [v >= 16]; [writeCompressedLong(v)] then [readCompressed(4)] returns
    4 octets whose value is [v] exactly when [v = 0], [16 <= v < 256] or [v
    >= 2^24].  In every case the value is [compressed_decoded]: 240 for [0 <
    v < 16], and [v] shifted up by one octet for each leading zero octet
    when [v >= 256]. *)
Theorem compressed_roundtrip_exact :
  (forall v, 0 <= v < 65536 ->
     exists r s',
       (writeCompressedShort v ;; readCompressed 2) (new_BitStream None) = (Normal r, s') /\
       length (data r) = 2%nat /\
       little_endian (data r) = compressed_decoded 2 v /\
       (little_endian (data r) = v <-> v = 0 \/ 16 <= v)) /\
  (forall v, 0 <= v < 4294967296 ->
     exists r s',
       (writeCompressedLong v ;; readCompressed 4) (new_BitStream None) = (Normal r, s') /\
       length (data r) = 4%nat /\
       little_endian (data r) = compressed_decoded 4 v /\
       (little_endian (data r) = v <-> v = 0 \/ 16 <= v < 256 \/ 16777216 <= v)).
Proof.
  split; intros v Hv.
  - destruct (compressed_roundtrip_value 2 v ltac:(auto) Hv) as (r & s' & E & L & D).
    exists r, s'. split; [exact E|]. split; [lia|]. split; [exact D|].
    rewrite D. unfold compressed_decoded.
    destruct (Z.eqb_spec v 0); [lia|]. destruct (Z.ltb_spec v 16); [lia|].
    destruct (Z.ltb_spec v 256); [lia|].
    rewrite (log2_octet v 1) by (change (2 ^ (8 * 1)) with 256;
                                 change (2 ^ (8 * 1 + 8)) with 65536; lia).
    change (256 ^ (2 - 1 - 1)) with 1. lia.
  - destruct (compressed_roundtrip_value 4 v ltac:(auto) Hv) as (r & s' & E & L & D).
    exists r, s'. split; [exact E|]. split; [lia|]. split; [exact D|].
    rewrite D. unfold compressed_decoded.
    destruct (Z.eqb_spec v 0); [lia|]. destruct (Z.ltb_spec v 16); [lia|].
    destruct (Z.ltb_spec v 256); [lia|].
    destruct (Z.lt_ge_cases v 65536); [|destruct (Z.lt_ge_cases v 16777216)].
    + rewrite (log2_octet v 1) by (change (2 ^ (8 * 1)) with 256;
                                   change (2 ^ (8 * 1 + 8)) with 65536; lia).
      change (256 ^ (4 - 1 - 1)) with 65536. lia.
    + rewrite (log2_octet v 2) by (change (2 ^ (8 * 2)) with 65536;
                                   change (2 ^ (8 * 2 + 8)) with 16777216; lia).
      change (256 ^ (4 - 1 - 2)) with 256. lia.
    + rewrite (log2_octet v 3) by (change (2 ^ (8 * 3)) with 16777216;
                                   change (2 ^ (8 * 3 + 8)) with 4294967296; lia).
      change (256 ^ (4 - 1 - 3)) with 1. lia.
Qed.

Lemma compressed_roundtrip_exact_witness :
  0 <= 0x1234 < 65536 /\
  exists r s',
    (writeCompressedShort 0x1234 ;; readCompressed 2) (new_BitStream None) =
      (Normal r, s') /\
    little_endian (data r) = 0x1234.
Proof.
  split; [lia|].
  destruct (proj1 compressed_roundtrip_exact 0x1234 ltac:(lia))
    as (r & s' & E & _ & _ & H).
  exists r, s'. split; [exact E|]. apply H. right. lia.
Defined.

(** ** Reading a float back *)

Lemma writeFloat_emit_reader sign exponent mantissa bs s :
  written bs s ->
  exists s', writeFloat_emit sign exponent mantissa s = (Normal tt, s') /\
             written (bs ++ float_layout sign exponent mantissa) s' /\
             same_reader s s'.
Proof.
  intros Hw.
  destruct (writeFloat_emit_written sign exponent mantissa bs s Hw) as (s' & E & W).
  exists s'. split; [exact E|]. split; [exact W|].
  unfold writeFloat_emit, bind in E.
  destruct (writeByte_written (Js.and mantissa 0xff) bs s Hw) as (s1 & E1 & W1 & R1).
  rewrite E1 in E.
  destruct (writeByte_written (Js.shr (Js.and mantissa 0xff00) 8) _ s1 W1)
    as (s2 & E2 & W2 & R2).
  rewrite E2 in E.
  destruct (writeBit_written _ s2 (Js.and exponent 0x01 =? 1) W2) as (s3 & E3 & W3 & R3).
  rewrite E3 in E.
  destruct (writeBits_written_any (Js.shr (Js.and mantissa 0x7f0000) 16) 7 _ s3
              ltac:(lia) W3) as (s4 & E4 & W4 & R4).
  rewrite E4 in E.
  destruct (writeBit_written _ s4 sign W4) as (s5 & E5 & W5 & R5).
  rewrite E5 in E.
  destruct (writeBits_written_any (Js.shr (Js.and exponent 0xfe) 1) 7 _ s5
              ltac:(lia) W5) as (s6 & E6 & W6 & R6).
  rewrite E6 in E. inversion E; subst s'.
  eapply same_reader_trans; [exact R1|]. eapply same_reader_trans; [exact R2|].
  eapply same_reader_trans; [exact R3|]. eapply same_reader_trans; [exact R4|].
  eapply same_reader_trans; [exact R5|]. exact R6.
Qed.

Lemma mod_split a b c :
  0 < b -> 0 < c -> a mod b + (a / b) mod c * b = a mod (b * c).
Proof. intros Hb Hc. rewrite Z.rem_mul_r by lia. lia. Qed.

Lemma readFloat_layout sign exponent mantissa pre post s :
  written (pre ++ float_layout sign exponent mantissa ++ post) s ->
  read_at (Z.of_nat (length pre)) s ->
  exists s',
    readFloat s =
      (Normal (pow2 (exponent mod 256 - 127) *
               (inject_Z (mantissa mod 8388608) * (1 # 8388608) + 1) *
               inject_Z (if sign then -1 else 1))%Q, s') /\
    written (pre ++ float_layout sign exponent mantissa ++ post) s' /\
    read_at (Z.of_nat (length (pre ++ float_layout sign exponent mantissa))) s'.
Proof.
  intros Hw Hr. unfold float_layout in *.
  set (b1 := bits_down mantissa 7 8) in *. set (b2 := bits_down mantissa 15 8) in *.
  set (b3 := bits_down mantissa 22 7) in *. set (b4 := bits_down exponent 7 7) in *.
  set (e0 := Z.testbit exponent 0) in *.
  assert (Hw1 : written (pre ++ (b1 ++ b2) ++ [e0] ++ b3 ++ [sign] ++ b4 ++ post) s)
    by (rewrite <- !app_assoc in *; exact Hw).
  destruct (readShort_next pre mantissa _ s Hw1 Hr) as (s1 & E1 & W1 & R1 & _).
  fold b1 b2 in W1, R1.
  rewrite app_assoc in W1. cbn [app] in W1.
  destruct (readBit_next _ e0 _ s1 W1 R1) as (s2 & E2 & W2 & R2).
  replace ((pre ++ b1 ++ b2) ++ e0 :: b3 ++ sign :: b4 ++ post)
    with (((pre ++ b1 ++ b2) ++ [e0]) ++ b3 ++ sign :: b4 ++ post) in W2
    by (now rewrite <- !app_assoc).
  destruct (readBits_next _ b3 _ s2 W2 R2) as (s3 & E3 & W3 & R3 & _).
  rewrite app_assoc in W3.
  destruct (readBit_next _ sign _ s3 W3 R3) as (s4 & E4 & W4 & R4).
  replace (((((pre ++ b1 ++ b2) ++ [e0]) ++ b3) ++ sign :: b4 ++ post))
    with ((((((pre ++ b1 ++ b2) ++ [e0]) ++ b3) ++ [sign]) ++ b4 ++ post)) in W4
    by (now rewrite <- !app_assoc).
  destruct (readBits_next _ b4 _ s4 W4 R4) as (s5 & E5 & W5 & R5 & _).
  exists s5. unfold readFloat, bind.
  rewrite E1, E2.
  change 7%nat with (length b3) at 1. rewrite E3, E4.
  change 7%nat with (length b4) at 1. rewrite E5.
  split; [|split].
  - unfold ret. do 2 f_equal. f_equal; [f_equal; [f_equal|]|].
    + unfold b4, e0. rewrite (bits_value_field exponent 7 7) by lia.
      change (2 ^ (7 - Z.of_nat 7 + 1)) with 2. change (2 ^ Z.of_nat 7) with 128.
      rewrite shl_small by dlia. rewrite Z.bit0_mod. change (2 ^ 1) with 2.
      rewrite (mod_split exponent 2 128) by lia. reflexivity.
    + f_equal. f_equal. unfold b3. rewrite (bits_value_field mantissa 22 7) by lia.
      change (2 ^ (22 - Z.of_nat 7 + 1)) with 65536. change (2 ^ Z.of_nat 7) with 128.
      rewrite shl_small by dlia. change (2 ^ 16) with 65536.
      rewrite (mod_split mantissa 65536 128) by lia. reflexivity.
    + now destruct sign.
  - rewrite <- !app_assoc in W5. cbn [app] in W5. rewrite <- !app_assoc. exact W5.
  - rewrite <- !app_assoc in R5. cbn [app] in R5. exact R5.
Qed.

Lemma writeFloat_emit_readFloat (sign : bool) (exponent mantissa : Z) bs s :
  caught_up bs s ->
  exists s',
    (writeFloat_emit sign exponent mantissa ;; readFloat) s =
      (Normal (pow2 (exponent mod 256 - 127) *
               (inject_Z (mantissa mod 8388608) * (1 # 8388608) + 1) *
               inject_Z (if sign then -1 else 1))%Q, s') /\
    caught_up (bs ++ float_layout sign exponent mantissa) s'.
Proof.
  intros Hc.
  destruct (writeFloat_emit_reader sign exponent mantissa bs s (proj1 Hc))
    as (s1 & E1 & W1 & R1).
  destruct (caught_up_after_write _ _ _ _ Hc W1 R1) as [W1' Hr1].
  destruct (readFloat_layout sign exponent mantissa bs [] s1 W1' Hr1) as (s2 & E2 & W2 & R2).
  exists s2. unfold bind. rewrite E1. split; [exact E2|].
  rewrite app_nil_r in W2. split; assumption.
Qed.

Section FloatReadback.
Local Open Scope Q_scope.

(** The magnitude [readFloat] computes from the exponent [e + 127] and the
    mantissa [m]. *)
Lemma mantissa_bounds q e :
  let m := Qceiling ((q / pow2 e - 1) / (1 # 8388608)) in
  q <= pow2 e * (inject_Z m * (1 # 8388608) + 1) /\
  pow2 e * (inject_Z m * (1 # 8388608) + 1) < q + pow2 e * (1 # 8388608).
Proof.
  intros m. pose proof (pow2_pos e) as Pe.
  set (y := (q / pow2 e - 1) / (1 # 8388608)) in *.
  pose proof (Qle_ceiling y) as C1. pose proof (Qceiling_lt y) as C2. fold m in C1, C2.
  assert (Pne : ~ pow2 e == 0) by (intros E; rewrite E in Pe; discriminate).
  assert (Eq : q == pow2 e * (y * (1 # 8388608) + 1)) by (unfold y; field; exact Pne).
  split.
  - rewrite Eq at 1. apply Qmult_le_l; [exact Pe|].
    apply Qplus_le_l. apply Qmult_le_r; [reflexivity|exact C1].
  - assert (E2 : q + pow2 e * (1 # 8388608) ==
                 pow2 e * ((y + 1) * (1 # 8388608) + 1)) by (rewrite Eq at 1; ring).
    rewrite E2. apply Qmult_lt_l; [exact Pe|].
    apply Qplus_lt_l. apply Qmult_lt_r; [reflexivity|].
    unfold Z.sub in C2. rewrite inject_Z_plus in C2. change (inject_Z (-1)) with (-1) in C2.
    apply Qplus_lt_l with (z := -1). ring_simplify. ring_simplify in C2. exact C2.
Qed.

(** X20. For every [n <> 0] at which the platform's logarithm is
    [log2_accurate] and whose exponent [e = Math.floor(Math.log2(|n|))]
    lies between -127 and 128, [writeFloat(n)] followed by [readFloat()] returns a
    number of the sign of [n] whose magnitude [a] is
    [2^e * (1 + (m mod 2^23) / 2^23)] for the mantissa [m] of [writeFloat],
    which is at most 2^23 + 1.  When [m < 2^23] the magnitude is [|n|]
    rounded up, by less than [2^(e-23)]: at the double just below 8, where
    the logarithm rounds to 3, it is 8.  When [m] is 2^23, which takes
    [|n| > 2^(e+1) * (1 - 2^-24)], or 2^23 + 1, which takes
    [|n| > 2^(e+1)], it does not fit its 23 bits and the result is [2^e]
    or [2^e * (1 + 2^-23)], about half of [|n|]. *)
Theorem writeFloat_readFloat_roundtrip (log2_floor : Q -> Z) (n : Q) bs s :
  ~ n == 0 -> log2_accurate log2_floor (Qabs n) -> caught_up bs s ->
  let e := log2_floor (Qabs n) in
  let m := float_mantissa log2_floor n in
  let a := pow2 e * (inject_Z (m mod 8388608) * (1 # 8388608) + 1) in
  (-127 <= e <= 128)%Z ->
  exists s',
    (writeFloat log2_floor n ;; readFloat) s =
      (Normal (a * inject_Z (if (Qnum n <? 0)%Z then -1 else 1)), s') /\
    (0 <= m <= 8388609)%Z /\
    ((m < 8388608)%Z -> Qabs n <= a /\ a < Qabs n + pow2 e * (1 # 8388608)) /\
    (m = 8388608%Z -> a == pow2 e /\ pow2 (e + 1) * (1 - (1 # 16777216)) < Qabs n) /\
    (m = 8388609%Z -> a == pow2 e * (1 + (1 # 8388608)) /\ pow2 (e + 1) < Qabs n).
Proof.
  intros Hn [Hlo Hhi] Hc e m a He. fold e in Hlo, Hhi.
  pose proof (mantissa_range _ _ Hlo Hhi) as Hm.
  destruct (mantissa_bounds (Qabs n) e) as [B1 B2].
  assert (Em : m = Qceiling ((Qabs n / pow2 e - 1) / (1 # 8388608))).
  { unfold m, float_mantissa. fold e.
    destruct (Z.ltb_spec 1023 e); [lia|].
    destruct (Z.ltb_spec e (-1074)); [lia|]. reflexivity. }
  rewrite <- Em in Hm, B1, B2.
  destruct (writeFloat_emit_readFloat (float_sign n) (float_exponent log2_floor n)
              m bs s Hc) as (s' & E & _).
  exists s'. split; [|split; [exact Hm|split; [|split]]].
  - unfold writeFloat. destruct (Qeq_bool n 0) eqn:E0.
    + apply Qeq_bool_iff in E0. contradiction.
    + fold m. rewrite E. unfold float_exponent. fold e.
      replace (((e + 127) mod 256 - 127)%Z) with e
        by (rewrite Z.mod_small by lia; lia).
      reflexivity.
  - intros Hlt. unfold a. rewrite Z.mod_small by lia. split; assumption.
  - intros Hfull. unfold a. rewrite Hfull. change (8388608 mod 8388608)%Z with 0%Z.
    split; [ring|].
    rewrite Hfull in B2. rewrite pow2_succ.
    apply Qplus_lt_l with (z := pow2 e * (1 # 8388608)).
    eapply Qle_lt_trans; [|exact B2].
    apply Qle_lteq. right. change (inject_Z 8388608) with (8388608 # 1). ring.
  - intros Hover. unfold a. rewrite Hover. change (8388609 mod 8388608)%Z with 1%Z.
    split; [change (inject_Z 1) with 1; ring|].
    rewrite Hover in B2. rewrite pow2_succ.
    apply Qplus_lt_l with (z := pow2 e * (1 # 8388608)).
    eapply Qle_lt_trans; [|exact B2].
    apply Qle_lteq. right. change (inject_Z 8388609) with (8388609 # 1). ring.
Qed.

Lemma writeFloat_readFloat_roundtrip_witness :
  ~ (js_below_8 == 0)%Q /\ log2_accurate (fun _ => 3%Z) (Qabs js_below_8) /\
  caught_up [] fresh /\
  exists r s',
    (writeFloat (fun _ => 3%Z) js_below_8 ;; readFloat) fresh = (Normal r, s') /\
    r == 8.
Proof.
  assert (H : ~ (js_below_8 == 0)%Q) by (unfold Qeq; simpl; lia).
  assert (A8 : log2_accurate (fun _ => 3%Z) (Qabs js_below_8))
    by (split; vm_compute; [discriminate | reflexivity]).
  split; [exact H|]. split; [exact A8|]. split; [exact caught_up_fresh|].
  destruct (writeFloat_readFloat_roundtrip (fun _ => 3%Z) js_below_8 [] fresh
              H A8 caught_up_fresh ltac:(lia))
    as (s' & E & _).
  eexists. exists s'. split; [exact E|].
  vm_compute. reflexivity.
Defined.

End FloatReadback.

(** ** [allRead], exactly *)

(** X21. On a stream holding the written bits [bs] with the read cursor
    before bit [i], [allRead()] is true exactly when the cursor stands at
    the start of the last octet ([i = 8 * (length() - 1)]) or beyond the
    buffer ([i >= 8 * length()]).  When precisely the written bits have been
    read, it is true exactly when their number is a multiple of 8. *)
Theorem allRead_exact (bs : list bool) (i : Z) (s : BitStream) :
  written bs s -> read_at i s -> 0 <= i ->
  (allRead s = true <-> i = 8 * (length_ s - 1) \/ 8 * length_ s <= i) /\
  (i = Z.of_nat (length bs) ->
   (allRead s = true <-> Z.of_nat (length bs) mod 8 = 0)).
Proof.
  intros [Hlen Hcount Hbyte Hbit Hrange Hbits] [HrB Hrb] Hi.
  unfold allRead, length_. rewrite HrB, Hrb, Hcount, Hlen.
  split; [|intros ->]; (split; [intros H; apply Z.leb_le in H | intros H; apply Z.leb_le]);
    dlia.
Qed.

Lemma allRead_exact_witness :
  (exists v s,
     (writeBits 0xABC 12 ;; readBits 8) fresh = (Normal v, s) /\
     written (bits_down 0xABC 11 12) s /\ read_at 8 s /\ length_ s = 2 /\
     (allRead s = true <-> 8 = 8 * (length_ s - 1) \/ 8 * length_ s <= 8) /\
     allRead s = true) /\
  (exists v s,
     (writeBits 0xABC 12 ;; readBits 12) fresh = (Normal v, s) /\
     written (bits_down 0xABC 11 12) s /\ read_at 12 s /\
     (allRead s = true <-> 12 mod 8 = 0) /\
     allRead s = false).
Proof.
  destruct (writeBits_written_any 0xABC 12 [] fresh ltac:(lia) written_fresh)
    as (s1 & E1 & W1 & R1).
  cbn [app] in W1. change (Z.of_nat 12 - 1) with 11 in W1.
  assert (Hr1 : read_at 0 s1)
    by (apply (read_at_same_reader 0 fresh s1 R1); exact (proj2 caught_up_fresh)).
  assert (Hl : forall s, written (bits_down 0xABC 11 12) s -> length_ s = 2).
  { intros s W. unfold length_. rewrite (w_count _ _ W), (w_length _ _ W).
    reflexivity. }
  split.
  - destruct (readBits_written _ 8 0 s1 W1 Hr1 ltac:(lia) ltac:(simpl; lia))
      as (s2 & E2 & W2 & R2 & _).
    destruct (allRead_exact _ 8 s2 W2 R2 ltac:(lia)) as [A _].
    eexists. exists s2. split; [unfold bind; rewrite E1; exact E2|].
    split; [exact W2|]. split; [exact R2|]. split; [exact (Hl s2 W2)|].
    split; [exact A|]. apply A. left. rewrite (Hl s2 W2). reflexivity.
  - destruct (readBits_written _ 12 0 s1 W1 Hr1 ltac:(lia) ltac:(simpl; lia))
      as (s2 & E2 & W2 & R2 & _).
    destruct (allRead_exact _ 12 s2 W2 R2 ltac:(lia)) as [_ A].
    specialize (A eq_refl).
    eexists. exists s2. split; [unfold bind; rewrite E1; exact E2|].
    split; [exact W2|]. split; [exact R2|]. split; [exact A|].
    destruct (allRead s2); [|reflexivity].
    destruct A as [A _]. specialize (A eq_refl). discriminate A.
Defined.

(** ** Bits read in reverse *)

Lemma rev_value_range ws : 0 <= rev_value ws < 2 ^ Z.of_nat (length ws).
Proof.
  induction ws as [|b ws IH]; [simpl; lia|].
  cbn [rev_value fold_right length]. fold (rev_value ws).
  rewrite Nat2Z.inj_succ, Z.pow_succ_r by lia. destruct b; cbn [Z.b2z]; lia.
Qed.

Lemma rev_value_testbit ws : forall j,
  (j < length ws)%nat -> Z.testbit (rev_value ws) (Z.of_nat j) = nth j ws false.
Proof.
  induction ws as [|b ws IH]; intros j Hj; [simpl in Hj; lia|].
  cbn [rev_value fold_right]. fold (rev_value ws).
  destruct j as [|j].
  - cbn [nth]. change (Z.of_nat 0) with 0. rewrite Z.add_comm, Z.testbit_0_r.
    reflexivity.
  - cbn [nth]. rewrite Nat2Z.inj_succ, Z.add_comm, Z.testbit_succ_r by lia.
    apply IH. simpl in Hj. lia.
Qed.

Lemma or_disjoint val (b : bool) i :
  0 <= i <= 30 -> 0 <= val < 2 ^ i ->
  Js.or val (Js.shl (Z.b2z b) i) = val + Z.b2z b * 2 ^ i.
Proof.
  intros Hi Hv.
  assert (P : 0 < 2 ^ i) by (apply Z.pow_pos_nonneg; lia).
  assert (P' : 2 ^ i <= 2 ^ 30) by (apply Z.pow_le_mono_r; lia).
  assert (B : 0 <= Z.b2z b <= 1) by (destruct b; simpl; lia).
  rewrite shl_small by (try lia; change (2 ^ 31) with (2 * 2 ^ 30); nia).
  unfold Js.or. rewrite !ToInt32_small by (change (2 ^ 31) with (2 * 2 ^ 30); nia).
  symmetry. apply Z.add_nocarry_lor.
  apply Z.bits_inj'. intros j Hj. rewrite Z.land_spec, Z.bits_0.
  destruct (Z.lt_ge_cases j i).
  - rewrite Z.mul_pow2_bits_low by lia. apply andb_false_r.
  - rewrite <- (Z.mod_small val (2 ^ i)) by lia.
    rewrite Z.mod_pow2_bits_high by lia. reflexivity.
Qed.

Lemma readBitsReversed_loop_next ws : forall pre post i val s,
  written (pre ++ ws ++ post) s -> read_at (Z.of_nat (length pre)) s ->
  0 <= i -> i + Z.of_nat (length ws) <= 31 -> 0 <= val < 2 ^ i ->
  exists s',
    readBitsReversed_loop (length ws) i val s =
      (Normal (val + 2 ^ i * rev_value ws), s') /\
    written (pre ++ ws ++ post) s' /\
    read_at (Z.of_nat (length (pre ++ ws))) s'.
Proof.
  induction ws as [|b ws IH]; intros pre post i val s Hw Hr Hi Hlen Hv.
  - exists s. cbn [readBitsReversed_loop length rev_value fold_right].
    rewrite app_nil_r, Z.mul_0_r, Z.add_0_r. split; [reflexivity|]. now split.
  - cbn [length readBitsReversed_loop]. cbn [app] in Hw.
    destruct (readBit_next pre b _ s Hw Hr) as (s1 & E1 & W1 & R1).
    unfold bind. rewrite E1.
    replace (pre ++ b :: ws ++ post) with ((pre ++ [b]) ++ ws ++ post) in *
      by now rewrite <- app_assoc.
    cbn [length] in Hlen.
    assert (P : 0 < 2 ^ i) by (apply Z.pow_pos_nonneg; lia).
    assert (B : 0 <= Z.b2z b <= 1) by (destruct b; simpl; lia).
    rewrite or_disjoint by lia.
    destruct (IH (pre ++ [b]) post (i + 1) (val + Z.b2z b * 2 ^ i) s1 W1 R1
                ltac:(lia) ltac:(lia)) as (s2 & E2 & W2 & R2).
    { rewrite Z.pow_add_r by lia. change (2 ^ 1) with 2. nia. }
    exists s2. rewrite E2. cbn [rev_value fold_right]. fold (rev_value ws).
    split; [|split].
    + do 2 f_equal. rewrite Z.pow_add_r by lia. change (2 ^ 1) with 2. ring.
    + rewrite <- app_assoc in W2. exact W2.
    + rewrite <- app_assoc in R2. exact R2.
Qed.

Lemma nth_bits_down count : forall x hi j,
  (j < count)%nat -> nth j (bits_down x hi count) false = Z.testbit x (hi - Z.of_nat j).
Proof.
  induction count as [|c IH]; intros x hi j Hj; [lia|].
  cbn [bits_down]. destruct j as [|j]; cbn [nth].
  - f_equal. lia.
  - rewrite IH by lia. f_equal. lia.
Qed.

(** X22. For [k <= 31], [writeBits(n, k)] followed by [readBitsReversed(k)]
    returns the [k] low bits of [n] in mirrored order: a number below [2^k]
    whose bit [j] is bit [k - 1 - j] of [n]. *)
Theorem writeBits_readBitsReversed_mirror (n : Z) (k : nat) bs s :
  (k <= 31)%nat -> caught_up bs s ->
  exists r s',
    (writeBits n k ;; readBitsReversed k) s = (Normal r, s') /\
    0 <= r < 2 ^ Z.of_nat k /\
    (forall j, 0 <= j < Z.of_nat k -> Z.testbit r j = Z.testbit n (Z.of_nat k - 1 - j)) /\
    caught_up (bs ++ bits_down n (Z.of_nat k - 1) k) s'.
Proof.
  intros Hk Hc.
  destruct (writeBits_written_any n k bs s ltac:(lia) (proj1 Hc)) as (s1 & E1 & W1 & R1).
  destruct (caught_up_after_write _ _ _ _ Hc W1 R1) as [W1' Hr1].
  set (ws := bits_down n (Z.of_nat k - 1) k) in *.
  assert (Lw : length ws = k) by apply bits_down_length.
  destruct (readBitsReversed_loop_next ws bs [] 0 0 s1 W1' Hr1 ltac:(lia) ltac:(lia)
              ltac:(simpl; lia)) as (s2 & E2 & W2 & R2).
  rewrite Lw in E2. change (2 ^ 0) with 1 in E2. rewrite Z.add_0_l, Z.mul_1_l in E2.
  exists (rev_value ws), s2. unfold bind. rewrite E1.
  split; [exact E2|].
  split; [pose proof (rev_value_range ws) as Rg; rewrite Lw in Rg; exact Rg|].
  split.
  - intros j Hj. replace j with (Z.of_nat (Z.to_nat j)) at 1 by lia.
    rewrite rev_value_testbit by lia. unfold ws. rewrite nth_bits_down by lia.
    f_equal. lia.
  - rewrite app_nil_r in W2. split; assumption.
Qed.

Lemma writeBits_readBitsReversed_mirror_witness :
  (16 <= 31)%nat /\ caught_up [] fresh /\
  exists r s', (writeBits 0xAAAA 16 ;; readBitsReversed 16) fresh = (Normal r, s') /\
               0 <= r < 2 ^ 16.
Proof.
  split; [lia|]. split; [exact caught_up_fresh|].
  destruct (writeBits_readBitsReversed_mirror 0xAAAA 16 [] fresh ltac:(lia)
              caught_up_fresh) as (r & s' & E & R & _).
  exists r, s'. split; [exact E|exact R].
Defined.

(** ** [writeSignedLong] *)

Lemma writeSignedLong_written n bs s :
  written bs s ->
  exists s', writeSignedLong n s = (Normal tt, s') /\
             written (bs ++ bits_down n 7 8 ++ bits_down n 15 8 ++
                            bits_down n 23 8 ++ false :: bits_down n 31 7) s' /\
             same_reader s s'.
Proof.
  intros Hw. unfold writeSignedLong, bind.
  rewrite (and_low n 0xffff 16), (ushr_field n 0xffff0000 16 16) by (reflexivity || lia).
  destruct (writeShort_written (n mod 2 ^ 16) bs s Hw) as (s1 & -> & W1 & R1).
  destruct (writeSignedShort_written ((n / 2 ^ 16) mod 2 ^ 16) _ s1 W1)
    as (s2 & E2 & W2 & R2).
  exists s2. split; [exact E2|]. split; [|eapply same_reader_trans; eassumption].
  rewrite !bits_down_field in W2 by (cbn; lia).
  rewrite !bits_down_mod in W2 by (cbn; lia).
  rewrite <- !app_assoc in W2. exact W2.
Qed.

(** X23. [writeSignedLong(n)] never records a sign and loses bit 24 of [n]:
    it appends bits 7..0, 15..8 and 23..16 of [n], a 0 bit, and bits 31..25,
    so that [readLong()] afterwards returns [n mod 2^24 + 2^24 * ((n / 2^25)
    mod 128)]. *)
Theorem writeSignedLong_drops_sign (n : Z) bs s :
  caught_up bs s ->
  exists s', (writeSignedLong n ;; readLong) s =
               (Normal (n mod 16777216 + 16777216 * ((n / 33554432) mod 128)), s') /\
             caught_up (bs ++ bits_down n 7 8 ++ bits_down n 15 8 ++
                              bits_down n 23 8 ++ false :: bits_down n 31 7) s'.
Proof.
  intros Hc.
  destruct (writeSignedLong_written n bs s (proj1 Hc)) as (s1 & E1 & W1 & R1).
  destruct (caught_up_after_write _ _ _ _ Hc W1 R1) as [W1' Hr1].
  set (y := (n / 2 ^ 25) mod 2 ^ 7).
  set (n' := n mod 2 ^ 24 + 2 ^ 24 * y).
  assert (Hy : 0 <= y < 128) by (unfold y; apply Z.mod_pos_bound; lia).
  assert (Hlow : n' mod 2 ^ 24 = n mod 2 ^ 24).
  { unfold n'. replace (n mod 2 ^ 24 + 2 ^ 24 * y) with (n mod 2 ^ 24 + y * 2 ^ 24) by ring.
    rewrite Z.mod_add by lia. apply Z.mod_mod. lia. }
  assert (Hhigh : (n' / 2 ^ 24) mod 2 ^ 8 = y).
  { unfold n'. replace (n mod 2 ^ 24 + 2 ^ 24 * y) with (y * 2 ^ 24 + n mod 2 ^ 24) by ring.
    rewrite Z.div_add_l by lia.
    rewrite (Z.div_small (n mod 2 ^ 24)) by (apply Z.mod_pos_bound; lia).
    rewrite Z.add_0_r. apply Z.mod_small. change (2 ^ 8) with 256. lia. }
  assert (E7 : bits_down n 7 8 = bits_down n' 7 8)
    by (rewrite <- (bits_down_mod n 24), <- (bits_down_mod n' 24), Hlow by (cbn; lia);
        reflexivity).
  assert (E15 : bits_down n 15 8 = bits_down n' 15 8)
    by (rewrite <- (bits_down_mod n 24), <- (bits_down_mod n' 24), Hlow by (cbn; lia);
        reflexivity).
  assert (E23 : bits_down n 23 8 = bits_down n' 23 8)
    by (rewrite <- (bits_down_mod n 24), <- (bits_down_mod n' 24), Hlow by (cbn; lia);
        reflexivity).
  assert (E31 : false :: bits_down n 31 7 = bits_down n' 31 8).
  { change 31 with (7 + 24) at 2.
    rewrite <- (bits_down_field n' 24 8 7 8), Hhigh by (cbn; lia).
    change (bits_down y 7 8) with (Z.testbit y 7 :: bits_down y 6 7).
    unfold y. rewrite testbit_field by lia. cbn [Z.ltb Z.compare andb]. f_equal.
    rewrite bits_down_field by (cbn; lia). reflexivity. }
  rewrite E7, E15, E23, E31 in W1', W1.
  destruct (readLong_next _ n' _ s1 W1' Hr1) as (s2 & E2 & W2 & R2 & _).
  exists s2. unfold bind. rewrite E1, E7, E15, E23, E31.
  rewrite app_nil_r in W2. split; [|split; assumption].
  rewrite E2. do 2 f_equal. rewrite Z.mod_small.
  - unfold n', y. reflexivity.
  - unfold n'. pose proof (Z.mod_pos_bound n (2 ^ 24) ltac:(lia)).
    change (2 ^ 24) with 16777216 in *. change (2 ^ 32) with 4294967296. lia.
Qed.

Lemma writeSignedLong_drops_sign_witness :
  caught_up [] fresh /\
  exists s', (writeSignedLong (-1) ;; readLong) fresh = (Normal 0x7FFFFFFF, s').
Proof.
  split; [exact caught_up_fresh|].
  destruct (writeSignedLong_drops_sign (-1) [] fresh caught_up_fresh) as (s' & E & _).
  exists s'. exact E.
Defined.

(** ** Copying from a source that was read before *)

Lemma bitAt_snoc_zero d i : bitAt (d ++ [0]) i = bitAt d i.
Proof.
  unfold bitAt. f_equal.
  destruct (Nat.lt_ge_cases (Z.to_nat (i / 8)) (length d)).
  - now apply app_nth1.
  - rewrite (nth_overflow d) by lia. rewrite app_nth2 by lia.
    destruct (Z.to_nat (i / 8) - length d)%nat as [|[|k]]; reflexivity.
Qed.

(** At the end of a stream of whole octets [readBit] appends a zero octet
    and returns its first bit. *)
Lemma readBit_at_end src b :
  written src b -> Z.of_nat (length src) mod 8 = 0 ->
  read_at (Z.of_nat (length src)) b ->
  exists b', readBit b = (Normal 0, b') /\
             written (src ++ replicate 8 false) b' /\
             read_at (Z.of_nat (length src) + 1) b'.
Proof.
  intros [Hlen Hcount Hbyte Hbit Hrange Hbits] Hal [HrB Hrb].
  set (n := Z.of_nat (length src)) in *.
  eexists. split; [apply readBit_zero_fill; [exact Hcount| |]; dlia|].
  replace (Z.to_nat (readBytePosition b - byteCount b + 1)) with 1%nat by dlia.
  change (replicate 1 0) with [0].
  destruct (Z.eqb_spec (readBitPosition b - 1) (-1)) as [E|_]; [dlia|].
  split.
  - split; cbn [data byteCount writeBytePosition writeBitPosition];
      rewrite ?length_app, ?length_replicate; cbn [length]; fold n; try dlia.
    + intros j. destruct (Nat.lt_ge_cases j (length (data b))).
      * rewrite app_nth1 by lia. apply Hrange.
      * rewrite app_nth2 by lia.
        destruct (j - length (data b))%nat as [|[|k]]; simpl; lia.
    + intros i Hi. rewrite bitAt_snoc_zero, nth_app_false. now apply Hbits.
  - unfold read_at. cbn [readBytePosition readBitPosition]. dlia.
Qed.

Lemma writeBitStream_loop_never_returns fuel : forall src j i b dst s,
  written src b -> Z.of_nat (length src) mod 8 = 0 ->
  read_at j b -> 0 <= i < j -> j <= Z.of_nat (length src) ->
  written dst s ->
  exists s', writeBitStream_loop fuel i b s = (Normal None, s').
Proof.
  induction fuel as [|fuel IH]; intros src j i b dst s Hb Hal Hr Hi Hj Hs.
  - exists s. reflexivity.
  - cbn [writeBitStream_loop].
    destruct (written_bits_length _ _ Hb) as [-> _].
    destruct (Z.ltb_spec i (Z.of_nat (length src))); [|lia].
    destruct (Z.eq_dec j (Z.of_nat (length src))) as [Hend|Hin].
    + subst j. destruct (readBit_at_end src b Hb Hal Hr) as (b1 & E1 & W1 & R1).
      unfold bind at 1, on. rewrite E1. cbn [fst snd].
      destruct (writeBit_written dst s (0 =? 1) Hs) as (s1 & E2 & W2 & _).
      unfold bind. rewrite E2.
      apply (IH (src ++ replicate 8 false) (Z.of_nat (length src) + 1) (i + 1) b1
               (dst ++ [0 =? 1]) s1 W1);
        rewrite ?length_app, ?length_replicate; try assumption; try lia.
      rewrite Nat2Z.inj_add. change (Z.of_nat 8) with 8. dlia.
    + destruct (readBit_written src b j Hb Hr ltac:(lia)) as (b1 & E1 & W1 & R1).
      unfold bind at 1, on. rewrite E1. cbn [fst snd].
      destruct (writeBit_written dst s (Z.b2z (nth (Z.to_nat j) src false) =? 1) Hs)
        as (s1 & E2 & W2 & _).
      unfold bind. rewrite E2.
      exact (IH src (j + 1) (i + 1) b1 _ s1 W1 Hal R1 ltac:(lia) ltac:(lia) W2).
Qed.

(** X24. [writeBitStream(bs)] does not terminate when [bs] holds whole
    octets and has been read before: the loop counts from 0 to [bs.bits()]
    while reading from the cursor of [bs], so it reads past the end, where
    every [readBit] makes [bs] one octet longer; whatever number of rounds
    is allowed, the loop is still running. *)
Theorem writeBitStream_never_returns (src dst : list bool) (j : Z) (b s : BitStream) :
  written src b -> Z.of_nat (length src) mod 8 = 0 ->
  read_at j b -> 0 < j <= Z.of_nat (length src) ->
  written dst s ->
  forall fuel, exists s', writeBitStream fuel b s = (Normal None, s').
Proof.
  intros Hb Hal Hr Hj Hs fuel.
  exact (writeBitStream_loop_never_returns fuel src j 0 b dst s Hb Hal Hr
           ltac:(lia) ltac:(lia) Hs).
Qed.

Lemma writeBitStream_never_returns_witness :
  exists v b, (writeByte 0xAA ;; readBit) fresh = (Normal v, b) /\
  exists s', writeBitStream 1000 b fresh = (Normal None, s').
Proof.
  destruct (writeByte_written 0xAA [] fresh written_fresh) as (b0 & E0 & W0 & R0).
  destruct (readBit_written _ b0 0 W0
              (read_at_same_reader _ _ _ R0 (proj2 caught_up_fresh)) ltac:(simpl; lia))
    as (b & E1 & W1 & R1).
  eexists. exists b. split; [unfold bind; rewrite E0; exact E1|].
  exact (writeBitStream_never_returns _ [] 1 b fresh W1 eq_refl R1 ltac:(simpl; lia)
           written_fresh 1000%nat).
Defined.

(** ** Reading whole octets into another stream *)

(** One round of [readBitsStream]'s loop with at least 8 bits to go. *)
Lemma readBitsStream_loop_round v pre post s k :
  octet v ->
  written (pre ++ octet_bits v ++ post) s -> read_at (Z.of_nat (length pre)) s ->
  exists s1,
    written (pre ++ octet_bits v ++ post) s1 /\
    read_at (Z.of_nat (length (pre ++ octet_bits v))) s1 /\
    forall fuel c b target,
      readBitsStream_loop (S fuel) (8 * Z.of_nat (S k)) c b target s =
      (r <- on target (writeByteOffset v c) ;;
       readBitsStream_loop fuel (8 * Z.of_nat k) (c + 1) b (snd r)) s1.
Proof.
  intros Hv Hw Hr. unfold octet in Hv. unfold octet_bits in *.
  destruct (readByte_next pre v 7 _ s ltac:(lia) Hw Hr) as (s1 & E1 & W1 & R1 & _).
  change (2 ^ (7 - 7)) with 1 in E1. rewrite Z.div_1_r, Z.mod_small in E1 by lia.
  exists s1. split; [exact W1|]. split; [exact R1|].
  intros fuel c b target. cbn [readBitsStream_loop].
  destruct (Z.ltb_spec 0 (8 * Z.of_nat (S k))); [|lia].
  destruct (Z.leb_spec 8 (8 * Z.of_nat (S k))); [|lia].
  unfold bind at 1. rewrite E1.
  replace (8 * Z.of_nat (S k) - 8) with (8 * Z.of_nat k) by lia. reflexivity.
Qed.

Lemma readBitsStream_loop_done fuel c b target s :
  readBitsStream_loop fuel (8 * Z.of_nat 0) c b target s = (Normal target, s).
Proof. destruct fuel; reflexivity. Qed.

(** A target that already has room: the octets land at their offsets. *)
Lemma readBitsStream_loop_inside bytes : forall pre post c b target fuel s,
  Forall octet bytes ->
  written (pre ++ flat_map octet_bits bytes ++ post) s ->
  read_at (Z.of_nat (length pre)) s ->
  (length bytes <= fuel)%nat ->
  (c + length bytes <= length (data target))%nat ->
  Z.of_nat (c + length bytes) <= byteCount target <= Z.of_nat (length (data target)) ->
  exists s',
    readBitsStream_loop fuel (8 * Z.of_nat (length bytes)) (Z.of_nat c) b target s =
      (Normal (mkBitStream
                 (take c (data target) ++ bytes ++ drop (c + length bytes) (data target))
                 (byteCount target) (readBytePosition target) (readBitPosition target)
                 (writeBytePosition target) (writeBitPosition target) (byte target)),
       s') /\
    written (pre ++ flat_map octet_bits bytes ++ post) s' /\
    read_at (Z.of_nat (length (pre ++ flat_map octet_bits bytes))) s'.
Proof.
  induction bytes as [|v bytes IH]; intros pre post c b target fuel s Ho Hw Hr Hf Hc Hb.
  - exists s. cbn [length flat_map app] in *. rewrite readBitsStream_loop_done.
    rewrite Nat.add_0_r, take_drop, app_nil_r. split; [now destruct target|].
    split; assumption.
  - cbn [length flat_map] in *. destruct fuel as [|fuel]; [lia|].
    assert (Hv : octet v) by now inversion Ho.
    rewrite <- app_assoc in Hw.
    destruct (readBitsStream_loop_round v pre _ s (length bytes) Hv Hw Hr)
      as (s1 & W1 & R1 & Step).
    rewrite Step. unfold bind at 1, on.
    rewrite writeByteOffset_inside by (assumption || lia). cbn [snd].
    rewrite app_assoc in W1.
    replace (Z.of_nat c + 1) with (Z.of_nat (S c)) by lia.
    destruct (IH (pre ++ octet_bits v) post (S c) b
                (mkBitStream (<[Z.to_nat (Z.of_nat c) := v]> (data target))
                   (byteCount target) (readBytePosition target) (readBitPosition target)
                   (writeBytePosition target) (writeBitPosition target) (byte target))
                fuel s1 ltac:(now inversion Ho) W1 R1 ltac:(lia))
      as (s2 & E2 & W2 & R2);
      cbn [data byteCount]; rewrite ?length_insert; try lia.
    exists s2. rewrite E2.
    cbn [data byteCount readBytePosition readBitPosition
         writeBytePosition writeBitPosition byte].
    rewrite <- !app_assoc in *.
    split; [|split; assumption].
    do 3 f_equal. rewrite Nat2Z.id.
    destruct (lookup_lt_is_Some_2 (<[c:=v]> (data target)) c
                ltac:(rewrite length_insert; lia)) as [x Ex].
    rewrite (take_S_r _ _ _ Ex).
    rewrite list_lookup_insert_eq in Ex by lia. inversion Ex; subst x.
    rewrite take_insert_ge by lia. rewrite drop_insert_lt by lia.
    rewrite <- app_assoc. cbn [app].
    replace (S c + length bytes)%nat with (c + S (length bytes))%nat by lia. reflexivity.
Qed.

(** An empty target: every store reallocates and keeps nothing, so only
    the octet stored last survives. *)
Lemma readBitsStream_loop_empty bytes : forall pre post c x b target fuel s,
  Forall octet bytes ->
  written (pre ++ flat_map octet_bits bytes ++ post) s ->
  read_at (Z.of_nat (length pre)) s ->
  (length bytes <= fuel)%nat ->
  writeBytePosition target = 0 -> byteCount target = Z.of_nat c ->
  data target = replicate (c - 1) 0 ++ x -> length x = Nat.min c 1 -> Forall octet x ->
  exists s',
    readBitsStream_loop fuel (8 * Z.of_nat (length bytes)) (Z.of_nat c) b target s =
      (Normal (mkBitStream
                 (match bytes with
                  | [] => data target
                  | _ => replicate (c + length bytes - 1) 0 ++ [List.last bytes 0]
                  end)
                 (Z.of_nat (c + length bytes))
                 (readBytePosition target) (readBitPosition target)
                 0 (writeBitPosition target) (byte target)),
       s') /\
    written (pre ++ flat_map octet_bits bytes ++ post) s' /\
    read_at (Z.of_nat (length (pre ++ flat_map octet_bits bytes))) s'.
Proof.
  induction bytes as [|v bytes IH];
    intros pre post c x b target fuel s Ho Hw Hr Hf HwB Hc Hd Hx Hox.
  - exists s. cbn [length flat_map app] in *. rewrite readBitsStream_loop_done.
    rewrite Nat.add_0_r, app_nil_r, <- Hc, <- HwB. split; [now destruct target|].
    split; assumption.
  - cbn [length flat_map] in *. destruct fuel as [|fuel]; [lia|].
    assert (Hv : octet v) by now inversion Ho.
    rewrite <- app_assoc in Hw.
    destruct (readBitsStream_loop_round v pre _ s (length bytes) Hv Hw Hr)
      as (s1 & W1 & R1 & Step).
    rewrite Step. unfold bind at 1, on.
    rewrite writeByteOffset_grows; try (assumption || lia).
    2:{ rewrite Hd. apply Forall_app_2; [|exact Hox]. apply Forall_replicate.
        unfold octet. lia. }
    cbn [snd]. rewrite HwB. rewrite take_0. cbn [app].
    replace (Z.to_nat (Z.of_nat c + 1 - 0)) with (c + 1)%nat by lia.
    rewrite replicate_add. cbn [replicate].
    rewrite Nat2Z.id, insert_app_r_alt by (rewrite length_replicate; lia).
    rewrite length_replicate, Nat.sub_diag. cbn [insert list_insert].
    rewrite app_assoc in W1.
    replace (Z.of_nat c + 1) with (Z.of_nat (S c)) by lia.
    destruct (IH (pre ++ octet_bits v) post (S c) [v] b
                (mkBitStream (replicate c 0 ++ [v]) (Z.of_nat (S c))
                   (readBytePosition target) (readBitPosition target)
                   0 (writeBitPosition target) (byte target))
                fuel s1 ltac:(now inversion Ho) W1 R1 ltac:(lia))
      as (s2 & E2 & W2 & R2);
      cbn [data byteCount writeBytePosition]; try reflexivity.
    { cbn [Nat.sub]. now rewrite Nat.sub_0_r. }
    { cbn [length]. lia. }
    { now constructor. }
    exists s2. rewrite E2.
    cbn [data byteCount readBytePosition readBitPosition
         writeBytePosition writeBitPosition byte].
    rewrite <- !app_assoc in *.
    split; [|split; assumption].
    do 2 f_equal. f_equal; [|f_equal; lia].
    destruct bytes as [|w bytes]; cbn [length List.last]; [|f_equal; f_equal; lia].
    f_equal. f_equal. lia.
Qed.

(** X25. [readBitsStream(ret, 8k, b)] with [k >= 1] octets ahead of the read
    cursor returns [ret] and advances the cursor by [8k] bits.  When [ret]
    already holds at least [k] octets, its first [k] octets become the
    octets read and nothing else of it changes.  When [ret] is a new stream,
    every store reallocates it without keeping anything: it ends with [k]
    octets of which all but the last are zero. *)
Theorem readBitsStream_whole_octets (bytes : list Z) (pre post : list bool)
    (b : bool) (s target : BitStream) :
  bytes <> [] -> Forall octet bytes ->
  written (pre ++ flat_map octet_bits bytes ++ post) s ->
  read_at (Z.of_nat (length pre)) s ->
  let k := length bytes in
  (Z.of_nat k <= byteCount target <= Z.of_nat (length (data target)) ->
   exists s',
     readBitsStream target (8 * Z.of_nat k) b s =
       (Normal (Some (mkBitStream (bytes ++ drop k (data target))
                        (byteCount target) (readBytePosition target)
                        (readBitPosition target) (writeBytePosition target)
                        (writeBitPosition target) (byte target))), s') /\
     read_at (Z.of_nat (length pre) + 8 * Z.of_nat k) s') /\
  (exists s',
     readBitsStream (new_BitStream None) (8 * Z.of_nat k) b s =
       (Normal (Some (mkBitStream (replicate (k - 1) 0 ++ [List.last bytes 0])
                        (Z.of_nat k) 0 7 0 7 None)), s') /\
     read_at (Z.of_nat (length pre) + 8 * Z.of_nat k) s').
Proof.
  intros Hne Ho Hw Hr k.
  assert (Hk : (1 <= k)%nat) by (unfold k; destruct bytes; [contradiction|simpl; lia]).
  assert (Hpre : forall t,
            readBitsStream t (8 * Z.of_nat k) b s =
            (r <- readBitsStream_loop (Z.to_nat (8 * Z.of_nat k)) (8 * Z.of_nat k) 0 b t ;;
             ret (Some r)) s).
  { intros t. unfold readBitsStream.
    destruct (Z.leb_spec (8 * Z.of_nat k) 0); [lia|].
    unfold bind at 1, get at 1. unfold bind at 1, get at 1.
    destruct Hw as [Hlen Hcount _ _ _ _]. destruct Hr as [HrB _].
    rewrite Hcount, Hlen, HrB, !length_app, flat_map_octet_bits_length. fold k.
    destruct (Z.ltb_spec ((Z.of_nat (length pre + (8 * k + length post)) + 7) / 8)
                (Z.of_nat (length pre) / 8 + 8 * Z.of_nat k / 8)); [dlia|].
    reflexivity. }
  assert (Hpos : forall s', read_at (Z.of_nat (length (pre ++ flat_map octet_bits bytes))) s' ->
                            read_at (Z.of_nat (length pre) + 8 * Z.of_nat k) s').
  { intros s' R. rewrite length_app, flat_map_octet_bits_length in R. fold k in R.
    replace (Z.of_nat (length pre) + 8 * Z.of_nat k)
      with (Z.of_nat (length pre + 8 * k)) by lia. exact R. }
  split.
  - intros Hroom.
    destruct (readBitsStream_loop_inside bytes pre post 0 b target
                (Z.to_nat (8 * Z.of_nat k)) s Ho Hw Hr) as (s' & E & W & R);
      fold k; try lia.
    exists s'. split; [|exact (Hpos s' R)].
    rewrite Hpre. unfold bind. change (Z.of_nat 0) with 0 in E. fold k in E. rewrite E.
    rewrite take_0. reflexivity.
  - destruct (readBitsStream_loop_empty bytes pre post 0 [] b (new_BitStream None)
                (Z.to_nat (8 * Z.of_nat k)) s Ho Hw Hr) as (s' & E & W & R);
      fold k; try reflexivity; try lia; [constructor|].
    exists s'. split; [|exact (Hpos s' R)].
    rewrite Hpre. unfold bind. change (Z.of_nat 0) with 0 in E. fold k in E. rewrite E.
    unfold ret. do 3 f_equal. destruct bytes as [|v bytes]; [contradiction|].
    reflexivity.
Qed.

Lemma readBitsStream_whole_octets_witness :
  exists s, writeShort 0x1234 fresh = (Normal tt, s) /\
  exists s',
    readBitsStream (new_BitStream None) (8 * Z.of_nat 2) true s =
      (Normal (Some (mkBitStream [0; 0x12] 2 0 7 0 7 None)), s').
Proof.
  destruct (writeShort_written 0x1234 [] fresh written_fresh) as (s & E0 & W0 & R0).
  exists s. split; [exact E0|].
  destruct (readBitsStream_whole_octets [0x34; 0x12] [] [] true s fresh
              ltac:(discriminate)
              ltac:(repeat constructor; unfold octet; lia)
              W0 (read_at_same_reader _ _ _ R0 (proj2 caught_up_fresh)))
    as (_ & s' & E & _).
  exists s'. exact E.
Defined.

(** X26. [readBitsStream(ret, n, b)] with [0 < n < 8] never reads the
    source: with [b] true it replaces octet 0 of [ret] by its own old value
    shifted right by [8 - n] and adds [n] to the source's read byte position
    (so the cursor jumps [n] octets, not [n] bits); with [b] false it leaves
    [ret] alone and adds 8 to the read byte position. *)
Theorem readBitsStream_partial_octet (n : Z) (s target : BitStream) :
  0 < n < 8 -> readBytePosition s <= byteCount s ->
  well_formed target -> 1 <= byteCount target ->
  let moved k := mkBitStream (data s) (byteCount s) (readBytePosition s + k)
                   (readBitPosition s) (writeBytePosition s) (writeBitPosition s)
                   (byte s) in
  readBitsStream target n true s =
    (Normal (Some (mkBitStream
                     (<[0%nat := nth 0 (data target) 0 / 2 ^ (8 - n)]> (data target))
                     (byteCount target) (readBytePosition target)
                     (readBitPosition target) (writeBytePosition target)
                     (writeBitPosition target) (byte target))),
     moved n) /\
  readBitsStream target n false s = (Normal (Some target), moved 8).
Proof.
  intros Hn Hr [Hc Ho _ _ _ _ _] Hb moved.
  assert (Hpre : forall b,
            readBitsStream target n b s =
            (r <- readBitsStream_loop (Z.to_nat n) n 0 b target ;; ret (Some r)) s).
  { intros b. unfold readBitsStream. destruct (Z.leb_spec n 0); [lia|].
    unfold bind at 1, get at 1. unfold bind at 1, get at 1.
    rewrite (Z.div_small n 8) by lia.
    destruct (Z.ltb_spec (byteCount s) (readBytePosition s + 0)); [lia|]. reflexivity. }
  destruct (Z.to_nat n) as [|fuel] eqn:En; [lia|].
  pose proof (octet_nth (data target) 0 Ho) as Hx. unfold octet in Hx.
  set (x := nth 0 (data target) 0) in *.
  assert (Hshr : Js.shr x (- (n - 8)) = x / 2 ^ (8 - n)).
  { unfold Js.shr. rewrite shiftCount_small by lia.
    rewrite ToInt32_small by lia. rewrite Z.shiftr_div_pow2 by lia. f_equal. f_equal. lia. }
  assert (Hq : 0 <= x / 2 ^ (8 - n) < 256).
  { assert (0 < 2 ^ (8 - n)) by (apply Z.pow_pos_nonneg; lia).
    split; [apply Z.div_pos; lia|].
    apply Z.div_lt_upper_bound; [lia|]. nia. }
  split; rewrite Hpre; cbn [readBitsStream_loop];
    (destruct (Z.ltb_spec 0 n); [|lia]); (destruct (Z.leb_spec 8 n); [lia|]);
    cbv zeta; (destruct (Z.ltb_spec (n - 8) 0); [|lia]).
  - unfold bind at 1. unfold bind at 1. unfold bind at 1, on at 1.
    unfold readByteOffset. unfold bind at 1, get at 1, lift, Buffer.readUInt8.
    destruct (Z.ltb_spec 0 (Z.of_nat (length (data target)))); [|lia].
    cbn [Z.leb Z.compare andb fst snd]. change (Z.to_nat 0) with 0%nat. fold x.
    unfold bind at 1, on at 1. rewrite Hshr.
    rewrite writeByteOffset_inside by (unfold octet; lia).
    cbn [snd Z.to_nat]. run_monad.
    replace (readBytePosition s + (8 + (n - 8))) with (readBytePosition s + n) by lia.
    destruct fuel; reflexivity.
  - run_monad. destruct fuel; reflexivity.
Qed.

Lemma readBitsStream_partial_octet_witness :
  0 < 3 < 8 /\ well_formed (new_BitStream (Some [0xFF])) /\
  readBitsStream (new_BitStream (Some [0xFF])) 3 true fresh =
    (Normal (Some (mkBitStream [7] 1 0 7 0 7 (Some 0xFF))), mkBitStream [] 0 3 7 0 7 None).
Proof.
  assert (Hw : well_formed (new_BitStream (Some [0xFF])))
    by (apply well_formed_new; repeat constructor; unfold octet; lia).
  split; [lia|]. split; [exact Hw|].
  exact (proj1 (readBitsStream_partial_octet 3 fresh (new_BitStream (Some [0xFF]))
                  ltac:(lia) ltac:(simpl; lia) Hw ltac:(simpl; lia))).
Defined.

(** ** Long longs read back *)

Lemma round53_small x : x < 2 ^ 53 -> round53 x = x.
Proof. intros H. unfold round53. destruct (Z.ltb_spec x (2 ^ 53)); [reflexivity|lia]. Qed.

Lemma add53_small a b : a + b < 2 ^ 53 -> add53 a b = a + b.
Proof. apply round53_small. Qed.

Lemma long_octets n :
  n mod 256 + (n / 256) mod 256 * 256 + (n / 65536) mod 256 * 65536 +
  (n / 16777216) mod 256 * 16777216 = n mod 4294967296.
Proof.
  rewrite (mod_split n 256 256) by lia. change (256 * 256) with 65536.
  rewrite (mod_split n 65536 256) by lia. change (65536 * 256) with 16777216.
  rewrite (mod_split n 16777216 256) by lia. reflexivity.
Qed.

Lemma readLongLong_next pre bottom top post s :
  written (pre ++ ((bits_down bottom 7 8 ++ bits_down bottom 15 8 ++
                    bits_down bottom 23 8 ++ bits_down bottom 31 8) ++
                   (bits_down top 7 8 ++ bits_down top 15 8 ++
                    bits_down top 23 8 ++ bits_down top 31 8)) ++ post) s ->
  read_at (Z.of_nat (length pre)) s ->
  exists s',
    readLongLong s =
      (Normal (add53 (add53 (add53 (add53 (bottom mod 4294967296)
                 (top mod 256 * 4294967296))
                 ((top / 256) mod 256 * 1099511627776))
                 ((top / 65536) mod 256 * 281474976710656))
                 ((top / 16777216) mod 256 * 72057594037927936)), s') /\
    written (pre ++ ((bits_down bottom 7 8 ++ bits_down bottom 15 8 ++
                      bits_down bottom 23 8 ++ bits_down bottom 31 8) ++
                     (bits_down top 7 8 ++ bits_down top 15 8 ++
                      bits_down top 23 8 ++ bits_down top 31 8)) ++ post) s' /\
    read_at (Z.of_nat (length pre) + 64) s'.
Proof.
  intros Hw Hr. rewrite <- !app_assoc in Hw.
  destruct (readByte_next pre bottom 7 _ s ltac:(lia) Hw Hr) as (s1 & E1 & W1 & R1 & _).
  rewrite app_assoc in W1.
  destruct (readByte_next _ bottom 15 _ s1 ltac:(lia) W1 R1) as (s2 & E2 & W2 & R2 & _).
  rewrite app_assoc in W2.
  destruct (readByte_next _ bottom 23 _ s2 ltac:(lia) W2 R2) as (s3 & E3 & W3 & R3 & _).
  rewrite app_assoc in W3.
  destruct (readByte_next _ bottom 31 _ s3 ltac:(lia) W3 R3) as (s4 & E4 & W4 & R4 & _).
  rewrite app_assoc in W4.
  destruct (readByte_next _ top 7 _ s4 ltac:(lia) W4 R4) as (s5 & E5 & W5 & R5 & _).
  rewrite app_assoc in W5.
  destruct (readByte_next _ top 15 _ s5 ltac:(lia) W5 R5) as (s6 & E6 & W6 & R6 & _).
  rewrite app_assoc in W6.
  destruct (readByte_next _ top 23 _ s6 ltac:(lia) W6 R6) as (s7 & E7 & W7 & R7 & _).
  rewrite app_assoc in W7.
  destruct (readByte_next _ top 31 _ s7 ltac:(lia) W7 R7) as (s8 & E8 & W8 & R8 & _).
  exists s8. unfold readLongLong, bind.
  rewrite E1, E2, E3, E4, E5, E6, E7, E8. unfold ret.
  split; [|split].
  - do 2 f_equal.
    change (7 - 7) with 0. change (15 - 7) with 8.
    change (23 - 7) with 16. change (31 - 7) with 24.
    change (2 ^ 0) with 1. change (2 ^ 8) with 256. change (2 ^ 16) with 65536.
    change (2 ^ 24) with 16777216. rewrite !Z.div_1_r.
    pose proof (Z.mod_pos_bound bottom 256 ltac:(lia)) as B0.
    pose proof (Z.mod_pos_bound (bottom / 256) 256 ltac:(lia)) as B1.
    pose proof (Z.mod_pos_bound (bottom / 65536) 256 ltac:(lia)) as B2.
    pose proof (Z.mod_pos_bound (bottom / 16777216) 256 ltac:(lia)) as B3.
    rewrite !shl_small by lia.
    change (2 ^ 8) with 256. change (2 ^ 16) with 65536.
    rewrite (add53_small (bottom mod 256))
      by (change (2 ^ 53) with 9007199254740992; lia).
    rewrite (add53_small (bottom mod 256 + _))
      by (change (2 ^ 53) with 9007199254740992; lia).
    rewrite (add53_small (bottom mod 256 + _ + _))
      by (change (2 ^ 53) with 9007199254740992; lia).
    rewrite long_octets. reflexivity.
  - rewrite <- !app_assoc in *. exact W8.
  - rewrite !length_app, !bits_down_length in R8.
    replace (Z.of_nat (length pre) + 64)
      with (Z.of_nat (length pre + 8 + 8 + 8 + 8 + 8 + 8 + 8 + 8)) by lia.
    exact R8.
Qed.

(** X27. [writeLongLong(top, bottom)] followed by [readLongLong()] returns
    [bottom mod 2^32 + 2^32 * (top mod 2^32)] whenever that number is below
    [2^53].  Above, the sum is rounded as doubles are: for [top = 2^21] and
    [bottom = 1] it returns [2^53], not [2^53 + 1]. *)
Theorem readLongLong_exact_below_2_53 (top bottom : Z) bs s :
  caught_up bs s ->
  let v := bottom mod 2 ^ 32 + 2 ^ 32 * (top mod 2 ^ 32) in
  exists r s',
    (writeLongLong top bottom ;; readLongLong) s = (Normal r, s') /\
    (v < 2 ^ 53 -> r = v) /\
    (top mod 2 ^ 32 = 2 ^ 21 -> bottom mod 2 ^ 32 = 1 -> r = 2 ^ 53 /\ r <> v).
Proof.
  intros Hc v.
  destruct (writeLong_written bottom bs s (proj1 Hc)) as (s1 & E1 & W1 & R1).
  destruct (writeLong_written top _ s1 W1) as (s2 & E2 & W2 & R2).
  rewrite <- app_assoc in W2.
  destruct (caught_up_after_write _ _ _ _ Hc W2 (same_reader_trans _ _ _ R1 R2))
    as [W2' Hr2].
  destruct (readLongLong_next bs bottom top [] s2 W2' Hr2) as (s3 & E3 & _).
  eexists. exists s3. unfold writeLongLong, bind. rewrite E1, E2.
  split; [exact E3|].
  change (2 ^ 32) with 4294967296 in *. change (2 ^ 53) with 9007199254740992.
  change (2 ^ 21) with 2097152.
  pose proof (long_octets top) as Ht.
  pose proof (Z.mod_pos_bound bottom 4294967296 ltac:(lia)) as B.
  pose proof (Z.mod_pos_bound top 256 ltac:(lia)) as T0.
  pose proof (Z.mod_pos_bound (top / 256) 256 ltac:(lia)) as T1.
  pose proof (Z.mod_pos_bound (top / 65536) 256 ltac:(lia)) as T2.
  pose proof (Z.mod_pos_bound (top / 16777216) 256 ltac:(lia)) as T3.
  set (t0 := top mod 256) in *. set (t1 := (top / 256) mod 256) in *.
  set (t2 := (top / 65536) mod 256) in *. set (t3 := (top / 16777216) mod 256) in *.
  set (lo := bottom mod 4294967296) in *.
  clearbody t0 t1 t2 t3 lo.
  split.
  - intros Hv. subst v. rewrite <- Ht in Hv |- *.
    rewrite (add53_small lo) by lia.
    rewrite (add53_small (lo + _)) by lia.
    rewrite (add53_small (lo + _ + _)) by lia.
    rewrite (add53_small (lo + _ + _ + _)) by lia. lia.
  - intros Htop Hlo. subst v. rewrite Htop, Hlo. rewrite Htop in Ht.
    assert (E3' : t3 = 0) by lia. rewrite E3' in *.
    assert (E2' : t2 = 32) by lia. rewrite E2' in *.
    assert (E1' : t1 = 0) by lia. rewrite E1' in *.
    assert (E0' : t0 = 0) by lia. rewrite E0'.
    split; vm_compute; [reflexivity|discriminate].
Qed.

Lemma readLongLong_exact_below_2_53_witness :
  caught_up [] fresh /\
  exists r s', (writeLongLong 1 2 ;; readLongLong) fresh = (Normal r, s') /\ r = 4294967298.
Proof.
  split; [exact caught_up_fresh|].
  destruct (readLongLong_exact_below_2_53 1 2 [] fresh caught_up_fresh)
    as (r & s' & E & H & _).
  exists r, s'. split; [exact E|]. exact (H ltac:(vm_compute; reflexivity)).
Defined.
